(** * VFPU register addressing, transfer and arithmetic kernel

    A shallow embedding of Core/MIPS/MIPSVFPUUtils.cpp.  C integers are
    modelled as [Z] with the wrap-around of each cast written out; float
    values are carried as their 32-bit IEEE-754 bit patterns (the code itself
    goes through the [float2int] union); arrays are lists accessed through
    bounds-checked [load] and [store], so that an out-of-range access shows
    up as [None]; a failed [_assert_msg_] is [None] as well. *)

From Stdlib Require Import ZArith Lia List Bool.
From stdpp Require Import base option list.

Local Open Scope Z_scope.

(** ** Machine integers *)

Module Int.

Definition u8 (x : Z) : Z := x mod 2 ^ 8.
Definition u32 (x : Z) : Z := x mod 2 ^ 32.
Definition u64 (x : Z) : Z := x mod 2 ^ 64.

(** Conversion to a signed integer of [w] bits (two's complement). *)
Definition signed (w : Z) (x : Z) : Z :=
  let m := x mod 2 ^ w in
  if m <? 2 ^ (w - 1) then m else m - 2 ^ w.

Definition s8 : Z -> Z := signed 8.
Definition s32 : Z -> Z := signed 32.
Definition s64 : Z -> Z := signed 64.

(** C truth value of an integer. *)
Definition nz (x : Z) : bool := negb (x =? 0).

End Int.
Import Int.

(** ** Arrays and loops *)

Definition load (a : list Z) (i : Z) : option Z :=
  if decide (0 <= i) then a !! Z.to_nat i else None.

Definition store (a : list Z) (i x : Z) : option (list Z) :=
  if decide (0 <= i < Z.of_nat (length a))
  then Some (<[Z.to_nat i := x]> a)
  else None.

(** [for (int i = k; i < k + n; i++) body], threading the state [s]. *)
Fixpoint for_loop {St : Type} (n : nat) (k : Z)
    (body : Z -> St -> option St) (s : St) : option St :=
  match n with
  | O => Some s
  | S n' =>
      match body k s with
      | Some s' => for_loop n' (k + 1) body s'
      | None => None
      end
  end.

(** What a loop that writes [w t] at position [pos t] on each turn [t] with
    [c t] leaves behind, the state being observed through [get]. *)
Section ScatterSpec.

Context {St : Type} (get : St -> Z -> option Z).
Variables (c : Z -> bool) (pos : Z -> Z) (w : Z -> option Z) (n : nat).

Definition written_at (s' : St) : Prop :=
  forall t, 0 <= t < Z.of_nat n -> c t = true -> get s' (pos t) = w t.

Definition kept_elsewhere (s s' : St) : Prop :=
  forall p, (forall t, 0 <= t < Z.of_nat n -> c t = true -> p <> pos t) ->
            get s' p = get s p.

Definition distinct_positions : Prop :=
  forall t u, 0 <= t < Z.of_nat n -> 0 <= u < Z.of_nat n ->
              c t = true -> c u = true -> pos t = pos u -> t = u.

End ScatterSpec.

(** ** Sizes *)

Inductive VectorSize := V_Single | V_Pair | V_Triple | V_Quad | V_Invalid.
Inductive MatrixSize := M_1x1 | M_2x2 | M_3x3 | M_4x4 | M_Invalid.

#[global] Instance VectorSize_eq_dec : EqDecision VectorSize.
Proof. solve_decision. Defined.

#[global] Instance MatrixSize_eq_dec : EqDecision MatrixSize.
Proof. solve_decision. Defined.

Definition GetNumVectorElements (sz : VectorSize) : Z :=
  match sz with
  | V_Single => 1
  | V_Pair => 2
  | V_Triple => 3
  | V_Quad => 4
  | V_Invalid => 0
  end.

Definition GetMatrixSideSafe (sz : MatrixSize) : Z :=
  match sz with
  | M_1x1 => 1
  | M_2x2 => 2
  | M_3x3 => 3
  | M_4x4 => 4
  | M_Invalid => 0
  end.

(** ** Addressing *)

(** The [switch (N)] of [GetVectorRegs]: the transpose flag, the row field
    and the length, or [None] where the [default] case asserts. *)
Definition vector_fields (N : VectorSize) (reg : Z) (transpose : Z)
    : option (Z * Z * Z) :=
  match N with
  | V_Single => Some (0, Z.land (Z.shiftr reg 5) 3, 1)
  | V_Pair => Some (transpose, Z.land (Z.shiftr reg 5) 2, 2)
  | V_Triple => Some (transpose, Z.land (Z.shiftr reg 6) 1, 3)
  | V_Quad => Some (transpose, Z.land (Z.shiftr reg 5) 2, 4)
  | V_Invalid => None
  end.

(** The [switch] that [GetMatrixRegs], [ReadMatrix] and [WriteMatrix] all
    start with. *)
Definition matrix_fields (N : MatrixSize) (reg : Z) (transpose : Z)
    : option (Z * Z * Z) :=
  match N with
  | M_1x1 => Some (0, Z.land (Z.shiftr reg 5) 3, 1)
  | M_2x2 => Some (transpose, Z.land (Z.shiftr reg 5) 2, 2)
  | M_3x3 => Some (transpose, Z.land (Z.shiftr reg 6) 1, 3)
  | M_4x4 => Some (transpose, Z.land (Z.shiftr reg 5) 2, 4)
  | M_Invalid => None
  end.

(** The [switch (size)] of [ReadVector] and [WriteVector], which sets the row
    field and the length only.  Both functions deal with [V_Single] apart
    (an early return), so that its case is never reached here. *)
Definition row_length (size : VectorSize) (reg : Z) : option (Z * Z) :=
  match size with
  | V_Pair => Some (Z.land (Z.shiftr reg 5) 2, 2)
  | V_Triple => Some (Z.land (Z.shiftr reg 6) 1, 3)
  | V_Quad => Some (Z.land (Z.shiftr reg 5) 2, 4)
  | V_Single | V_Invalid => None
  end.

(** The body of the loop of [GetVectorRegs]: the index of element [i]. *)
Definition vector_index (mtx col row transpose i : Z) : Z :=
  let index := mtx * 4 in
  if nz transpose
  then index + (Z.land (row + i) 3 + col * 32)
  else index + (col + Z.land (row + i) 3 * 32).

Definition GetVectorRegs (regs : list Z) (N : VectorSize) (vectorReg : Z)
    : option (list Z) :=
  let mtx := Z.land (Z.shiftr vectorReg 2) 7 in
  let col := Z.land vectorReg 3 in
  let transpose := Z.land (Z.shiftr vectorReg 5) 1 in
  '(transpose, row, length) ← vector_fields N vectorReg transpose;
  for_loop (Z.to_nat length) 0
    (fun i regs => store regs i (u8 (vector_index mtx col row transpose i)))
    regs.

(** The body of the loops of [GetMatrixRegs]: the index of cell
    (row [i], column [j]). *)
Definition matrix_index (mtx col row transpose i j : Z) : Z :=
  let index := mtx * 4 in
  if nz transpose
  then index + (Z.land (row + i) 3 + Z.land (col + j) 3 * 32)
  else index + (Z.land (col + j) 3 + Z.land (row + i) 3 * 32).

Definition GetMatrixRegs (regs : list Z) (N : MatrixSize) (matrixReg : Z)
    : option (list Z) :=
  let mtx := Z.land (Z.shiftr matrixReg 2) 7 in
  let col := Z.land matrixReg 3 in
  let transpose := Z.land (Z.shiftr matrixReg 5) 1 in
  '(transpose, row, side) ← matrix_fields N matrixReg transpose;
  for_loop (Z.to_nat side) 0
    (fun i regs =>
       for_loop (Z.to_nat side) 0
         (fun j regs =>
            store regs (j * 4 + i)
              (u8 (matrix_index mtx col row transpose i j)))
         regs)
    regs.

(** ** The register file and the write mask *)

(** The part of [MIPSState] the transfer functions touch: the 128 lanes
    [v] and the write mask. *)
Record MIPSState := mkMIPSState {
  v : list Z;
  writeMask : Z
}.

(** Modelled from the spec: the accessor [MIPSState::VfpuWriteMask()] is
    declared in Core/MIPS/MIPS.h, a header outside this development.
    The write mask is external state whose bit [i] set means that lane [i] of
    the addressed set is not written; the accessor without argument returns
    the whole mask. *)
Definition VfpuWriteMask (st : MIPSState) : Z := writeMask st.

(** Modelled from the spec: the accessor [MIPSState::VfpuWriteMask(int i)],
    of the same header: bit [i] of the write mask. *)
Definition VfpuWriteMaskBit (st : MIPSState) (i : Z) : bool :=
  Z.testbit (writeMask st) i.

(** [v[p] = x] on the lane array. *)
Definition set_v (st : MIPSState) (p x : Z) : option MIPSState :=
  v' ← store (v st) p x;
  Some {| v := v'; writeMask := writeMask st |}.

Section Transfer.

(** The table [voffset] (filled in by the constructor of [MIPSState], in
    Core/MIPS/MIPS.cpp) lies outside this development: it is a parameter of
    the transfer functions. *)
Variable voffset : Z -> Z.

(** The macro [V(i)], read and written. *)
Definition V (st : MIPSState) (i : Z) : option Z :=
  load (v st) (voffset i).

Definition set_V (st : MIPSState) (i x : Z) : option MIPSState :=
  set_v st (voffset i) x.

Definition ReadVector (rd : list Z) (size : VectorSize) (reg : Z)
    (st : MIPSState) : option (list Z) :=
  if size is V_Single then
    x ← V st reg; store rd 0 x
  else
    '(row, length) ← row_length size reg;
    let transpose := Z.land (Z.shiftr reg 5) 1 in
    let mtx := Z.land (Z.shiftr reg 2) 7 in
    let col := Z.land reg 3 in
    if nz transpose then
      let base := mtx * 4 + col * 32 in
      for_loop (Z.to_nat length) 0
        (fun i rd => x ← V st (base + Z.land (row + i) 3); store rd i x) rd
    else
      let base := mtx * 4 + col in
      for_loop (Z.to_nat length) 0
        (fun i rd => x ← V st (base + Z.land (row + i) 3 * 32); store rd i x)
        rd.

Definition WriteVector (rd : list Z) (size : VectorSize) (reg : Z)
    (st : MIPSState) : option MIPSState :=
  if size is V_Single then
    if negb (VfpuWriteMaskBit st 0)
    then x ← load rd 0; set_V st reg x
    else Some st
  else
    let mtx := Z.land (Z.shiftr reg 2) 7 in
    let col := Z.land reg 3 in
    let transpose := Z.land (Z.shiftr reg 5) 1 in
    '(row, length) ← row_length size reg;
    if VfpuWriteMask st =? 0 then
      if nz transpose then
        let base := mtx * 4 + col * 32 in
        for_loop (Z.to_nat length) 0
          (fun i st => x ← load rd i; set_V st (base + Z.land (row + i) 3) x)
          st
      else
        let base := mtx * 4 + col in
        for_loop (Z.to_nat length) 0
          (fun i st =>
             x ← load rd i; set_V st (base + Z.land (row + i) 3 * 32) x)
          st
    else
      for_loop (Z.to_nat length) 0
        (fun i st =>
           if negb (VfpuWriteMaskBit st i)
           then x ← load rd i;
                set_V st (vector_index mtx col row transpose i) x
           else Some st)
        st.

End Transfer.

(** The per-cell loops of [WriteMatrix]; [index i j] is the offset of cell
    (row [i], column [j]) from the start [vbase] of the bank. *)
Definition write_cells (rd : list Z) (vbase side : Z) (index : Z -> Z -> Z)
    (st : MIPSState) : option MIPSState :=
  for_loop (Z.to_nat side) 0
    (fun j st =>
       for_loop (Z.to_nat side) 0
         (fun i st =>
            if negb (j =? side - 1) || negb (VfpuWriteMaskBit st i)
            then x ← load rd (j * 4 + i); set_v st (vbase + index i j) x
            else Some st)
         st)
    st.

(** [memcpy(v + vbase, rd, sizeof(float) * n)]. *)
Definition memcpy_v (rd : list Z) (vbase : Z) (n : nat) (st : MIPSState)
    : option MIPSState :=
  for_loop n 0 (fun k st => x ← load rd k; set_v st (vbase + k) x) st.

(** The report of a write mask in use, which [WriteMatrix] logs before it
    goes on, has no effect on the state and is left out. *)
Definition WriteMatrix (rd : list Z) (size : MatrixSize) (reg : Z)
    (st : MIPSState) : option MIPSState :=
  let mtx := Z.land (Z.shiftr reg 2) 7 in
  let col := Z.land reg 3 in
  let transpose := Z.land (Z.shiftr reg 5) 1 in
  '(transpose, row, side) ← matrix_fields size reg transpose;
  let vbase := mtx * 16 in
  if nz transpose then
    if (side =? 4) && (row =? 0) && (col =? 0) && (VfpuWriteMask st =? 0)
    then
      for_loop (Z.to_nat side) 0
        (fun j st =>
           for_loop (Z.to_nat side) 0
             (fun i st =>
                x ← load rd (j * 4 + i); set_v st (vbase + (i * 4 + j)) x)
             st)
        st
    else
      write_cells rd vbase side
        (fun i j => Z.land (row + i) 3 * 4 + Z.land (col + j) 3) st
  else
    if (side =? 4) && (row =? 0) && (col =? 0) && (VfpuWriteMask st =? 0)
    then memcpy_v rd vbase 16 st
    else
      write_cells rd vbase side
        (fun i j => Z.land (col + j) 3 * 4 + Z.land (row + i) 3) st.

(** ** Overlap *)

(** [regs1] and [regs2] stand for the contents of the two local arrays
    when the function is entered: C++ leaves them indeterminate. *)
Definition GetVectorOverlap (regs1 regs2 : list Z)
    (vec1 : Z) (size1 : VectorSize) (vec2 : Z) (size2 : VectorSize)
    : option Z :=
  if negb (Z.land (Z.shiftr vec1 2) 7 =? Z.land (Z.shiftr vec2 2) 7)
  then Some 0
  else
    let n1 := GetNumVectorElements size1 in
    let n2 := GetNumVectorElements size2 in
    regs1 ← GetVectorRegs regs1 size1 vec1;
    regs2 ← GetVectorRegs regs2 size1 vec2;
    for_loop (Z.to_nat n1) 0
      (fun i count =>
         for_loop (Z.to_nat n2) 0
           (fun j count =>
              a ← load regs1 i;
              b ← load regs2 j;
              Some (if a =? b then count + 1 else count))
           count)
      0.

(** ** Arithmetic kernel *)

Module Kernel.

Definition PRECISION_EXP_THRESHOLD : Z := 0x65.

(** The canonical NaN the functions return. *)
Definition vfpu_nan : Z := 0x7F800001.

(** Bit patterns of the float constants the code names. *)
Definition float_zero : Z := 0x00000000.
Definition float_neg_zero : Z := 0x80000000.
Definition float_half : Z := 0x3F000000.
Definition float_one : Z := 0x3F800000.
Definition float_neg_one : Z := 0xBF800000.
Definition float_two : Z := 0x40000000.
Definition float_four : Z := 0x40800000.
Definition float_inf : Z := 0x7F800000.

(** Float comparison [x == y] and negation [-x] on bit patterns. *)
Definition is_nan (x : Z) : bool :=
  (Z.land x 0x7F800000 =? 0x7F800000) && nz (Z.land x 0x007FFFFF).

Definition float_eq (x y : Z) : bool :=
  negb (is_nan x) && negb (is_nan y) &&
  ((x =? y) || ((Z.land x 0x7FFFFFFF =? 0) && (Z.land y 0x7FFFFFFF =? 0))).

Definition float_neg (x : Z) : Z := Z.lxor x 0x80000000.

(** Classes of bit patterns: an infinity or a zero of either sign, a set
    sign bit, an exponent field of zero (the zeros and the subnormals). *)
Definition is_inf (x : Z) : bool := Z.land x 0x7FFFFFFF =? 0x7F800000.
Definition is_zero (x : Z) : bool := Z.land x 0x7FFFFFFF =? 0.
Definition sign_set (x : Z) : bool := nz (Z.land x 0x80000000).
Definition exp_field_zero (x : Z) : bool := Z.land x 0x7F800000 =? 0.

(** Modelled from the spec: [clz32_nonzero] comes from Common/BitScan.h,
    a header outside this development; it is the leading-zero count of a
    non-zero 32-bit value, used to renormalize a mantissa. *)
Definition clz32_nonzero (x : Z) : Z := 31 - Z.log2 (u32 x).

Definition get_uexp (x : Z) : Z := Z.land (Z.shiftr x 23) 0xFF.

Definition get_exp (x : Z) : Z := s32 (u32 (get_uexp x - 127)).

Definition get_mant (x : Z) : Z :=
  s32 (Z.lor (Z.land x 0x007FFFFF) 0x00800000).

Definition get_sign (x : Z) : Z := s32 (Z.land x 0x80000000).

(** *** vfpu_dot *)

Definition EXTRA_BITS : Z := 2.

(** The locals of [vfpu_dot] that the first loop updates.  The three arrays
    have four cells, each written by the first loop before the second one
    reads it: their indeterminate initial contents are taken as 0, and the
    indices 0..3 are always in range. *)
Record dot_state := mkDot {
  exps : list Z;
  mants : list Z;
  signs : list Z;
  max_exp : Z;
  last_inf : Z
}.

Definition dot_init : dot_state :=
  {| exps := [0; 0; 0; 0]; mants := [0; 0; 0; 0]; signs := [0; 0; 0; 0];
     max_exp := 0; last_inf := -1 |}.

(** Outcome of one turn of a loop with [return] statements in its body. *)
Inductive flow (St : Type) : Type :=
| Continue (s : St)
| Return (r : Z).
Arguments Continue {St} s.
Arguments Return {St} r.

Fixpoint for_flow {St : Type} (n : nat) (k : Z)
    (body : Z -> St -> flow St) (s : St) : flow St :=
  match n with
  | O => Continue s
  | S n' =>
      match body k s with
      | Continue s' => for_flow n' (k + 1) body s'
      | Return r => Return r
      end
  end.

(** Element [i] of an operand [const float a[4]]. *)
Definition elem (a : list Z) (i : Z) : Z := nth (Z.to_nat i) a 0.

(** The end of the first loop's body, once [mants[i]] and [exps[i]] are
    known. *)
Definition dot_lane_end (src0 src1 : Z) (i : Z) (mant e : Z)
    (s : dot_state) : flow dot_state :=
  let sign := Z.lxor (get_sign src0) (get_sign src1) in
  let max_exp' := if e >? max_exp s then e else max_exp s in
  let s' := {| exps := <[Z.to_nat i := e]> (exps s);
               mants := <[Z.to_nat i := mant]> (mants s);
               signs := <[Z.to_nat i := sign]> (signs s);
               max_exp := max_exp';
               last_inf := last_inf s |} in
  if e >=? 255 then
    if negb (last_inf s =? -1) && negb (sign =? last_inf s)
    then Return vfpu_nan
    else Continue {| exps := exps s'; mants := mants s'; signs := signs s';
                     max_exp := max_exp s'; last_inf := sign |}
  else Continue s'.

Definition dot_lane (a b : list Z) (i : Z) (s : dot_state)
    : flow dot_state :=
  let src0 := elem a i in
  let src1 := elem b i in
  let aexp := s32 (get_uexp src0) in
  let bexp := s32 (get_uexp src1) in
  let amant := s32 (Z.shiftl (get_mant src0) EXTRA_BITS) in
  let bmant := s32 (Z.shiftl (get_mant src1) EXTRA_BITS) in
  let e := aexp + bexp - 127 in
  if aexp =? 255 then
    if nz (Z.land src0 0x007FFFFF) || (bexp =? 0)
    then Return vfpu_nan
    else dot_lane_end src0 src1 i
           (s32 (Z.shiftl (get_mant 0) EXTRA_BITS)) 255 s
  else if bexp =? 255 then
    if nz (Z.land src1 0x007FFFFF) || (aexp =? 0)
    then Return vfpu_nan
    else dot_lane_end src0 src1 i
           (s32 (Z.shiftl (get_mant 0) EXTRA_BITS)) 255 s
  else
    let adjust := u64 (u64 amant * u64 bmant) in
    dot_lane_end src0 src1 i
      (s32 (Z.land (Z.shiftr adjust (23 + EXTRA_BITS)) 0x7FFFFFFF)) e s.

(** The second loop: align each mantissa to [max_exp] and add them up. *)
Definition dot_sum (s : dot_state) : Z :=
  fold_left
    (fun mant_sum i =>
       let exp := max_exp s - elem (exps s) i in
       let m := if exp >=? 32 then 0 else Z.shiftr (elem (mants s) i) exp in
       let m := if nz (elem (signs s) i) then s32 (- m) else m in
       s32 (mant_sum + m))
    [0; 1; 2; 3] 0.

(** What follows the two loops. *)
Definition dot_round (mant_sum max_exp : Z) : Z :=
  let '(sign_sum, mant_sum) :=
    if mant_sum <? 0 then (0x80000000, s32 (- mant_sum)) else (0, mant_sum) in
  let mant_sum := Z.shiftr mant_sum EXTRA_BITS in
  if (mant_sum =? 0) || (max_exp <=? 0) then float_zero
  else
    let shift := s8 (s8 (clz32_nonzero mant_sum) - 8) in
    let '(mant_sum, max_exp) :=
      if shift <? 0 then
        let round_bit := u32 (Z.shiftl 1 (- shift - 1)) in
        let '(mant_sum, shift) :=
          if nz (Z.land mant_sum round_bit) &&
             nz (Z.land mant_sum (u32 (Z.shiftl round_bit 1)))
          then
            let mant_sum := s32 (mant_sum + round_bit) in
            (mant_sum, s8 (s8 (clz32_nonzero mant_sum) - 8))
          else if nz (Z.land mant_sum round_bit) &&
                  nz (Z.land mant_sum (u32 (round_bit - 1)))
          then
            let mant_sum := s32 (mant_sum + round_bit) in
            (mant_sum, s8 (s8 (clz32_nonzero mant_sum) - 8))
          else (mant_sum, shift) in
        (Z.shiftr mant_sum (- shift), max_exp + - shift)
      else (s32 (Z.shiftl mant_sum shift), max_exp - shift) in
    if max_exp >=? 255 then
      u32 (Z.lor (Z.lor sign_sum (s32 (Z.shiftl 255 23)))
             (Z.land 0 0x007FFFFF))
    else if max_exp <=? 0 then float_zero
    else
      u32 (Z.lor (Z.lor sign_sum (s32 (Z.shiftl max_exp 23)))
             (Z.land mant_sum 0x007FFFFF)).

Definition vfpu_dot (a b : list Z) : Z :=
  match for_flow 4 0 (dot_lane a b) dot_init with
  | Return r => r
  | Continue s => dot_round (dot_sum s) (max_exp s)
  end.

(** *** vfpu_sqrt *)

Definition sqrt_step (halfsp z : Z) : Z :=
  u32 (Z.shiftr z 1 + u32 (Z.quot halfsp z)).

Definition vfpu_sqrt (a : Z) : Z :=
  let val := a in
  if Z.land val 0xff800000 =? 0x7f800000 then
    if nz (Z.land val 0x007fffff) then 0x7f800001 else val
  else if Z.land val 0x7f800000 =? 0 then 0
  else if nz (Z.land val 0x80000000) then 0x7f800001
  else
    let k := get_exp val in
    let sp := u32 (get_mant val) in
    let less_bits := Z.land k 1 in
    let k := Z.shiftr k 1 in
    let z := Z.shiftr 0x00C00000 less_bits in
    let halfsp := s64 (Z.shiftr sp 1) in
    let halfsp := s64 (Z.shiftl halfsp (23 - less_bits)) in
    let z := Nat.iter 6 (sqrt_step halfsp) z in
    let val :=
      u32 (Z.lor (s32 (Z.shiftl (k + 127) 23))
             (Z.land (u32 (Z.shiftl z less_bits)) 0x007FFFFF)) in
    Z.land val 0xFFFFFFFC.

(** *** vfpu_rsqrt *)

Definition mant_mul (a b : Z) : Z :=
  let m := u64 (u64 a * u64 b) in
  let m := if nz (Z.land m 0x007FFFFF) then u64 (m + 0x01437000) else m in
  u32 (Z.shiftr m 23).

Definition rsqrt_step (halfsp z : Z) : Z :=
  let zsq := mant_mul z z in
  let correction := u32 (0x00C00000 - mant_mul halfsp zsq) in
  mant_mul z correction.

Definition vfpu_rsqrt (a : Z) : Z :=
  let val := a in
  if val =? 0x7f800000 then float_zero
  else if Z.land val 0x7fffffff >? 0x7f800000 then
    Z.lor (Z.land val 0x80000000) 0x7f800001
  else if Z.land val 0x7f800000 =? 0 then
    Z.lor (Z.land val 0x80000000) 0x7f800000
  else if nz (Z.land val 0x80000000) then 0xff800001
  else
    let k := get_exp val in
    let sp := u32 (get_mant val) in
    let less_bits := Z.land k 1 in
    let k := - Z.shiftr k 1 in
    let z := Z.shiftr 0x00800000 less_bits in
    let halfsp := Z.shiftr sp (1 + less_bits) in
    let z := Nat.iter 6 (rsqrt_step halfsp) z in
    let shift := s8 (s8 (clz32_nonzero z) - 8 + less_bits) in
    let '(z, k) :=
      if shift <? 1 then (Z.shiftr z (- shift), k + - shift)
      else if shift >? 0 then (u32 (Z.shiftl z shift), k - shift)
      else (z, k) in
    let z := Z.shiftr z less_bits in
    let val :=
      u32 (Z.lor (s32 (Z.shiftl (k + 127) 23)) (Z.land z 0x007FFFFF)) in
    Z.land val 0xFFFFFFFC.

(** *** vfpu_sin and vfpu_cos *)

(** The argument reduction both functions start with, after the two early
    returns: from the biased exponent [k] and the bits [val] to the
    negate flag, the shifted mantissa and the new exponent.  A shift of
    the (then zero) mantissa by 32 is taken as the wrapped shift. *)
Definition reduce_turns (val k : Z) : bool * Z * Z :=
  let mantissa := get_mant val in
  let '(mantissa, k) :=
    if k >? 0x80 then
      let over := u8 (Z.land k 0x1F) in
      (Z.land (s32 (Z.shiftl mantissa over)) 0x00FFFFFF, 0x80)
    else (mantissa, k) in
  let '(negate, mantissa) :=
    if (k =? 0x80) && (mantissa >=? Z.shiftl 1 23)
    then (true, mantissa - Z.shiftl 1 23)
    else (false, mantissa) in
  let norm_shift :=
    s8 (if mantissa =? 0 then 32 else s8 (clz32_nonzero mantissa) - 8) in
  let mantissa := s32 (Z.shiftl mantissa norm_shift) in
  let k := k - norm_shift in
  (negate, mantissa, k).

(** The bits of the reduced value: [(val.i & 0x80000000) | (k << 23) |
    (mantissa & ~(1 << 23))]. *)
Definition reduced_bits (val k mantissa : Z) : Z :=
  u32 (Z.lor (Z.lor (Z.land val 0x80000000) (s32 (Z.shiftl k 23)))
         (Z.land mantissa (Z.lnot (Z.shiftl 1 23)))).

Section Trig.

(** The platform calls [(float)sin((double)x * M_PI_2)] and
    [(float)cos((double)x * M_PI_2)], from the bits of [x] to the bits
    of the result. *)
Variables sin_pi_2 cos_pi_2 : Z -> Z.

Definition vfpu_sin (a : Z) : Z :=
  let val := a in
  let k := s32 (get_uexp val) in
  if k =? 255 then Z.lor (Z.land val 0xFF800001) 1
  else if k <? PRECISION_EXP_THRESHOLD then Z.land val 0x80000000
  else
    let '(negate, mantissa, k) := reduce_turns val k in
    let val := if negate then u32 (Z.lxor val 0x80000000) else val in
    if (k <=? 0) || (mantissa =? 0) then Z.land val 0x80000000
    else
      let val := reduced_bits val k mantissa in
      let val := sin_pi_2 val in
      Z.land val 0xFFFFFFFC.

Definition vfpu_cos (a : Z) : Z :=
  let val := a in
  let k := s32 (get_uexp val) in
  if k =? 255 then Z.lor (Z.land val 0x7F800001) 1
  else if k <? PRECISION_EXP_THRESHOLD then float_one
  else
    let '(negate, mantissa, k) := reduce_turns val k in
    if (k <=? 0) || (mantissa =? 0)
    then (if negate then float_neg_one else float_one)
    else
      let val := reduced_bits val k mantissa in
      if float_eq val float_one || float_eq val float_neg_one
      then (if negate then float_zero else float_neg_zero)
      else
        let val := cos_pi_2 val in
        let val := Z.land val 0xFFFFFFFC in
        if negate then float_neg val else val.

End Trig.

End Kernel.

(** ** The addressing rules in the words of the specification *)

(** The row field of a code: [(code>>5)&3] for Single, [(code>>5)&2] for
    Pair and Quad, [(code>>6)&1] for Triple; the same for the matrix sizes. *)
Definition spec_vector_row (N : VectorSize) (code : Z) : Z :=
  match N with
  | V_Single => Z.land (Z.shiftr code 5) 3
  | V_Triple => Z.land (Z.shiftr code 6) 1
  | _ => Z.land (Z.shiftr code 5) 2
  end.

Definition spec_matrix_row (N : MatrixSize) (code : Z) : Z :=
  match N with
  | M_1x1 => Z.land (Z.shiftr code 5) 3
  | M_3x3 => Z.land (Z.shiftr code 6) 1
  | _ => Z.land (Z.shiftr code 5) 2
  end.

(** Lane index of element [i] of the vector [code] of size [N]: the bank is
    [(code>>2)&7], the column [code&3], the transpose flag [(code>>5)&1]
    (forced to 0 for Single), and the row field depends on the size. *)
Definition spec_vector_lane (N : VectorSize) (code i : Z) : Z :=
  let bank := Z.land (Z.shiftr code 2) 7 in
  let col := Z.land code 3 in
  let transpose :=
    match N with
    | V_Single => 0
    | _ => Z.land (Z.shiftr code 5) 1
    end in
  let row := spec_vector_row N code in
  bank * 4 +
  (if nz transpose
   then Z.land (row + i) 3 + col * 32
   else col + Z.land (row + i) 3 * 32).

(** Lane index of the cell (row [i], column [j]) of the matrix [code] of
    size [N]. *)
Definition spec_matrix_lane (N : MatrixSize) (code i j : Z) : Z :=
  let bank := Z.land (Z.shiftr code 2) 7 in
  let col := Z.land code 3 in
  let transpose :=
    match N with
    | M_1x1 => 0
    | _ => Z.land (Z.shiftr code 5) 1
    end in
  let row := spec_matrix_row N code in
  bank * 4 +
  (if nz transpose
   then Z.land (row + i) 3 + Z.land (col + j) 3 * 32
   else Z.land (col + j) 3 + Z.land (row + i) 3 * 32).

(** The bank a register code selects, and the bank a lane belongs to. *)
Definition bank_of (code : Z) : Z := Z.land (Z.shiftr code 2) 7.

(** ** A lane ordering for the register file *)

(** The ordering that [ReadMatrix] and [WriteMatrix] build into their
    formulas in place of a lookup in [voffset]: the lane of bank [m] with
    column [c] and row [r], which is lane [m * 4 + c + r * 32], is kept in
    cell [m * 16 + c * 4 + r] of the lane array. *)
Definition voffset_std (lane : Z) : Z :=
  Z.land (Z.shiftr lane 2) 7 * 16 +
  Z.land lane 3 * 4 +
  Z.land (Z.shiftr lane 5) 3.

(** ** The transfer rules in the words of the specification *)

(** The cell of the lane array that holds the cell (row [i], column [j]) of
    the matrix [reg] of size [N]: [WriteMatrix] addresses the bank at
    [v + mtx * 16] and the cell within it by the row and column. *)
Definition matrix_cell (N : MatrixSize) (reg i j : Z) : Z :=
  let mtx := Z.land (Z.shiftr reg 2) 7 in
  let col := Z.land reg 3 in
  let transpose :=
    match N with
    | M_1x1 => 0
    | _ => Z.land (Z.shiftr reg 5) 1
    end in
  let row := spec_matrix_row N reg in
  mtx * 16 +
  (if nz transpose
   then Z.land (row + i) 3 * 4 + Z.land (col + j) 3
   else Z.land (col + j) 3 * 4 + Z.land (row + i) 3).

(** A cell (row [i], column [j]) is skipped only when [j == side-1] and
    bit [i] of the mask is set. *)
Definition cell_skipped (side mask i j : Z) : bool :=
  (j =? side - 1) && Z.testbit mask i.

(** * The rest of the addressing and transfer functions *)

(** ** Conversions between sizes *)

Definition GetMatrixSide (sz : MatrixSize) : option Z :=
  let res := GetMatrixSideSafe sz in
  if nz res then Some res else None.

Definition GetHalfVectorSizeSafe (sz : VectorSize) : VectorSize :=
  match sz with
  | V_Pair => V_Single
  | V_Quad => V_Pair
  | _ => V_Invalid
  end.

(** The functions without [Safe] assert that the result is a size: a failed
    assertion is [None]. *)
Definition GetHalfVectorSize (sz : VectorSize) : option VectorSize :=
  let res := GetHalfVectorSizeSafe sz in
  if decide (res <> V_Invalid) then Some res else None.

Definition GetDoubleVectorSizeSafe (sz : VectorSize) : VectorSize :=
  match sz with
  | V_Single => V_Pair
  | V_Pair => V_Quad
  | _ => V_Invalid
  end.

Definition GetDoubleVectorSize (sz : VectorSize) : option VectorSize :=
  let res := GetDoubleVectorSizeSafe sz in
  if decide (res <> V_Invalid) then Some res else None.

(** The two size bits of an instruction word [op] (bits 7 and 15). *)
Definition size_bits (op : Z) : Z :=
  let a := Z.land (Z.shiftr op 7) 1 in
  let b := Z.land (Z.shiftr op 15) 1 in
  a + Z.shiftl b 1.

Definition GetVecSizeSafe (op : Z) : VectorSize :=
  match size_bits op with
  | 0 => V_Single
  | 1 => V_Pair
  | 2 => V_Triple
  | 3 => V_Quad
  | _ => V_Invalid
  end.

Definition GetVecSize (op : Z) : option VectorSize :=
  let res := GetVecSizeSafe op in
  if decide (res <> V_Invalid) then Some res else None.

Definition GetVectorSizeSafe (sz : MatrixSize) : VectorSize :=
  match sz with
  | M_1x1 => V_Single
  | M_2x2 => V_Pair
  | M_3x3 => V_Triple
  | M_4x4 => V_Quad
  | M_Invalid => V_Invalid
  end.

Definition GetVectorSize (sz : MatrixSize) : option VectorSize :=
  let res := GetVectorSizeSafe sz in
  if decide (res <> V_Invalid) then Some res else None.

Definition GetMatrixSizeSafe (sz : VectorSize) : MatrixSize :=
  match sz with
  | V_Single => M_1x1
  | V_Pair => M_2x2
  | V_Triple => M_3x3
  | V_Quad => M_4x4
  | V_Invalid => M_Invalid
  end.

Definition GetMatrixSize (sz : VectorSize) : option MatrixSize :=
  let res := GetMatrixSizeSafe sz in
  if decide (res <> M_Invalid) then Some res else None.

Definition GetMtxSizeSafe (op : Z) : MatrixSize :=
  match size_bits op with
  | 0 => M_1x1
  | 1 => M_2x2
  | 2 => M_3x3
  | 3 => M_4x4
  | _ => M_Invalid
  end.

Definition GetMtxSize (op : Z) : option MatrixSize :=
  let res := GetMtxSizeSafe op in
  if decide (res <> M_Invalid) then Some res else None.

Definition MatrixVectorSizeSafe (sz : MatrixSize) : VectorSize :=
  match sz with
  | M_1x1 => V_Single
  | M_2x2 => V_Pair
  | M_3x3 => V_Triple
  | M_4x4 => V_Quad
  | M_Invalid => V_Invalid
  end.

Definition MatrixVectorSize (sz : MatrixSize) : option VectorSize :=
  let res := MatrixVectorSizeSafe sz in
  if decide (res <> V_Invalid) then Some res else None.

(** ** Names of matrices, columns and rows *)

(** The fields of a register code: the transpose bit [t], bit 6 [r], the
    bank [m] and the column [c]. *)
Record code_fields (code t r m c : Z) : Prop := {
  cf_t : 0 <= t < 2;
  cf_r : 0 <= r < 2;
  cf_m : 0 <= m < 8;
  cf_c : 0 <= c < 4;
  cf_col : Z.land code 3 = c;
  cf_bank : Z.land (Z.shiftr code 2) 7 = m;
  cf_transpose : Z.land (Z.shiftr code 5) 1 = t;
  cf_row2 : Z.land (Z.shiftr code 5) 2 = 2 * r;
  cf_row1 : Z.land (Z.shiftr code 6) 1 = r;
  cf_row3 : Z.land (Z.shiftr code 5) 3 = t + 2 * r;
  cf_bank_bits : Z.land code 0x1C = 4 * m
}.


(** The error messages that [GetMatrixName] logs for a row or column it
    does not expect have no effect on the name and are left out; the sizes
    without a case (1x1 among them) reach the assertion. *)
Definition GetMatrixName (matrix : Z) (msize : MatrixSize) (column row : Z)
    (transposed : bool) : option Z :=
  let name := Z.lor (matrix * 4) (Z.shiftl (Z.b2z transposed) 5) in
  match msize with
  | M_4x4 => Some name
  | M_3x3 => Some (Z.lor name (Z.lor (Z.shiftl row 6) column))
  | M_2x2 => Some (Z.lor name (Z.lor (Z.shiftl row 5) column))
  | M_1x1 | M_Invalid => None
  end.

(** Whether [GetMatrixName] logs an error about the row or the column. *)
Definition GetMatrixName_complains (msize : MatrixSize) (column row : Z)
    : bool :=
  match msize with
  | M_4x4 => nz row || nz column
  | M_3x3 | M_2x2 =>
      nz (Z.land row (Z.lnot 2)) || nz (Z.land column (Z.lnot 2))
  | M_1x1 | M_Invalid => false
  end.

Definition GetColumnName (matrix : Z) (msize : MatrixSize) (column offset : Z)
    : Z :=
  matrix * 4 + column + offset * 32.

Definition GetRowName (matrix : Z) (msize : MatrixSize) (column offset : Z)
    : Z :=
  Z.lor 0x20 (matrix * 4 + column + offset * 32).

Definition GetMatrixColumns (matrixReg : Z) (msize : MatrixSize)
    (vecs : list Z) : option (list Z) :=
  n ← GetMatrixSide msize;
  let col := Z.land matrixReg 3 in
  let row := Z.land (Z.shiftr matrixReg 5) 2 in
  let transpose := Z.land (Z.shiftr matrixReg 5) 1 in
  for_loop (Z.to_nat n) 0
    (fun i vecs =>
       store vecs i
         (u8 (Z.lor (Z.lor (Z.lor (Z.shiftl transpose 5) (Z.shiftl row 5))
                       (Z.land matrixReg 0x1C))
                (i + col))))
    vecs.

Definition GetMatrixRows (matrixReg : Z) (msize : MatrixSize)
    (vecs : list Z) : option (list Z) :=
  n ← GetMatrixSide msize;
  let col := Z.land matrixReg 3 in
  let row := Z.land (Z.shiftr matrixReg 5) 2 in
  let swappedCol := if nz row then (if msize is M_3x3 then 1 else 2) else 0 in
  let swappedRow := if nz col then 2 else 0 in
  let transpose := Z.lxor (Z.land (Z.shiftr matrixReg 5) 1) 1 in
  for_loop (Z.to_nat n) 0
    (fun i vecs =>
       store vecs i
         (u8 (Z.lor (Z.lor (Z.lor (Z.shiftl transpose 5)
                              (Z.shiftl swappedRow 5))
                       (Z.land matrixReg 0x1C))
                (i + swappedCol))))
    vecs.

(** ** ReadMatrix *)

(** The per-cell loops of [ReadMatrix]. *)
Definition read_cells (rd : list Z) (vbase side : Z) (index : Z -> Z -> Z)
    (st : MIPSState) : option (list Z) :=
  for_loop (Z.to_nat side) 0
    (fun j rd =>
       for_loop (Z.to_nat side) 0
         (fun i rd =>
            x ← load (v st) (vbase + index i j); store rd (j * 4 + i) x)
         rd)
    rd.

(** [memcpy(rd, v + vbase, sizeof(float) * n)]. *)
Definition memcpy_rd (rd : list Z) (vbase : Z) (n : nat) (st : MIPSState)
    : option (list Z) :=
  for_loop n 0 (fun k rd => x ← load (v st) (vbase + k); store rd k x) rd.

Definition ReadMatrix (rd : list Z) (size : MatrixSize) (reg : Z)
    (st : MIPSState) : option (list Z) :=
  let mtx := Z.land (Z.shiftr reg 2) 7 in
  let col := Z.land reg 3 in
  let transpose := Z.land (Z.shiftr reg 5) 1 in
  '(transpose, row, side) ← matrix_fields size reg transpose;
  let vbase := mtx * 16 in
  if nz transpose then
    if (side =? 4) && (col =? 0) && (row =? 0) then
      for_loop 4 0
        (fun j rd =>
           for_loop 4 0
             (fun i rd =>
                x ← load (v st) (vbase + (i * 4 + j)); store rd (j * 4 + i) x)
             rd)
        rd
    else
      read_cells rd vbase side
        (fun i j => Z.land (row + i) 3 * 4 + Z.land (col + j) 3) st
  else
    if (side =? 4) && (col =? 0) && (row =? 0) then
      memcpy_rd rd vbase 16 st
    else
      read_cells rd vbase side
        (fun i j => Z.land (col + j) 3 * 4 + Z.land (row + i) 3) st.

(** ** GetMatrixOverlap *)

Inductive MatrixOverlapType := OVERLAP_EQUAL | OVERLAP_PARTIAL | OVERLAP_NONE.

(** A counted loop that returns from the function as soon as a turn finds
    what it looks for: [Some true] when a turn returned, [Some false] when
    the loop ran to its end. *)
Fixpoint for_search (n : nat) (k : Z) (body : Z -> option bool)
    : option bool :=
  match n with
  | O => Some false
  | S n' =>
      match body k with
      | Some true => Some true
      | Some false => for_search n' (k + 1) body
      | None => None
      end
  end.

(** What the function returns after the search: [OVERLAP_PARTIAL] where a
    turn returned, [OVERLAP_NONE] at the end. *)
Definition search_result (found : bool) : MatrixOverlapType :=
  if found then OVERLAP_PARTIAL else OVERLAP_NONE.

(** [m1] and [m2] stand for the indeterminate contents of the two local
    arrays when the function is entered. *)
Definition GetMatrixOverlap (m1 m2 : list Z) (mtx1 mtx2 : Z)
    (msize : MatrixSize) : option MatrixOverlapType :=
  n ← GetMatrixSide msize;
  if mtx1 =? mtx2 then Some OVERLAP_EQUAL
  else
    m1 ← GetMatrixRegs m1 msize mtx1;
    m2 ← GetMatrixRegs m2 msize mtx2;
    found ←
      for_search (Z.to_nat n) 0
        (fun x =>
           for_search (Z.to_nat n) 0
             (fun y =>
                val ← load m1 (y * 4 + x);
                for_search (Z.to_nat n) 0
                  (fun a =>
                     for_search (Z.to_nat n) 0
                       (fun b =>
                          c ← load m2 (a * 4 + b);
                          Some (c =? val)))));
    Some (search_result found).

(** ** Half-precision conversion *)

(** Modelled from the spec: [VFPU_FLOAT16_EXP_MAX] is declared in
    MIPSVFPUUtils.h, a header outside this development; it is the exponent
    field of the half-precision infinities and NaNs, 31. *)
Definition VFPU_FLOAT16_EXP_MAX : Z := 0x1f.

(** Modelled from the spec: [VFPU_SH_FLOAT16_SIGN] is declared in
    MIPSVFPUUtils.h, a header outside this development; it is the position
    of the sign bit of a half-precision value. *)
Definition VFPU_SH_FLOAT16_SIGN : Z := 15.

(** Modelled from the spec: [VFPU_SH_FLOAT16_EXP] is declared in
    MIPSVFPUUtils.h, a header outside this development; it is the position
    of the exponent field of a half-precision value. *)
Definition VFPU_SH_FLOAT16_EXP : Z := 10.

(** Modelled from the spec: [VFPU_MASK_FLOAT16_SIGN] is declared in
    MIPSVFPUUtils.h, a header outside this development; it is the mask of
    the one-bit sign field once shifted down. *)
Definition VFPU_MASK_FLOAT16_SIGN : Z := 0x1.

(** Modelled from the spec: [VFPU_MASK_FLOAT16_EXP] is declared in
    MIPSVFPUUtils.h, a header outside this development; it is the mask of
    the five-bit exponent field once shifted down. *)
Definition VFPU_MASK_FLOAT16_EXP : Z := 0x1f.

(** Modelled from the spec: [VFPU_MASK_FLOAT16_FRAC] is declared in
    MIPSVFPUUtils.h, a header outside this development; it is the mask of
    the ten-bit fraction field. *)
Definition VFPU_MASK_FLOAT16_FRAC : Z := 0x3ff.

(** The loop [do { fraction <<= 1; exponent--; } while (!(fraction &
    (VFPU_MASK_FLOAT16_FRAC + 1)))] on an [unsigned int] fraction and an
    [int] exponent; [fuel] bounds the number of turns, and running out of it
    is [None]. *)
Fixpoint normalize_half (fuel : nat) (fraction exponent : Z)
    : option (Z * Z) :=
  match fuel with
  | O => None
  | S fuel' =>
      let fraction := u32 (Z.shiftl fraction 1) in
      let exponent := exponent - 1 in
      if negb (nz (Z.land fraction (VFPU_MASK_FLOAT16_FRAC + 1)))
      then normalize_half fuel' fraction exponent
      else Some (fraction, exponent)
  end.

(** [l] is an [unsigned short]; the result is the bit pattern of the float
    returned. *)
Definition Float16ToFloat32 (fuel : nat) (l : Z) : option Z :=
  let float16 := l in
  let sign :=
    Z.land (Z.shiftr float16 VFPU_SH_FLOAT16_SIGN) VFPU_MASK_FLOAT16_SIGN in
  let exponent :=
    Z.land (Z.shiftr float16 VFPU_SH_FLOAT16_EXP) VFPU_MASK_FLOAT16_EXP in
  let fraction := Z.land float16 VFPU_MASK_FLOAT16_FRAC in
  if exponent =? VFPU_FLOAT16_EXP_MAX then
    Some (u32 (Z.lor (Z.lor (u32 (Z.shiftl sign 31)) (Z.shiftl 255 23))
                 fraction))
  else if (exponent =? 0) && (fraction =? 0) then
    Some (if sign =? 1 then Kernel.float_neg_zero else Kernel.float_zero)
  else
    '(fraction, exponent) ←
      (if exponent =? 0 then
         '(fraction, exponent) ← normalize_half fuel fraction exponent;
         Some (Z.land fraction VFPU_MASK_FLOAT16_FRAC, exponent)
       else Some (fraction, exponent));
    Some (u32 (Z.lor (Z.lor (u32 (Z.shiftl sign 31))
                        (Z.shiftl (exponent + 112) 23))
                 (u32 (Z.shiftl fraction 13)))).

(** The fields of a half-precision pattern, and the pattern the conversion
    yields written with them: for a subnormal input the exponent field of
    the result is 102 plus the position of the highest set fraction bit. *)
Definition half_sign (l : Z) : Z := l / 2 ^ 15.
Definition half_exp (l : Z) : Z := (l / 2 ^ 10) mod 2 ^ 5.
Definition half_frac (l : Z) : Z := l mod 2 ^ 10.

Definition half_converted (l : Z) : Z :=
  let s := half_sign l in
  let e := half_exp l in
  let f := half_frac l in
  if e =? 31 then s * 2 ^ 31 + 255 * 2 ^ 23 + f
  else if (e =? 0) && (f =? 0) then s * 2 ^ 31
  else if e =? 0 then
    s * 2 ^ 31 + (102 + Z.log2 f) * 2 ^ 23 +
    (f * 2 ^ (10 - Z.log2 f) - 2 ^ 10) * 2 ^ 13
  else s * 2 ^ 31 + (e + 112) * 2 ^ 23 + f * 2 ^ 13.

(** The magnitude of a finite single-precision pattern as a multiple of
    2^-149, and the magnitude that the half-precision format itself gives a
    finite pattern, in the same unit. *)
Definition single_magnitude (x : Z) : Z :=
  let e := (x / 2 ^ 23) mod 2 ^ 8 in
  let m := x mod 2 ^ 23 in
  if e =? 0 then m else (2 ^ 23 + m) * 2 ^ (e - 1).

Definition half_magnitude (l : Z) : Z :=
  let e := half_exp l in
  let f := half_frac l in
  if e =? 0 then f * 2 ^ 125 else (2 ^ 10 + f) * 2 ^ (e + 124).

(** ** vfpu_sincos *)

Module SinCos.
Import Kernel.

Section Platform.

(** The platform calls [(float)sin((double)x * M_PI_2)] and
    [(float)cos((double)x * M_PI_2)], from the bits of [x] to the bits of
    the result, and the call [sincos(angle, &d_sine, &d_cosine)] that the
    Linux build makes instead, with both results converted to float; where
    the build makes the two separate calls, [sincos_pi_2 x] is the pair
    [(sin_pi_2 x, cos_pi_2 x)]. *)
Variables sin_pi_2 cos_pi_2 : Z -> Z.
Variable sincos_pi_2 : Z -> Z * Z.

(** The two results [s] and [c], as a pair. *)
Definition vfpu_sincos (a : Z) : Z * Z :=
  let val := a in
  let k := s32 (get_uexp val) in
  if k =? 255 then
    let val := Z.lor (Z.land val 0xFF800001) 1 in
    (val, Z.land val 0x7F800001)
  else if k <? PRECISION_EXP_THRESHOLD then
    (Z.land val 0x80000000, float_one)
  else
    let '(negate, mantissa, k) := reduce_turns val k in
    if (k <=? 0) || (mantissa =? 0) then
      let val := Z.land val 0x80000000 in
      let val := if negate then u32 (Z.lxor val 0x80000000) else val in
      (val, if negate then float_neg_one else float_one)
    else
      let val := reduced_bits val k mantissa in
      let '(i_sine, i_cosine) :=
        if float_eq val float_one then
          (if negate then float_neg_one else float_one,
           if negate then float_zero else float_neg_zero)
        else if float_eq val float_neg_one then
          (if negate then float_one else float_neg_one,
           if negate then float_zero else float_neg_zero)
        else if negate then
          (sin_pi_2 (float_neg val), float_neg (cos_pi_2 val))
        else sincos_pi_2 val in
      (Z.land i_sine 0xFFFFFFFC, Z.land i_cosine 0xFFFFFFFC).

End Platform.

End SinCos.
(** * Proofs *)

(** * Bit fields as quotients and remainders *)

Lemma land_pow2 (x n : Z) :
  0 <= n -> Z.land x (2 ^ n) = 2 ^ n * ((x / 2 ^ n) mod 2).
Proof.
  intros Hn. rewrite <- Z.testbit_spec' by assumption.
  apply Z.bits_inj'. intros m Hm.
  rewrite Z.land_spec, Z.pow2_bits_eqb by assumption.
  destruct (Z.testbit x n) eqn:E; cbn [Z.b2z].
  - rewrite Z.mul_1_r, Z.pow2_bits_eqb by assumption.
    destruct (Z.eqb_spec n m) as [<-|]; [now rewrite E | apply andb_false_r].
  - rewrite Z.mul_0_r, Z.bits_0.
    destruct (Z.eqb_spec n m) as [<-|]; [now rewrite E | apply andb_false_r].
Qed.

Lemma land_1 (x : Z) : Z.land x 1 = x mod 2.
Proof. exact (Z.land_ones x 1 ltac:(lia)). Qed.

Lemma land_3 (x : Z) : Z.land x 3 = x mod 4.
Proof. exact (Z.land_ones x 2 ltac:(lia)). Qed.

Lemma land_7 (x : Z) : Z.land x 7 = x mod 8.
Proof. exact (Z.land_ones x 3 ltac:(lia)). Qed.

Lemma land_2 (x : Z) : Z.land x 2 = 2 * ((x / 2) mod 2).
Proof. exact (land_pow2 x 1 ltac:(lia)). Qed.

Lemma shiftr_2 (x : Z) : Z.shiftr x 2 = x / 4.
Proof. exact (Z.shiftr_div_pow2 x 2 ltac:(lia)). Qed.

Lemma shiftr_5 (x : Z) : Z.shiftr x 5 = x / 32.
Proof. exact (Z.shiftr_div_pow2 x 5 ltac:(lia)). Qed.

Lemma shiftr_6 (x : Z) : Z.shiftr x 6 = x / 64.
Proof. exact (Z.shiftr_div_pow2 x 6 ltac:(lia)). Qed.

Lemma lxor_32 (x : Z) : Z.lxor x 32 = x + 32 - 64 * ((x / 32) mod 2).
Proof.
  pose proof (Z.add_lxor_2land x 32) as H.
  pose proof (land_pow2 x 5 ltac:(lia)) as E.
  change (2 ^ 5) with 32 in E. lia.
Qed.

(** Turns the bit fields of a register code into linear arithmetic. *)
Ltac fields :=
  rewrite ?lxor_32, ?shiftr_2, ?shiftr_5, ?shiftr_6,
          ?land_1, ?land_2, ?land_3, ?land_7 in *.

Ltac fields_lia := fields; Z.div_mod_to_equations; lia.

Lemma u8_small (x : Z) : 0 <= x < 256 -> u8 x = x.
Proof. intros H. unfold u8. apply Z.mod_small. lia. Qed.

Lemma nz_cases (x : Z) : (nz x = true /\ x <> 0) \/ (nz x = false /\ x = 0).
Proof. unfold nz. destruct (Z.eqb_spec x 0); cbn; auto. Qed.

(** * Arrays and loops *)

Lemma store_spec (a : list Z) (i x : Z) :
  0 <= i < Z.of_nat (length a) ->
  exists a', store a i x = Some a' /\ length a' = length a /\
    forall p, load a' p = if decide (p = i) then Some x else load a p.
Proof.
  intros Hi. unfold store. rewrite decide_True by assumption.
  eexists. split; [reflexivity|]. split; [apply length_insert|].
  intros p. unfold load. destruct (decide (p = i)) as [->|Hne].
  - rewrite decide_True by lia. apply list_lookup_insert_eq. lia.
  - destruct (decide (0 <= p)); [|reflexivity].
    apply list_lookup_insert_ne. lia.
Qed.

Lemma load_is_Some (a : list Z) (i : Z) :
  0 <= i < Z.of_nat (length a) -> is_Some (load a i).
Proof.
  intros H. unfold load. rewrite decide_True by lia.
  apply lookup_lt_is_Some. lia.
Qed.

Lemma set_v_spec (st : MIPSState) (p x : Z) :
  0 <= p < Z.of_nat (length (v st)) ->
  exists st', set_v st p x = Some st' /\
    writeMask st' = writeMask st /\ length (v st') = length (v st) /\
    forall q, load (v st') q = if decide (q = p) then Some x else load (v st) q.
Proof.
  intros Hp. unfold set_v.
  destruct (store_spec (v st) p x Hp) as (a' & -> & Hlen & Hget).
  eexists. split; [reflexivity|]. cbn. auto.
Qed.

(** The rule for a counted loop with an invariant. *)
Lemma for_loop_inv {St : Type} (I : Z -> St -> Prop)
    (body : Z -> St -> option St) (n : nat) (k : Z) (s : St) :
  I k s ->
  (forall i s, k <= i < k + Z.of_nat n -> I i s ->
     exists s', body i s = Some s' /\ I (i + 1) s') ->
  exists s', for_loop n k body s = Some s' /\ I (k + Z.of_nat n) s'.
Proof.
  revert k s. induction n as [|n IH]; intros k s H0 Hstep.
  - exists s. split; [reflexivity|]. now replace (k + Z.of_nat 0) with k by lia.
  - destruct (Hstep k s ltac:(lia) H0) as (s1 & E1 & H1).
    destruct (IH (k + 1) s1 H1) as (s' & E & H').
    { intros i s2 Hi. apply Hstep. lia. }
    exists s'. cbn [for_loop]. rewrite E1. split; [exact E|].
    now replace (k + Z.of_nat (S n)) with (k + 1 + Z.of_nat n) by lia.
Qed.

Lemma for_loop_ext {St : Type} (f g : Z -> St -> option St) (n : nat) (k : Z)
    (s : St) :
  (forall i s, k <= i < k + Z.of_nat n -> f i s = g i s) ->
  for_loop n k f s = for_loop n k g s.
Proof.
  revert k s. induction n as [|n IH]; intros k s H; [reflexivity|].
  cbn [for_loop]. rewrite (H k s) by lia.
  destruct (g k s); [|reflexivity]. apply IH. intros. apply H. lia.
Qed.

Lemma for_loop_app {St : Type} (f : Z -> St -> option St) (n m : nat) (k : Z)
    (s : St) :
  for_loop (n + m) k f s =
  s' ← for_loop n k f s; for_loop m (k + Z.of_nat n) f s'.
Proof.
  revert k s. induction n as [|n IH]; intros k s.
  - replace (k + Z.of_nat 0) with k by lia. reflexivity.
  - cbn [for_loop Nat.add]. destruct (f k s) as [s1|]; [|reflexivity].
    rewrite IH.
    replace (k + 1 + Z.of_nat n) with (k + Z.of_nat (S n)) by lia.
    reflexivity.
Qed.

Lemma for_loop_shift {St : Type} (f : Z -> St -> option St) (n : nat) (k d : Z)
    (s : St) :
  for_loop n (k + d) f s = for_loop n k (fun i => f (i + d)) s.
Proof.
  revert k s. induction n as [|n IH]; intros k s; [reflexivity|].
  cbn [for_loop]. destruct (f (k + d) s); [|reflexivity].
  rewrite <- IH. f_equal. lia.
Qed.

(** Two nested counted loops are one loop over the pairs, in the same
    order. *)
Lemma for_loop_nested {St : Type} (f : Z -> Z -> St -> option St) (n m : nat)
    (s : St) :
  for_loop n 0 (fun i s => for_loop m 0 (f i) s) s =
  for_loop (n * m) 0
    (fun t s => f (t / Z.of_nat m) (t mod Z.of_nat m) s) s.
Proof.
  destruct m as [|m].
  { rewrite Nat.mul_0_r. cbn. clear. revert s. generalize 0.
    induction n; intros; [reflexivity | apply IHn]. }
  set (M := S m).
  assert (forall (n : nat) k s,
    for_loop n (Z.of_nat k) (fun i s => for_loop M 0 (f i) s) s =
    for_loop (n * M) (Z.of_nat k * Z.of_nat M)
      (fun t s => f (t / Z.of_nat M) (t mod Z.of_nat M) s) s) as H.
  { clear n s. induction n as [|n IH]; intros k s; [reflexivity|].
    cbn [for_loop]. change (S n * M)%nat with (M + n * M)%nat.
    rewrite for_loop_app.
    assert (for_loop M (Z.of_nat k * Z.of_nat M)
              (fun t s => f (t / Z.of_nat M) (t mod Z.of_nat M) s) s =
            for_loop M 0 (f (Z.of_nat k)) s) as ->.
    { replace (Z.of_nat k * Z.of_nat M) with (0 + Z.of_nat k * Z.of_nat M)
        by lia.
      rewrite for_loop_shift. apply for_loop_ext. intros i s0 Hi.
      assert (Z.of_nat M > 0) by (subst M; lia).
      rewrite Z.div_add, Z.mod_add by lia.
      rewrite Z.div_small, Z.mod_small by lia. reflexivity. }
    destruct (for_loop M 0 (f (Z.of_nat k)) s) as [s1|]; [|reflexivity].
    cbn. replace (Z.of_nat k + 1) with (Z.of_nat (S k)) by lia.
    rewrite IH. f_equal. lia. }
  exact (H n 0%nat s).
Qed.

(** A loop whose turn [t] writes, when [c t] holds, the value [w t] at
    position [pos t] of a state observed through [get]. *)
Section Scatter.

Context {St : Type} (get : St -> Z -> option Z) (inv : St -> Prop).
Variables (body : Z -> St -> option St) (c : Z -> bool) (pos : Z -> Z)
          (w : Z -> option Z) (n : nat).

Hypothesis body_spec : forall t s, 0 <= t < Z.of_nat n -> inv s ->
  exists s', body t s = Some s' /\ inv s' /\
    forall p, get s' p =
              if decide (c t = true /\ p = pos t) then w t else get s p.

Lemma scatter_loop (s : St) :
  inv s ->
  exists s', for_loop n 0 body s = Some s' /\ inv s' /\
    kept_elsewhere get c pos n s s' /\
    (distinct_positions c pos n -> written_at get c pos w n s').
Proof.
  intros Hs.
  pose (I := fun (i : Z) (s' : St) =>
    inv s' /\
    (forall p, (forall t, 0 <= t < i -> c t = true -> p <> pos t) ->
               get s' p = get s p) /\
    (distinct_positions c pos n ->
     forall t, 0 <= t < i -> c t = true -> get s' (pos t) = w t)).
  destruct (for_loop_inv I body n 0 s) as (s' & E & Hi & Hf & Hw).
  - split; [exact Hs|]. split; [reflexivity | intros; lia].
  - intros i s1 Hi (Hinv & Hf & Hw).
    destruct (body_spec i s1 ltac:(lia) Hinv) as (s2 & E & Hinv2 & Hget).
    exists s2. split; [exact E|]. split; [exact Hinv2|]. split.
    + intros p Hp. rewrite Hget.
      destruct (decide (c i = true /\ p = pos i)) as [[Hci ->]|Hn].
      * exfalso. exact (Hp i ltac:(lia) Hci eq_refl).
      * apply Hf. intros t Ht. apply Hp. lia.
    + intros Hinj t Ht Hc. rewrite Hget.
      destruct (decide (c i = true /\ pos t = pos i)) as [[Hci Hp]|Hn].
      * f_equal. symmetry. apply Hinj; auto; lia.
      * destruct (Z.eq_dec t i) as [->|Hne]; [tauto|].
        apply Hw; [exact Hinj | lia | exact Hc].
  - exists s'. split; [exact E|]. split; [exact Hi|].
    split; [exact Hf | exact Hw].
Qed.

End Scatter.

(** * Addressing *)

Lemma spec_vector_lane_range (N : VectorSize) (code i : Z) :
  0 <= spec_vector_lane N code i < 128.
Proof.
  unfold spec_vector_lane, spec_vector_row.
  match goal with |- context [nz ?t] => destruct (nz t) end; fields_lia.
Qed.

Lemma spec_matrix_lane_range (N : MatrixSize) (code i j : Z) :
  0 <= spec_matrix_lane N code i j < 128.
Proof.
  unfold spec_matrix_lane, spec_matrix_row.
  match goal with |- context [nz ?t] => destruct (nz t) end; fields_lia.
Qed.

Lemma spec_vector_lane_inj (N : VectorSize) (code i j : Z) :
  0 <= i < 4 -> 0 <= j < 4 ->
  spec_vector_lane N code i = spec_vector_lane N code j -> i = j.
Proof.
  intros Hi Hj. unfold spec_vector_lane, spec_vector_row.
  match goal with |- context [nz ?t] => destruct (nz t) end; fields_lia.
Qed.

Lemma spec_matrix_lane_inj (N : MatrixSize) (code i j i' j' : Z) :
  0 <= i < 4 -> 0 <= j < 4 -> 0 <= i' < 4 -> 0 <= j' < 4 ->
  spec_matrix_lane N code i j = spec_matrix_lane N code i' j' ->
  i = i' /\ j = j'.
Proof.
  intros Hi Hj Hi' Hj'. unfold spec_matrix_lane, spec_matrix_row.
  match goal with |- context [nz ?t] => destruct (nz t) end; fields_lia.
Qed.

(** What [GetVectorRegs] leaves in [regs]: the lanes of the elements in the
    first cells, the rest as it was. *)
Lemma GetVectorRegs_spec (regs : list Z) (N : VectorSize) (code : Z) :
  N <> V_Invalid -> length regs = 4%nat ->
  exists regs', GetVectorRegs regs N code = Some regs' /\
    length regs' = 4%nat /\
    (forall i, 0 <= i < GetNumVectorElements N ->
               load regs' i = Some (spec_vector_lane N code i)) /\
    (forall i, ~ 0 <= i < GetNumVectorElements N ->
               load regs' i = load regs i).
Proof.
  intros HN Hlen. unfold GetVectorRegs.
  set (mtx := Z.land (Z.shiftr code 2) 7).
  set (col := Z.land code 3).
  destruct (vector_fields N code (Z.land (Z.shiftr code 5) 1))
    as [[[transpose row] len]|] eqn:EF;
    [|destruct N; [discriminate EF ..|congruence]].
  assert (len = GetNumVectorElements N /\
          forall i, vector_index mtx col row transpose i =
                    spec_vector_lane N code i) as [-> Hidx].
  { destruct N; inversion EF; subst; try congruence;
      (split; [reflexivity|]); intros i;
      unfold vector_index, spec_vector_lane, spec_vector_row; cbv zeta;
      try match goal with |- context [nz ?t] => destruct (nz t) end;
      reflexivity. }
  cbn [mbind option_bind].
  destruct (scatter_loop load (fun r => length r = 4%nat)
              (fun i r => store r i (u8 (vector_index mtx col row transpose i)))
              (fun _ => true) (fun i => i)
              (fun i => Some (spec_vector_lane N code i))
              (Z.to_nat (GetNumVectorElements N))) with (s := regs)
    as (regs' & E & Hl & Hf & Hw).
  - intros t r Ht Hr.
    destruct (store_spec r t (u8 (vector_index mtx col row transpose t)))
      as (r' & E & Hl & Hget).
    { rewrite Hr. destruct N; cbn in Ht |- *; lia. }
    exists r'. split; [exact E|]. split; [congruence|].
    intros p. rewrite Hget, Hidx, u8_small.
    + destruct (decide (p = t)), (decide (true = true /\ p = t)); tauto.
    + pose proof (spec_vector_lane_range N code t). lia.
  - exact Hlen.
  - exists regs'. split; [exact E|]. split; [exact Hl|]. split.
    + intros i Hi. apply Hw; [|lia | reflexivity].
      intros t u _ _ _ _ Heq. exact Heq.
    + intros i Hi. apply Hf. intros t Ht _. lia.
Qed.

Lemma pair_index (m i j : Z) :
  0 < m -> 0 <= j < m ->
  (i * m + j) / m = i /\ (i * m + j) mod m = j.
Proof.
  intros Hm Hj. rewrite Z.add_comm.
  rewrite Z.div_add, Z.mod_add by lia.
  rewrite Z.div_small, Z.mod_small by lia. lia.
Qed.

Lemma side_cases (side : Z) :
  1 <= side <= 4 -> side = 1 \/ side = 2 \/ side = 3 \/ side = 4.
Proof. lia. Qed.

(** The two loops of [GetMatrixRegs], for any contents [f i j] of the
    cells. *)
Lemma matrix_store_loops (f : Z -> Z -> Z) (side : Z) (regs : list Z) :
  1 <= side <= 4 -> length regs = 16%nat ->
  exists regs',
    for_loop (Z.to_nat side) 0
      (fun i regs =>
         for_loop (Z.to_nat side) 0
           (fun j regs => store regs (j * 4 + i) (f i j)) regs)
      regs = Some regs' /\
    length regs' = 16%nat /\
    (forall i j, 0 <= i < side -> 0 <= j < side ->
       load regs' (j * 4 + i) = Some (f i j)) /\
    (forall p,
       (forall i j, 0 <= i < side -> 0 <= j < side -> p <> j * 4 + i) ->
       load regs' p = load regs p).
Proof.
  intros Hside Hlen.
  rewrite (for_loop_nested (fun i j regs => store regs (j * 4 + i) (f i j))).
  rewrite Z2Nat.id by lia.
  destruct (scatter_loop load (fun r => length r = 16%nat)
              (fun t r =>
                 store r (t mod side * 4 + t / side)
                   (f (t / side) (t mod side)))
              (fun _ => true) (fun t => t mod side * 4 + t / side)
              (fun t => Some (f (t / side) (t mod side)))
              (Z.to_nat side * Z.to_nat side)) with (s := regs)
    as (regs' & E & Hl & Hf & Hw).
  - intros t r Ht Hr.
    destruct (store_spec r (t mod side * 4 + t / side)
                (f (t / side) (t mod side))) as (r' & E & Hl & Hget).
    { rewrite Hr.
      destruct (side_cases side Hside) as [-> | [-> | [-> | ->]]];
        cbn in Ht; Z.div_mod_to_equations; lia. }
    exists r'. split; [exact E|]. split; [congruence|].
    intros p. rewrite Hget.
    destruct (decide (p = t mod side * 4 + t / side)),
             (decide (true = true /\ p = t mod side * 4 + t / side)); tauto.
  - exact Hlen.
  - exists regs'. split; [exact E|]. split; [exact Hl|]. split.
    + intros i j Hi Hj.
      destruct (pair_index side i j ltac:(lia) Hj) as [Ei Ej].
      assert (distinct_positions (fun _ => true)
                (fun t => t mod side * 4 + t / side)
                (Z.to_nat side * Z.to_nat side)) as Hinj.
      { intros t u Ht Hu _ _.
        destruct (side_cases side Hside) as [-> | [-> | [-> | ->]]];
          cbn in Ht, Hu; Z.div_mod_to_equations; lia. }
      specialize (Hw Hinj (i * side + j) ltac:(nia) eq_refl).
      cbv beta in Hw. rewrite Ei, Ej in Hw. exact Hw.
    + intros p Hp. apply Hf. intros t Ht _.
      apply Hp;
        destruct (side_cases side Hside) as [-> | [-> | [-> | ->]]];
        cbn in Ht; Z.div_mod_to_equations; lia.
Qed.

(** What [GetMatrixRegs] leaves in [regs]: the lane of the cell (row [i],
    column [j]) in cell [j * 4 + i], the rest as it was. *)
Lemma GetMatrixRegs_spec (regs : list Z) (N : MatrixSize) (code : Z) :
  N <> M_Invalid -> length regs = 16%nat ->
  exists regs', GetMatrixRegs regs N code = Some regs' /\
    length regs' = 16%nat /\
    (forall i j, 0 <= i < GetMatrixSideSafe N -> 0 <= j < GetMatrixSideSafe N ->
       load regs' (j * 4 + i) = Some (spec_matrix_lane N code i j)) /\
    (forall p,
       (forall i j, 0 <= i < GetMatrixSideSafe N ->
                    0 <= j < GetMatrixSideSafe N -> p <> j * 4 + i) ->
       load regs' p = load regs p).
Proof.
  intros HN Hlen. unfold GetMatrixRegs.
  set (mtx := Z.land (Z.shiftr code 2) 7).
  set (col := Z.land code 3).
  destruct (matrix_fields N code (Z.land (Z.shiftr code 5) 1))
    as [[[transpose row] side]|] eqn:EF;
    [|destruct N; [discriminate EF ..|congruence]].
  assert (side = GetMatrixSideSafe N /\
          forall i j, matrix_index mtx col row transpose i j =
                      spec_matrix_lane N code i j) as [-> Hidx].
  { destruct N; inversion EF; subst; try congruence;
      (split; [reflexivity|]); intros i j;
      unfold matrix_index, spec_matrix_lane, spec_matrix_row; cbv zeta;
      try match goal with |- context [nz ?t] => destruct (nz t) end;
      reflexivity. }
  cbn [mbind option_bind].
  assert (1 <= GetMatrixSideSafe N <= 4) as Hside
    by (destruct N; cbn; congruence || lia).
  destruct (matrix_store_loops
              (fun i j => u8 (matrix_index mtx col row transpose i j))
              (GetMatrixSideSafe N) regs Hside Hlen)
    as (regs' & E & Hl & Hw & Hf).
  exists regs'. split; [exact E|]. split; [exact Hl|]. split; [|exact Hf].
  intros i j Hi Hj. rewrite (Hw i j Hi Hj), Hidx, u8_small; [reflexivity|].
  pose proof (spec_matrix_lane_range N code i j). lia.
Qed.

(** C1: for every valid vector size and register code (the 7-bit codes
    among them), GetVectorRegs stores in cell i, for each element i, the lane
    [bank*4 + (transpose ? ((row+i)&3)+col*32 : col+((row+i)&3)*32)] with the
    fields of the code as the specification decodes them; code 0 at Quad
    size gives the lanes 0, 32, 64, 96, and code 0x20 the lanes 0, 1, 2, 3. *)
Theorem C1_GetVectorRegs_lanes (regs : list Z) (N : VectorSize) (code : Z)
    (HN : N <> V_Invalid) (Hregs : length regs = 4%nat) :
  (exists regs', GetVectorRegs regs N code = Some regs' /\
     forall i, 0 <= i < GetNumVectorElements N ->
               load regs' i = Some (spec_vector_lane N code i)) /\
  GetVectorRegs regs V_Quad 0 = Some [0; 32; 64; 96] /\
  GetVectorRegs regs V_Quad 0x20 = Some [0; 1; 2; 3].
Proof.
  split.
  - destruct (GetVectorRegs_spec regs N code HN Hregs)
      as (regs' & E & _ & Hw & _).
    exists regs'. split; [exact E | exact Hw].
  - destruct regs as [|r0 [|r1 [|r2 [|r3 [|]]]]]; try discriminate Hregs.
    split; reflexivity.
Qed.

Lemma C1_GetVectorRegs_lanes_witness :
  (exists regs', GetVectorRegs [7; 7; 7; 7] V_Triple 0x65 = Some regs' /\
     forall i, 0 <= i < GetNumVectorElements V_Triple ->
               load regs' i = Some (spec_vector_lane V_Triple 0x65 i)) /\
  GetVectorRegs [7; 7; 7; 7] V_Quad 0 = Some [0; 32; 64; 96] /\
  GetVectorRegs [7; 7; 7; 7] V_Quad 0x20 = Some [0; 1; 2; 3].
Proof.
  apply (C1_GetVectorRegs_lanes [7; 7; 7; 7] V_Triple 0x65);
    [discriminate | reflexivity].
Defined.

(** C2: for every valid size and every code, GetVectorRegs produces exactly
    as many lane indices as the size has elements (the cells after them keep
    their contents), pairwise distinct and each in [0,128); GetMatrixRegs
    produces one lane index per cell of the side x side grid (every other
    cell keeps its contents), pairwise distinct and each in [0,128). *)
Theorem C2_decoded_lanes_distinct_in_range
    (vregs mregs : list Z) (N : VectorSize) (M : MatrixSize) (code : Z)
    (HN : N <> V_Invalid) (HM : M <> M_Invalid)
    (Hvregs : length vregs = 4%nat) (Hmregs : length mregs = 16%nat) :
  (exists regs', GetVectorRegs vregs N code = Some regs' /\
     length regs' = 4%nat /\
     (forall i, 0 <= i < GetNumVectorElements N ->
        exists x, load regs' i = Some x /\ 0 <= x < 128) /\
     (forall i j, 0 <= i < GetNumVectorElements N ->
        0 <= j < GetNumVectorElements N ->
        load regs' i = load regs' j -> i = j) /\
     (forall i, ~ 0 <= i < GetNumVectorElements N ->
        load regs' i = load vregs i)) /\
  (exists regs', GetMatrixRegs mregs M code = Some regs' /\
     length regs' = 16%nat /\
     (forall i j,
        0 <= i < GetMatrixSideSafe M -> 0 <= j < GetMatrixSideSafe M ->
        exists x, load regs' (j * 4 + i) = Some x /\ 0 <= x < 128) /\
     (forall i j i' j',
        0 <= i < GetMatrixSideSafe M -> 0 <= j < GetMatrixSideSafe M ->
        0 <= i' < GetMatrixSideSafe M -> 0 <= j' < GetMatrixSideSafe M ->
        load regs' (j * 4 + i) = load regs' (j' * 4 + i') ->
        i = i' /\ j = j') /\
     (forall p,
        (forall i j, 0 <= i < GetMatrixSideSafe M ->
                     0 <= j < GetMatrixSideSafe M -> p <> j * 4 + i) ->
        load regs' p = load mregs p)).
Proof.
  split.
  - destruct (GetVectorRegs_spec vregs N code HN Hvregs)
      as (regs' & E & Hl & Hw & Hf).
    assert (GetNumVectorElements N <= 4) by (destruct N; cbn; lia).
    exists regs'. split; [exact E|]. split; [exact Hl|].
    split; [|split; [|exact Hf]].
    + intros i Hi. eexists. split; [apply Hw, Hi|].
      apply spec_vector_lane_range.
    + intros i j Hi Hj. rewrite (Hw i Hi), (Hw j Hj). intros [= Heq].
      apply (spec_vector_lane_inj N code); [lia | lia | exact Heq].
  - destruct (GetMatrixRegs_spec mregs M code HM Hmregs)
      as (regs' & E & Hl & Hw & Hf).
    assert (GetMatrixSideSafe M <= 4) by (destruct M; cbn; lia).
    exists regs'. split; [exact E|]. split; [exact Hl|].
    split; [|split; [|exact Hf]].
    + intros i j Hi Hj. eexists. split; [now apply Hw|].
      apply spec_matrix_lane_range.
    + intros i j i' j' Hi Hj Hi' Hj'.
      rewrite (Hw i j Hi Hj), (Hw i' j' Hi' Hj'). intros [= Heq].
      apply (spec_matrix_lane_inj M code) in Heq; [exact Heq | lia ..].
Qed.

Lemma C2_decoded_lanes_distinct_in_range_witness :
  (exists regs', GetVectorRegs [9; 9; 9; 9] V_Triple 0x47 = Some regs' /\
     length regs' = 4%nat /\
     (forall i, 0 <= i < GetNumVectorElements V_Triple ->
        exists x, load regs' i = Some x /\ 0 <= x < 128) /\
     (forall i j, 0 <= i < GetNumVectorElements V_Triple ->
        0 <= j < GetNumVectorElements V_Triple ->
        load regs' i = load regs' j -> i = j) /\
     (forall i, ~ 0 <= i < GetNumVectorElements V_Triple ->
        load regs' i = load [9; 9; 9; 9] i)) /\
  (exists regs', GetMatrixRegs (repeat 9 16) M_3x3 0x47 = Some regs' /\
     length regs' = 16%nat /\
     (forall i j, 0 <= i < GetMatrixSideSafe M_3x3 ->
        0 <= j < GetMatrixSideSafe M_3x3 ->
        exists x, load regs' (j * 4 + i) = Some x /\ 0 <= x < 128) /\
     (forall i j i' j',
        0 <= i < GetMatrixSideSafe M_3x3 -> 0 <= j < GetMatrixSideSafe M_3x3 ->
        0 <= i' < GetMatrixSideSafe M_3x3 ->
        0 <= j' < GetMatrixSideSafe M_3x3 ->
        load regs' (j * 4 + i) = load regs' (j' * 4 + i') ->
        i = i' /\ j = j') /\
     (forall p,
        (forall i j, 0 <= i < GetMatrixSideSafe M_3x3 ->
                     0 <= j < GetMatrixSideSafe M_3x3 -> p <> j * 4 + i) ->
        load regs' p = load (repeat 9 16) p)).
Proof.
  apply (C2_decoded_lanes_distinct_in_range
           [9; 9; 9; 9] (repeat 9 16) V_Triple M_3x3 0x47);
    [discriminate | discriminate | reflexivity | reflexivity].
Defined.

(** The decode of a whole bank, and of a 2x2 block away from the origin. *)
Example GetMatrixRegs_bank_0 :
  GetMatrixRegs (repeat 0 16) M_4x4 0 =
  Some [0; 32; 64; 96; 1; 33; 65; 97; 2; 34; 66; 98; 3; 35; 67; 99].
Proof. reflexivity. Qed.

Example GetMatrixRegs_block :
  GetMatrixRegs (repeat 0 16) M_2x2 0x46 =
  Some [70; 102; 0; 0; 71; 103; 0; 0; 0; 0; 0; 0; 0; 0; 0; 0].
Proof. reflexivity. Qed.

Example GetVectorRegs_wraps_rows :
  GetVectorRegs [0; 0; 0; 0] V_Triple 0x45 = Some [37; 69; 101; 0].
Proof. reflexivity. Qed.

(** ** The transpose bit *)

Ltac case_nz :=
  repeat match goal with
         | |- context [nz ?t] =>
             let H := fresh "Hnz" in
             destruct (nz_cases t) as [[-> H] | [-> H]]
         | H0 : context [nz ?t] |- _ =>
             let H := fresh "Hnz" in
             destruct (nz_cases t) as [[-> H] | [-> H]]
         end.

(** With the transpose bit toggled, a grid whose column and row fields agree
    is read the other way round. *)
Lemma spec_matrix_lane_toggle (N : MatrixSize) (code i j : Z) :
  N <> M_1x1 -> Z.land code 3 = spec_matrix_row N code ->
  spec_matrix_lane N (Z.lxor code 0x20) i j = spec_matrix_lane N code j i.
Proof.
  intros HN Hrc. unfold spec_matrix_lane, spec_matrix_row in *.
  destruct N; try congruence; case_nz; fields_lia.
Qed.

(** At the origin of the grid the two readings differ as soon as the column
    and row fields do, or the size is 1x1. *)
Lemma spec_matrix_lane_toggle_origin (N : MatrixSize) (code : Z) :
  spec_matrix_lane N (Z.lxor code 0x20) 0 0 = spec_matrix_lane N code 0 0 ->
  N <> M_1x1 /\ Z.land code 3 = spec_matrix_row N code.
Proof.
  unfold spec_matrix_lane, spec_matrix_row.
  destruct N; case_nz; intros H; (split; [try discriminate|]); fields_lia.
Qed.

(** C5, as the code has it: for every valid matrix size and every code,
    toggling the transpose bit (bit 5) maps the decoded index grid to its
    matrix transpose exactly when the size is not 1x1 and the column field of
    the code equals its row field. *)
Theorem C5_transpose_bit_transposes_diagonal_tiles
    (regs : list Z) (M : MatrixSize) (code : Z)
    (HM : M <> M_Invalid) (Hregs : length regs = 16%nat) :
  exists r1 r2,
    GetMatrixRegs regs M (Z.lxor code 0x20) = Some r1 /\
    GetMatrixRegs regs M code = Some r2 /\
    ((forall i j,
        0 <= i < GetMatrixSideSafe M -> 0 <= j < GetMatrixSideSafe M ->
        load r1 (j * 4 + i) = load r2 (i * 4 + j)) <->
     (M <> M_1x1 /\ Z.land code 3 = spec_matrix_row M code)).
Proof.
  destruct (GetMatrixRegs_spec regs M (Z.lxor code 0x20) HM Hregs)
    as (r1 & E1 & _ & Hw1 & _).
  destruct (GetMatrixRegs_spec regs M code HM Hregs)
    as (r2 & E2 & _ & Hw2 & _).
  exists r1, r2. split; [exact E1|]. split; [exact E2|]. split.
  - intros Hall.
    assert (0 <= 0 < GetMatrixSideSafe M) as H0
      by (destruct M; cbn; congruence || lia).
    specialize (Hall 0 0 H0 H0).
    rewrite (Hw1 0 0 H0 H0), (Hw2 0 0 H0 H0) in Hall.
    injection Hall as Hall. now apply spec_matrix_lane_toggle_origin.
  - intros [H1 Hrc] i j Hi Hj.
    rewrite (Hw1 i j Hi Hj), (Hw2 j i Hj Hi). f_equal.
    now apply spec_matrix_lane_toggle.
Qed.

Lemma C5_transpose_bit_transposes_diagonal_tiles_witness :
  exists r1 r2,
    GetMatrixRegs (repeat 0 16) M_3x3 (Z.lxor 0x45 0x20) = Some r1 /\
    GetMatrixRegs (repeat 0 16) M_3x3 0x45 = Some r2 /\
    ((forall i j, 0 <= i < GetMatrixSideSafe M_3x3 ->
        0 <= j < GetMatrixSideSafe M_3x3 ->
        load r1 (j * 4 + i) = load r2 (i * 4 + j)) <->
     (M_3x3 <> M_1x1 /\ Z.land 0x45 3 = spec_matrix_row M_3x3 0x45)).
Proof.
  apply (C5_transpose_bit_transposes_diagonal_tiles (repeat 0 16) M_3x3 0x45);
    [discriminate | reflexivity].
Defined.

(** C5, as stated, fails: at size 2x2 the code 1 (column 1, row 0) decodes
    cell (0,0) to lane 1, and the code 0x21 decodes it to lane 32. *)
Lemma C5_transpose_counterexample :
  exists r1 r2,
    GetMatrixRegs (repeat 0 16) M_2x2 (Z.lxor 1 0x20) = Some r1 /\
    GetMatrixRegs (repeat 0 16) M_2x2 1 = Some r2 /\
    load r1 (0 * 4 + 0) = Some 32 /\
    load r2 (0 * 4 + 0) = Some 1 /\
    load r1 (0 * 4 + 0) <> load r2 (0 * 4 + 0).
Proof.
  eexists _, _. repeat split; try reflexivity. vm_compute. discriminate.
Qed.

(** * Transfer *)

Lemma row_length_spec (size : VectorSize) (reg row len : Z) :
  row_length size reg = Some (row, len) ->
  size <> V_Single /\ size <> V_Invalid /\
  row = spec_vector_row size reg /\ len = GetNumVectorElements size.
Proof. destruct size; intros [= <- <-]; repeat split; discriminate. Qed.

(** The three ways [ReadVector] and [WriteVector] spell the lane of an
    element, for the sizes above Single. *)
Lemma vector_lane_forms (size : VectorSize) (reg i : Z) :
  size <> V_Single ->
  let mtx := Z.land (Z.shiftr reg 2) 7 in
  let col := Z.land reg 3 in
  let transpose := Z.land (Z.shiftr reg 5) 1 in
  let row := spec_vector_row size reg in
  vector_index mtx col row transpose i = spec_vector_lane size reg i /\
  (nz transpose = true ->
   mtx * 4 + col * 32 + Z.land (row + i) 3 = spec_vector_lane size reg i) /\
  (nz transpose = false ->
   mtx * 4 + col + Z.land (row + i) 3 * 32 = spec_vector_lane size reg i).
Proof.
  intros Hs. cbv zeta. unfold vector_index, spec_vector_lane.
  destruct size; try congruence; cbv zeta;
    (split; [destruct (nz _); reflexivity|]);
    split; intros ->; lia.
Qed.

Lemma single_lane (reg : Z) :
  0 <= reg < 128 -> spec_vector_lane V_Single reg 0 = reg.
Proof.
  intros H. unfold spec_vector_lane, spec_vector_row.
  change (nz 0) with false. cbv iota. fields_lia.
Qed.

(** A loop that copies [rd[src i]] to [v[pos i]] on the turns [i] with
    [c i]. *)
Lemma scatter_lanes (rd : list Z) (body : Z -> MIPSState -> option MIPSState)
    (c : Z -> bool) (src pos : Z -> Z) (n : nat) (st : MIPSState) :
  (forall i s, 0 <= i < Z.of_nat n -> writeMask s = writeMask st ->
     body i s =
     if c i then x ← load rd (src i); set_v s (pos i) x else Some s) ->
  (forall i, 0 <= i < Z.of_nat n -> 0 <= pos i < Z.of_nat (length (v st))) ->
  (forall i, 0 <= i < Z.of_nat n -> is_Some (load rd (src i))) ->
  exists st', for_loop n 0 body st = Some st' /\
    writeMask st' = writeMask st /\ length (v st') = length (v st) /\
    kept_elsewhere (fun s => load (v s)) c pos n st st' /\
    (distinct_positions c pos n ->
     written_at (fun s => load (v s)) c pos (fun i => load rd (src i)) n st').
Proof.
  intros Hbody Hpos Hsrc.
  destruct (scatter_loop (fun s => load (v s))
              (fun s => writeMask s = writeMask st /\
                        length (v s) = length (v st))
              body c pos (fun i => load rd (src i)) n) with (s := st)
    as (st' & E & [Hm Hl] & Hf & Hw).
  - intros t s Ht [Hm Hl]. rewrite (Hbody t s Ht Hm).
    destruct (c t) eqn:Ec.
    + destruct (Hsrc t Ht) as [x Ex]. rewrite Ex. cbn [mbind option_bind].
      destruct (set_v_spec s (pos t) x) as (s' & E' & Hm' & Hl' & Hget).
      { rewrite Hl. apply Hpos, Ht. }
      exists s'. split; [exact E'|]. split; [split; congruence|].
      intros p. rewrite Hget.
      destruct (decide (p = pos t)), (decide (true = true /\ p = pos t));
        tauto.
    + exists s. split; [reflexivity|]. split; [tauto|].
      intros p. rewrite decide_False; [reflexivity|].
      intros [? _]. discriminate.
  - split; reflexivity.
  - exists st'. repeat split; assumption.
Qed.

(** The same for two nested loops, the outer one over the columns [j]. *)
Lemma scatter_cells (rd : list Z)
    (f : Z -> Z -> MIPSState -> option MIPSState)
    (c : Z -> Z -> bool) (src pos : Z -> Z -> Z) (side : Z)
    (st : MIPSState) :
  1 <= side <= 4 ->
  (forall i j s, 0 <= i < side -> 0 <= j < side ->
     writeMask s = writeMask st ->
     f j i s =
     if c i j then x ← load rd (src i j); set_v s (pos i j) x else Some s) ->
  (forall i j, 0 <= i < side -> 0 <= j < side ->
     0 <= pos i j < Z.of_nat (length (v st))) ->
  (forall i j, 0 <= i < side -> 0 <= j < side -> is_Some (load rd (src i j))) ->
  exists st',
    for_loop (Z.to_nat side) 0
      (fun j s => for_loop (Z.to_nat side) 0 (f j) s) st = Some st' /\
    writeMask st' = writeMask st /\ length (v st') = length (v st) /\
    (forall p,
       (forall i j, 0 <= i < side -> 0 <= j < side -> c i j = true ->
                    p <> pos i j) ->
       load (v st') p = load (v st) p) /\
    ((forall i j i' j', 0 <= i < side -> 0 <= j < side ->
        0 <= i' < side -> 0 <= j' < side ->
        c i j = true -> c i' j' = true ->
        pos i j = pos i' j' -> i = i' /\ j = j') ->
     forall i j, 0 <= i < side -> 0 <= j < side -> c i j = true ->
       load (v st') (pos i j) = load rd (src i j)).
Proof.
  intros Hside Hbody Hpos Hsrc.
  rewrite (for_loop_nested f). rewrite Z2Nat.id by lia.
  assert (forall t, 0 <= t < Z.of_nat (Z.to_nat side * Z.to_nat side) ->
            0 <= t mod side < side /\ 0 <= t / side < side) as Hdec.
  { intros t Ht.
    destruct (side_cases side Hside) as [-> | [-> | [-> | ->]]];
      cbn in Ht; Z.div_mod_to_equations; lia. }
  destruct (scatter_lanes rd
              (fun t s => f (t / side) (t mod side) s)
              (fun t => c (t mod side) (t / side))
              (fun t => src (t mod side) (t / side))
              (fun t => pos (t mod side) (t / side))
              (Z.to_nat side * Z.to_nat side) st)
    as (st' & E & Hm & Hl & Hf & Hw).
  - intros t s Ht Hs. destruct (Hdec t Ht). now apply Hbody.
  - intros t Ht. destruct (Hdec t Ht). now apply Hpos.
  - intros t Ht. destruct (Hdec t Ht). now apply Hsrc.
  - exists st'. split; [exact E|]. split; [exact Hm|]. split; [exact Hl|].
    split.
    + intros p Hp. apply Hf. intros t Ht Hc.
      destruct (Hdec t Ht). now apply Hp.
    + intros Hinj i j Hi Hj Hc.
      destruct (pair_index side j i ltac:(lia) Hi) as [Ej Ei].
      assert (0 <= j * side + i < Z.of_nat (Z.to_nat side * Z.to_nat side))
        as Ht by (rewrite Nat2Z.inj_mul, Z2Nat.id by lia; nia).
      unfold written_at in Hw.
      specialize (Hw) with (t := j * side + i). cbv beta in Hw.
      rewrite Ei, Ej in Hw. apply Hw; [|exact Ht | exact Hc].
      intros t u Ht' Hu Hct Hcu Heq.
      destruct (Hdec t Ht') as [Ht1 Ht2], (Hdec u Hu) as [Hu1 Hu2].
      destruct (Hinj (t mod side) (t / side) (u mod side) (u / side)
                  Ht1 Ht2 Hu1 Hu2 Hct Hcu Heq) as [Em Ed].
      rewrite (Z.div_mod t side), (Z.div_mod u side) by lia. congruence.
Qed.

Lemma testbit_zero (i : Z) : Z.testbit 0 i = false.
Proof. apply Z.testbit_0_l. Qed.

Section VectorTransfer.

Variable voffset : Z -> Z.
Hypothesis voffset_range : forall L, 0 <= L < 128 -> 0 <= voffset L < 128.

(** A loop that stores the elements whose mask bit is clear in their
    lanes, however its body spells the lane. *)
Lemma vector_write_loop (rd : list Z) (size : VectorSize) (reg : Z)
    (st : MIPSState) (body : Z -> MIPSState -> option MIPSState) :
  length rd = 4%nat -> length (v st) = 128%nat ->
  (forall i s, 0 <= i < GetNumVectorElements size ->
     writeMask s = writeMask st ->
     body i s =
     if negb (Z.testbit (writeMask st) i)
     then x ← load rd i; set_V voffset s (spec_vector_lane size reg i) x
     else Some s) ->
  exists st',
    for_loop (Z.to_nat (GetNumVectorElements size)) 0 body st = Some st' /\
    writeMask st' = writeMask st /\ length (v st') = 128%nat /\
    (forall p,
       (forall i, 0 <= i < GetNumVectorElements size ->
          Z.testbit (writeMask st) i = false ->
          p <> voffset (spec_vector_lane size reg i)) ->
       load (v st') p = load (v st) p) /\
    ((forall L L', 0 <= L < 128 -> 0 <= L' < 128 ->
        voffset L = voffset L' -> L = L') ->
     forall i, 0 <= i < GetNumVectorElements size ->
       Z.testbit (writeMask st) i = false ->
       load (v st') (voffset (spec_vector_lane size reg i)) = load rd i).
Proof.
  intros Hrd Hv Hbody.
  set (n := GetNumVectorElements size) in *.
  assert (0 <= n <= 4) as Hn by (subst n; destruct size; cbn; lia).
  destruct (scatter_lanes rd body
              (fun i => negb (Z.testbit (writeMask st) i)) (fun i => i)
              (fun i => voffset (spec_vector_lane size reg i))
              (Z.to_nat n) st)
    as (st' & E & Hm & Hl & Hf & Hw).
  - intros i s Hi Hs. apply Hbody; [lia | exact Hs].
  - intros i _. rewrite Hv.
    pose proof (voffset_range _ (spec_vector_lane_range size reg i)). lia.
  - intros i Hi. apply load_is_Some. rewrite Hrd. lia.
  - exists st'. split; [exact E|]. split; [exact Hm|].
    split; [congruence|]. split.
    + intros p Hp. apply Hf. intros i Hi Hc.
      apply Hp; [lia | now apply negb_true_iff].
    + intros Hinj i Hi Hbit. apply Hw.
      * intros t u Ht Hu _ _ Heq.
        apply Hinj in Heq; try apply spec_vector_lane_range.
        apply (spec_vector_lane_inj size reg); [lia | lia | exact Heq].
      * lia.
      * now rewrite Hbit.
Qed.

(** What [WriteVector] does to the lane array: the lanes of the elements
    whose mask bit is clear receive the elements, every other cell is
    kept. *)
Lemma WriteVector_spec (rd : list Z) (size : VectorSize) (reg : Z)
    (st : MIPSState) :
  size <> V_Invalid -> 0 <= reg < 128 ->
  length rd = 4%nat -> length (v st) = 128%nat ->
  exists st', WriteVector voffset rd size reg st = Some st' /\
    writeMask st' = writeMask st /\ length (v st') = 128%nat /\
    (forall p,
       (forall i, 0 <= i < GetNumVectorElements size ->
          Z.testbit (writeMask st) i = false ->
          p <> voffset (spec_vector_lane size reg i)) ->
       load (v st') p = load (v st) p) /\
    ((forall L L', 0 <= L < 128 -> 0 <= L' < 128 ->
        voffset L = voffset L' -> L = L') ->
     forall i, 0 <= i < GetNumVectorElements size ->
       Z.testbit (writeMask st) i = false ->
       load (v st') (voffset (spec_vector_lane size reg i)) = load rd i).
Proof.
  intros Hsize Hreg Hrd Hv.
  destruct (decide (size = V_Single)) as [-> | Hns].
  - (* the early return *)
    cbn [WriteVector]. unfold VfpuWriteMaskBit.
    destruct (Z.testbit (writeMask st) 0) eqn:Eb; cbn [negb].
    + exists st. repeat split; try assumption.
      intros _ i Hi Hbit. cbn in Hi. assert (i = 0) as -> by lia. congruence.
    + destruct (load_is_Some rd 0 ltac:(rewrite Hrd; lia)) as [x Ex].
      rewrite Ex. cbn [mbind option_bind]. unfold set_V.
      destruct (set_v_spec st (voffset reg) x) as (st' & E & Hm & Hl & Hget).
      { rewrite Hv. apply voffset_range, Hreg. }
      exists st'. split; [exact E|]. split; [exact Hm|].
      split; [congruence|]. split.
      * intros p Hp. rewrite Hget, decide_False; [reflexivity|].
        specialize (Hp 0 ltac:(cbn; lia) Eb).
        now rewrite single_lane in Hp.
      * intros _ i Hi _. cbn in Hi. assert (i = 0) as -> by lia.
        rewrite single_lane, Hget, decide_True by auto. now rewrite Ex.
  - (* the three loops *)
    pose proof (vector_write_loop rd size reg st) as Hloop.
    pose proof (vector_lane_forms size reg) as Hforms.
    unfold WriteVector, VfpuWriteMask.
    destruct size; try congruence; cbn [row_length mbind option_bind];
      (destruct (Z.eqb_spec (writeMask st) 0) as [E0|_];
       [destruct (nz (Z.land (Z.shiftr reg 5) 1)) eqn:Et|]);
      apply Hloop; try assumption; intros i s Hi Hs;
      destruct (Hforms i Hns) as (F1 & F2 & F3);
      unfold VfpuWriteMaskBit; rewrite ?Hs, ?E0, ?testbit_zero; cbn [negb];
      rewrite <- ?(F2 Et), <- ?(F3 Et), <- ?F1; reflexivity.
Qed.

(** What [ReadVector] leaves in [rd]: the lanes of the elements in the
    first cells, the rest as it was. *)
Lemma ReadVector_spec (rd : list Z) (size : VectorSize) (reg : Z)
    (st : MIPSState) :
  size <> V_Invalid -> 0 <= reg < 128 ->
  length rd = 4%nat -> length (v st) = 128%nat ->
  exists rd', ReadVector voffset rd size reg st = Some rd' /\
    length rd' = 4%nat /\
    (forall i, 0 <= i < GetNumVectorElements size ->
       load rd' i = V voffset st (spec_vector_lane size reg i)) /\
    (forall i, ~ 0 <= i < GetNumVectorElements size ->
       load rd' i = load rd i).
Proof.
  intros Hsize Hreg Hrd Hv.
  assert (forall L, 0 <= L < 128 -> is_Some (V voffset st L)) as HV.
  { intros L HL. apply load_is_Some. rewrite Hv.
    pose proof (voffset_range L HL). lia. }
  destruct (decide (size = V_Single)) as [-> | Hns].
  - (* the early return *)
    cbn [ReadVector].
    destruct (HV reg Hreg) as [x Ex]. rewrite Ex. cbn [mbind option_bind].
    destruct (store_spec rd 0 x ltac:(rewrite Hrd; lia))
      as (rd' & E & Hl & Hget).
    exists rd'. split; [exact E|]. split; [congruence|]. split.
    + intros i Hi. cbn in Hi. assert (i = 0) as -> by lia.
      rewrite single_lane, Hget, decide_True by auto. now rewrite Ex.
    + intros i Hi. cbn in Hi. rewrite Hget, decide_False by lia. reflexivity.
  - (* the two loops *)
    set (n := GetNumVectorElements size).
    assert (0 <= n <= 4) as Hn by (subst n; destruct size; cbn; lia).
    assert (forall body,
      (forall i r, body i r =
         x ← V voffset st (spec_vector_lane size reg i); store r i x) ->
      exists rd', for_loop (Z.to_nat n) 0 body rd = Some rd' /\
        length rd' = 4%nat /\
        (forall i, 0 <= i < n ->
           load rd' i = V voffset st (spec_vector_lane size reg i)) /\
        (forall i, ~ 0 <= i < n -> load rd' i = load rd i)) as Hloop.
    { intros body Hbody.
      destruct (scatter_loop load (fun r => length r = 4%nat) body
                  (fun _ => true) (fun i => i)
                  (fun i => V voffset st (spec_vector_lane size reg i))
                  (Z.to_nat n)) with (s := rd)
        as (rd' & E & Hl & Hf & Hw).
      - intros t r Ht Hr. rewrite Hbody.
        destruct (HV _ (spec_vector_lane_range size reg t)) as [x Ex].
        rewrite Ex. cbn [mbind option_bind].
        destruct (store_spec r t x ltac:(rewrite Hr; lia))
          as (r' & E & Hl & Hget).
        exists r'. split; [exact E|]. split; [congruence|].
        intros p. rewrite Hget.
        destruct (decide (p = t)), (decide (true = true /\ p = t)); tauto.
      - exact Hrd.
      - exists rd'. split; [exact E|]. split; [exact Hl|]. split.
        + intros i Hi. apply Hw; [|lia | reflexivity].
          intros t u _ _ _ _ Heq. exact Heq.
        + intros i Hi. apply Hf. intros t Ht _. lia. }
    pose proof (vector_lane_forms size reg) as Hforms.
    unfold ReadVector. subst n.
    destruct size; try congruence; cbn [row_length mbind option_bind];
      destruct (nz (Z.land (Z.shiftr reg 5) 1)) eqn:Et;
      apply Hloop; intros i r; destruct (Hforms i Hns) as (_ & F2 & F3);
      rewrite <- ?(F2 Et), <- ?(F3 Et); reflexivity.
Qed.

End VectorTransfer.

Lemma matrix_fields_spec (N : MatrixSize) (reg t tr row side : Z) :
  matrix_fields N reg t = Some (tr, row, side) ->
  row = spec_matrix_row N reg /\ side = GetMatrixSideSafe N /\
  tr = match N with M_1x1 => 0 | _ => t end.
Proof. destruct N; intros [= <- <- <-]; repeat split. Qed.

Lemma cell_written_bool (side m i j : Z) :
  negb (j =? side - 1) || negb (Z.testbit m i) =
  negb (cell_skipped side m i j).
Proof. unfold cell_skipped. now rewrite negb_andb. Qed.

(** The per-cell loops of [WriteMatrix]. *)
Lemma write_cells_spec (rd : list Z) (vbase side : Z) (index : Z -> Z -> Z)
    (st : MIPSState) :
  1 <= side <= 4 -> length rd = 16%nat ->
  (forall i j, 0 <= i < side -> 0 <= j < side ->
     0 <= vbase + index i j < Z.of_nat (length (v st))) ->
  (forall i j i' j', 0 <= i < side -> 0 <= j < side ->
     0 <= i' < side -> 0 <= j' < side ->
     index i j = index i' j' -> i = i' /\ j = j') ->
  exists st', write_cells rd vbase side index st = Some st' /\
    writeMask st' = writeMask st /\ length (v st') = length (v st) /\
    (forall p,
       (forall i j, 0 <= i < side -> 0 <= j < side ->
          cell_skipped side (writeMask st) i j = false ->
          p <> vbase + index i j) ->
       load (v st') p = load (v st) p) /\
    (forall i j, 0 <= i < side -> 0 <= j < side ->
       cell_skipped side (writeMask st) i j = false ->
       load (v st') (vbase + index i j) = load rd (j * 4 + i)).
Proof.
  intros Hside Hrd Hpos Hinj. unfold write_cells.
  destruct (scatter_cells rd
              (fun j i st =>
                 if negb (j =? side - 1) || negb (VfpuWriteMaskBit st i)
                 then x ← load rd (j * 4 + i); set_v st (vbase + index i j) x
                 else Some st)
              (fun i j => negb (cell_skipped side (writeMask st) i j))
              (fun i j => j * 4 + i) (fun i j => vbase + index i j)
              side st Hside)
    as (st' & E & Hm & Hl & Hf & Hw).
  - intros i j s Hi Hj Hs. unfold VfpuWriteMaskBit.
    now rewrite Hs, cell_written_bool.
  - exact Hpos.
  - intros i j Hi Hj. apply load_is_Some. rewrite Hrd. lia.
  - exists st'. split; [exact E|]. split; [exact Hm|]. split; [exact Hl|].
    split.
    + intros p Hp. apply Hf. intros i j Hi Hj Hc. apply Hp; try assumption.
      now apply negb_true_iff.
    + intros i j Hi Hj Hc. apply Hw; try assumption.
      * intros a b a' b' Ha Hb Ha' Hb' _ _ Heq.
        apply Hinj; try assumption. lia.
      * now apply negb_true_iff.
Qed.

Lemma matrix_cell_range (N : MatrixSize) (reg i j : Z) :
  0 <= matrix_cell N reg i j < 128.
Proof.
  unfold matrix_cell.
  match goal with |- context [nz ?t] => destruct (nz t) end; fields_lia.
Qed.

Lemma matrix_cell_inj (N : MatrixSize) (reg i j i' j' : Z) :
  0 <= i < 4 -> 0 <= j < 4 -> 0 <= i' < 4 -> 0 <= j' < 4 ->
  matrix_cell N reg i j = matrix_cell N reg i' j' -> i = i' /\ j = j'.
Proof.
  intros Hi Hj Hi' Hj'. unfold matrix_cell.
  match goal with |- context [nz ?t] => destruct (nz t) end; fields_lia.
Qed.

Lemma matrix_cell_bank (N : MatrixSize) (reg i j : Z) :
  matrix_cell N reg i j / 16 = bank_of reg.
Proof.
  unfold matrix_cell, bank_of.
  match goal with |- context [nz ?t] => destruct (nz t) end; fields_lia.
Qed.

(** What [WriteMatrix] does to the lane array: the cells that are not
    skipped receive the elements, every other cell of the array is kept. *)
Lemma WriteMatrix_spec (rd : list Z) (size : MatrixSize) (reg : Z)
    (st : MIPSState) :
  size <> M_Invalid -> length rd = 16%nat -> length (v st) = 128%nat ->
  let side := GetMatrixSideSafe size in
  exists st', WriteMatrix rd size reg st = Some st' /\
    writeMask st' = writeMask st /\ length (v st') = 128%nat /\
    (forall p,
       (forall i j, 0 <= i < side -> 0 <= j < side ->
          cell_skipped side (writeMask st) i j = false ->
          p <> matrix_cell size reg i j) ->
       load (v st') p = load (v st) p) /\
    (forall i j, 0 <= i < side -> 0 <= j < side ->
       cell_skipped side (writeMask st) i j = false ->
       load (v st') (matrix_cell size reg i j) = load rd (j * 4 + i)).
Proof.
  intros Hsize Hrd Hv side. unfold WriteMatrix.
  destruct (matrix_fields size reg (Z.land (Z.shiftr reg 5) 1))
    as [[[tr row] side']|] eqn:EF;
    [|destruct size; [discriminate EF ..|congruence]].
  destruct (matrix_fields_spec _ _ _ _ _ _ EF) as (-> & -> & ->).
  fold side. cbn [mbind option_bind].
  assert (1 <= side <= 4) as Hside
    by (subst side; destruct size; cbn; congruence || lia).
  set (mtx := Z.land (Z.shiftr reg 2) 7).
  set (col := Z.land reg 3).
  set (row := spec_matrix_row size reg).
  set (tr := match size with M_1x1 => 0 | _ => Z.land (Z.shiftr reg 5) 1 end).
  assert (0 <= mtx < 8) as Hmtx by (subst mtx; fields_lia).
  (* the cell of the array, in the words of each branch *)
  assert (forall i j,
    matrix_cell size reg i j =
    mtx * 16 + (if nz tr
                then Z.land (row + i) 3 * 4 + Z.land (col + j) 3
                else Z.land (col + j) 3 * 4 + Z.land (row + i) 3)) as Hcell
    by reflexivity.
  assert (forall index,
    (forall i j, matrix_cell size reg i j = mtx * 16 + index i j) ->
    exists st', write_cells rd (mtx * 16) side index st = Some st' /\
      writeMask st' = writeMask st /\ length (v st') = 128%nat /\
      (forall p,
         (forall i j, 0 <= i < side -> 0 <= j < side ->
            cell_skipped side (writeMask st) i j = false ->
            p <> matrix_cell size reg i j) ->
         load (v st') p = load (v st) p) /\
      (forall i j, 0 <= i < side -> 0 <= j < side ->
         cell_skipped side (writeMask st) i j = false ->
         load (v st') (matrix_cell size reg i j) = load rd (j * 4 + i)))
    as Hgeneral.
  { intros index Hindex.
    destruct (write_cells_spec rd (mtx * 16) side index st Hside Hrd)
      as (st' & E & Hm & Hl & Hf & Hw).
    - intros i j _ _. rewrite <- Hindex, Hv.
      pose proof (matrix_cell_range size reg i j). lia.
    - intros i j i' j' Hi Hj Hi' Hj' Heq.
      apply (matrix_cell_inj size reg); try lia.
      rewrite !Hindex. lia.
    - exists st'. split; [exact E|]. split; [exact Hm|].
      split; [congruence|]. split.
      + intros p Hp. apply Hf. intros i j Hi Hj Hc.
        rewrite <- Hindex. now apply Hp.
      + intros i j Hi Hj Hc. rewrite Hindex. now apply Hw. }
  destruct (nz tr) eqn:Etr.
  - destruct ((side =? 4) && (row =? 0) && (col =? 0) &&
              (VfpuWriteMask st =? 0)) eqn:Efast.
    + (* the 4x4 transpose *)
      apply andb_prop in Efast as [Efast Emask].
      apply andb_prop in Efast as [Efast Ecol].
      apply andb_prop in Efast as [Eside Erow].
      apply Z.eqb_eq in Emask, Ecol, Eside, Erow.
      unfold VfpuWriteMask in Emask.
      destruct (scatter_cells rd
                  (fun j i st =>
                     x ← load rd (j * 4 + i);
                     set_v st (mtx * 16 + (i * 4 + j)) x)
                  (fun i j => true)
                  (fun i j => j * 4 + i) (fun i j => matrix_cell size reg i j)
                  side st Hside)
        as (st' & E & Hm & Hl & Hf & Hw).
      * intros i j s Hi Hj _. rewrite Hcell, Erow, Ecol.
        do 3 f_equal. fields_lia.
      * intros i j _ _. rewrite Hv.
        pose proof (matrix_cell_range size reg i j). lia.
      * intros i j Hi Hj. apply load_is_Some. rewrite Hrd. lia.
      * exists st'. split; [exact E|]. split; [exact Hm|].
        split; [congruence|]. split.
        -- intros p Hp. apply Hf. intros i j Hi Hj _. apply Hp; try assumption.
           unfold cell_skipped. rewrite Emask, testbit_zero. apply andb_false_r.
        -- intros i j Hi Hj _. apply Hw; auto.
           intros a b a' b' Ha Hb Ha' Hb' _ _.
           apply matrix_cell_inj; lia.
    + apply Hgeneral. intros i j. now rewrite Hcell.
  - destruct ((side =? 4) && (row =? 0) && (col =? 0) &&
              (VfpuWriteMask st =? 0)) eqn:Efast.
    + (* the copy of the whole bank *)
      apply andb_prop in Efast as [Efast Emask].
      apply andb_prop in Efast as [Efast Ecol].
      apply andb_prop in Efast as [Eside Erow].
      apply Z.eqb_eq in Emask, Ecol, Eside, Erow.
      unfold VfpuWriteMask in Emask. unfold memcpy_v.
      assert (forall i j, 0 <= i < 4 -> 0 <= j < 4 ->
                matrix_cell size reg i j = mtx * 16 + (j * 4 + i)) as Hk.
      { intros i j Hi Hj. rewrite Hcell, Erow, Ecol. fields_lia. }
      destruct (scatter_lanes rd
                  (fun k st => x ← load rd k; set_v st (mtx * 16 + k) x)
                  (fun _ => true) (fun k => k) (fun k => mtx * 16 + k)
                  16 st)
        as (st' & E & Hm & Hl & Hf & Hw).
      * reflexivity.
      * intros k Hk'. rewrite Hv. lia.
      * intros k Hk'. apply load_is_Some. rewrite Hrd. lia.
      * exists st'. split; [exact E|]. split; [exact Hm|].
        split; [congruence|]. split.
        -- intros p Hp. apply Hf. intros k Hk' _.
           assert (0 <= k mod 4 < 4 /\ 0 <= k / 4 < 4) as [Hi Hj]
             by (Z.div_mod_to_equations; lia).
           specialize (Hp (k mod 4) (k / 4)).
           rewrite Eside, Emask, (Hk _ _ Hi Hj) in Hp.
           replace (k / 4 * 4 + k mod 4) with k in Hp
             by (Z.div_mod_to_equations; lia).
           apply Hp; [exact Hi | exact Hj |].
           unfold cell_skipped. rewrite testbit_zero. apply andb_false_r.
        -- intros i j Hi Hj _. rewrite Hk by lia.
           apply (Hw ltac:(intros a b _ _ _ _; lia) (j * 4 + i));
             [lia | reflexivity].
    + apply Hgeneral. intros i j. now rewrite Hcell.
Qed.

(** ** The standard lane ordering *)

Lemma voffset_std_range (L : Z) : 0 <= L < 128 -> 0 <= voffset_std L < 128.
Proof. intros H. unfold voffset_std. fields_lia. Qed.

Lemma voffset_std_inj (L L' : Z) :
  0 <= L < 128 -> 0 <= L' < 128 -> voffset_std L = voffset_std L' -> L = L'.
Proof. intros H H'. unfold voffset_std. fields_lia. Qed.

Lemma voffset_std_bank (L : Z) :
  0 <= L < 128 ->
  bank_of L * 16 <= voffset_std L < bank_of L * 16 + 16.
Proof. intros H. unfold voffset_std, bank_of. fields_lia. Qed.

(** Under the standard ordering [WriteMatrix] uses, for each cell, the cell
    of the array that holds the lane [GetMatrixRegs] decodes for it. *)
Lemma matrix_cell_voffset_std (N : MatrixSize) (reg i j : Z) :
  matrix_cell N reg i j = voffset_std (spec_matrix_lane N reg i j).
Proof.
  unfold matrix_cell, spec_matrix_lane, voffset_std.
  match goal with |- context [nz ?t] => destruct (nz t) end; fields_lia.
Qed.

Lemma spec_vector_lane_bank (N : VectorSize) (reg i : Z) :
  bank_of (spec_vector_lane N reg i) = bank_of reg.
Proof.
  unfold spec_vector_lane, bank_of.
  match goal with |- context [nz ?t] => destruct (nz t) end; fields_lia.
Qed.

Lemma bank_of_range (L : Z) : 0 <= bank_of L < 8.
Proof. unfold bank_of. fields_lia. Qed.

(** A masked element is not written; a masked row is skipped in the last
    column only. *)
Example WriteVector_masked_lane :
  v <$> WriteVector voffset_std [11; 12; 13; 14] V_Quad 0
          {| v := repeat 0 128; writeMask := 2 |} =
  Some ([11; 0; 13; 14] ++ repeat 0 124).
Proof. reflexivity. Qed.

Example WriteMatrix_masked_row :
  v <$> WriteMatrix [1; 2; 3; 4; 5; 6; 7; 8; 9; 10; 11; 12; 13; 14; 15; 16]
          M_2x2 0 {| v := repeat 0 128; writeMask := 1 |} =
  Some ([1; 2; 0; 0; 0; 6] ++ repeat 0 122).
Proof. reflexivity. Qed.

(** ** The claims on the transfers *)

(** C3: for every valid size, 7-bit code, values and register file, with the
    write mask all clear, WriteVector followed by ReadVector with the same
    size and code returns exactly the written values, and every lane that
    GetVectorRegs does not list for that size and code keeps its value.  The
    table voffset is any one-to-one placement of the 128 lanes in the lane
    array. *)
Theorem C3_WriteVector_ReadVector_round_trip
    (voffset : Z -> Z) (rd out : list Z) (size : VectorSize) (reg : Z)
    (st : MIPSState)
    (Hrange : forall L, 0 <= L < 128 -> 0 <= voffset L < 128)
    (Hinj : forall L L', 0 <= L < 128 -> 0 <= L' < 128 ->
              voffset L = voffset L' -> L = L')
    (Hsize : size <> V_Invalid) (Hreg : 0 <= reg < 128)
    (Hrd : length rd = 4%nat) (Hout : length out = 4%nat)
    (Hv : length (v st) = 128%nat)
    (Hmask : VfpuWriteMask st = 0) :
  exists st' out',
    WriteVector voffset rd size reg st = Some st' /\
    ReadVector voffset out size reg st' = Some out' /\
    (forall i, 0 <= i < GetNumVectorElements size ->
       load out' i = load rd i /\ is_Some (load rd i)) /\
    (forall regs regs' L,
       length regs = 4%nat ->
       GetVectorRegs regs size reg = Some regs' ->
       0 <= L < 128 ->
       (forall i, 0 <= i < GetNumVectorElements size ->
          load regs' i <> Some L) ->
       V voffset st' L = V voffset st L).
Proof.
  destruct (WriteVector_spec voffset Hrange rd size reg st Hsize Hreg Hrd Hv)
    as (st' & EW & Hm & Hl & Hf & Hw).
  destruct (ReadVector_spec voffset Hrange out size reg st' Hsize Hreg Hout Hl)
    as (out' & ER & _ & Hr & _).
  unfold VfpuWriteMask in Hmask.
  assert (GetNumVectorElements size <= 4) by (destruct size; cbn; lia).
  exists st', out'. split; [exact EW|]. split; [exact ER|]. split.
  - intros i Hi. split.
    + rewrite (Hr i Hi). unfold V. apply (Hw Hinj i Hi).
      rewrite Hmask. apply testbit_zero.
    + apply load_is_Some. rewrite Hrd. lia.
  - intros regs regs' L Hregs EG HL Hnot.
    destruct (GetVectorRegs_spec regs size reg Hsize Hregs)
      as (regs'' & EG' & _ & Hlanes & _).
    rewrite EG in EG'. injection EG' as <-.
    unfold V. apply Hf. intros i Hi _ Heq.
    apply Hinj in Heq; [|exact HL | apply spec_vector_lane_range].
    apply (Hnot i Hi). rewrite (Hlanes i Hi). now f_equal.
Qed.

Lemma C3_WriteVector_ReadVector_round_trip_witness :
  exists st' out',
    WriteVector voffset_std [11; 12; 13; 14] V_Triple 0x65
      {| v := repeat 0 128; writeMask := 0 |} = Some st' /\
    ReadVector voffset_std [0; 0; 0; 0] V_Triple 0x65 st' = Some out' /\
    (forall i, 0 <= i < GetNumVectorElements V_Triple ->
       load out' i = load [11; 12; 13; 14] i /\
       is_Some (load [11; 12; 13; 14] i)) /\
    (forall regs regs' L,
       length regs = 4%nat ->
       GetVectorRegs regs V_Triple 0x65 = Some regs' ->
       0 <= L < 128 ->
       (forall i, 0 <= i < GetNumVectorElements V_Triple ->
          load regs' i <> Some L) ->
       V voffset_std st' L =
       V voffset_std {| v := repeat 0 128; writeMask := 0 |} L).
Proof.
  apply (C3_WriteVector_ReadVector_round_trip voffset_std
           [11; 12; 13; 14] [0; 0; 0; 0] V_Triple 0x65
           {| v := repeat 0 128; writeMask := 0 |}
           voffset_std_range voffset_std_inj);
    [discriminate | lia | reflexivity | reflexivity | reflexivity
    | reflexivity].
Defined.

(** C4: for every matrix size, code and write mask, WriteMatrix writes the
    cell (row i, column j) if and only if NOT (j == side-1 and mask bit i
    set): such a cell of the last column keeps its value, every other cell
    receives its element, and so does every cell with j < side-1 whatever
    the mask. *)
Theorem C4_WriteMatrix_mask_last_column
    (rd : list Z) (size : MatrixSize) (reg : Z) (st : MIPSState)
    (Hsize : size <> M_Invalid)
    (Hrd : length rd = 16%nat) (Hv : length (v st) = 128%nat) :
  exists st', WriteMatrix rd size reg st = Some st' /\
    (forall i j,
       0 <= i < GetMatrixSideSafe size -> 0 <= j < GetMatrixSideSafe size ->
       is_Some (load rd (j * 4 + i)) /\
       load (v st') (matrix_cell size reg i j) =
       if (j =? GetMatrixSideSafe size - 1) && VfpuWriteMaskBit st i
       then load (v st) (matrix_cell size reg i j)
       else load rd (j * 4 + i)) /\
    (forall i j,
       0 <= i < GetMatrixSideSafe size ->
       0 <= j < GetMatrixSideSafe size - 1 ->
       load (v st') (matrix_cell size reg i j) = load rd (j * 4 + i)).
Proof.
  destruct (WriteMatrix_spec rd size reg st Hsize Hrd Hv)
    as (st' & E & _ & _ & Hf & Hw).
  set (side := GetMatrixSideSafe size) in *.
  assert (1 <= side <= 4) as Hside
    by (subst side; destruct size; cbn; congruence || lia).
  assert (forall i j, 0 <= i < side -> 0 <= j < side ->
    load (v st') (matrix_cell size reg i j) =
    if (j =? side - 1) && VfpuWriteMaskBit st i
    then load (v st) (matrix_cell size reg i j)
    else load rd (j * 4 + i)) as Hcells.
  { intros i j Hi Hj. change ((j =? side - 1) && VfpuWriteMaskBit st i)
      with (cell_skipped side (writeMask st) i j).
    destruct (cell_skipped side (writeMask st) i j) eqn:Es.
    - apply Hf. intros i' j' Hi' Hj' Es' Heq.
      apply matrix_cell_inj in Heq as [-> ->]; [congruence | lia ..].
    - now apply Hw. }
  exists st'. split; [exact E|]. split.
  - intros i j Hi Hj. split; [|now apply Hcells].
    apply load_is_Some. rewrite Hrd. lia.
  - intros i j Hi Hj. rewrite Hcells by lia.
    destruct (Z.eqb_spec j (side - 1)); [lia | reflexivity].
Qed.

Lemma C4_WriteMatrix_mask_last_column_witness :
  exists st',
    WriteMatrix (repeat 5 16) M_3x3 0x65
      {| v := repeat 0 128; writeMask := 5 |} = Some st' /\
    (forall i j,
       0 <= i < GetMatrixSideSafe M_3x3 -> 0 <= j < GetMatrixSideSafe M_3x3 ->
       is_Some (load (repeat 5 16) (j * 4 + i)) /\
       load (v st') (matrix_cell M_3x3 0x65 i j) =
       if (j =? GetMatrixSideSafe M_3x3 - 1) &&
          VfpuWriteMaskBit {| v := repeat 0 128; writeMask := 5 |} i
       then load (v {| v := repeat 0 128; writeMask := 5 |})
              (matrix_cell M_3x3 0x65 i j)
       else load (repeat 5 16) (j * 4 + i)) /\
    (forall i j,
       0 <= i < GetMatrixSideSafe M_3x3 ->
       0 <= j < GetMatrixSideSafe M_3x3 - 1 ->
       load (v st') (matrix_cell M_3x3 0x65 i j) =
       load (repeat 5 16) (j * 4 + i)).
Proof.
  apply (C4_WriteMatrix_mask_last_column (repeat 5 16) M_3x3 0x65
           {| v := repeat 0 128; writeMask := 5 |});
    [discriminate | reflexivity | reflexivity].
Defined.

(** C10: for every size, 7-bit code, write mask, source values and register
    file, WriteVector and WriteMatrix change cells of the lane array only
    within the bank that bits 2-4 of the code select: every cell of the other
    seven banks, and so every lane of them, keeps its value.  Both functions
    return a state unless the size is the invalid one.  The table voffset is
    any placement that keeps the lanes of a bank within the 16 cells of that
    bank. *)
Theorem C10_writes_stay_in_bank
    (voffset : Z -> Z) (rdv rdm : list Z) (size : VectorSize)
    (msize : MatrixSize) (reg : Z) (st : MIPSState)
    (Hbank : forall L, 0 <= L < 128 ->
               bank_of L * 16 <= voffset L < bank_of L * 16 + 16)
    (Hreg : 0 <= reg < 128)
    (Hrdv : length rdv = 4%nat) (Hrdm : length rdm = 16%nat)
    (Hv : length (v st) = 128%nat) :
  match WriteVector voffset rdv size reg st with
  | Some st' =>
      (forall p, 0 <= p < 128 -> p / 16 <> bank_of reg ->
         load (v st') p = load (v st) p) /\
      (forall L, 0 <= L < 128 -> bank_of L <> bank_of reg ->
         V voffset st' L = V voffset st L)
  | None => size = V_Invalid
  end /\
  match WriteMatrix rdm msize reg st with
  | Some st' =>
      (forall p, 0 <= p < 128 -> p / 16 <> bank_of reg ->
         load (v st') p = load (v st) p) /\
      (forall L, 0 <= L < 128 -> bank_of L <> bank_of reg ->
         V voffset st' L = V voffset st L)
  | None => msize = M_Invalid
  end.
Proof.
  assert (forall L, 0 <= L < 128 -> 0 <= voffset L < 128) as Hrange.
  { intros L HL. pose proof (Hbank L HL). pose proof (bank_of_range L). lia. }
  assert (forall L, 0 <= L < 128 -> voffset L / 16 = bank_of L) as Hdiv.
  { intros L HL. pose proof (Hbank L HL). Z.div_mod_to_equations. lia. }
  assert (forall st' : MIPSState,
    (forall p, 0 <= p < 128 -> p / 16 <> bank_of reg ->
       load (v st') p = load (v st) p) ->
    forall L, 0 <= L < 128 -> bank_of L <> bank_of reg ->
      V voffset st' L = V voffset st L) as Hlanes.
  { intros st' Hcells L HL Hne. unfold V.
    apply Hcells; [now apply Hrange | now rewrite Hdiv]. }
  split.
  - destruct (decide (size = V_Invalid)) as [-> | Hsize]; [reflexivity|].
    destruct (WriteVector_spec voffset Hrange rdv size reg st
                Hsize Hreg Hrdv Hv) as (st' & -> & _ & _ & Hf & _).
    assert (forall p, 0 <= p < 128 -> p / 16 <> bank_of reg ->
              load (v st') p = load (v st) p) as Hcells.
    { intros p Hp Hne. apply Hf. intros i Hi _ ->. apply Hne.
      rewrite Hdiv by apply spec_vector_lane_range.
      apply spec_vector_lane_bank. }
    split; [exact Hcells | now apply Hlanes].
  - destruct (decide (msize = M_Invalid)) as [-> | Hsize]; [reflexivity|].
    destruct (WriteMatrix_spec rdm msize reg st Hsize Hrdm Hv)
      as (st' & -> & _ & _ & Hf & _).
    assert (forall p, 0 <= p < 128 -> p / 16 <> bank_of reg ->
              load (v st') p = load (v st) p) as Hcells.
    { intros p Hp Hne. apply Hf. intros i j Hi Hj _ ->. apply Hne.
      apply matrix_cell_bank. }
    split; [exact Hcells | now apply Hlanes].
Qed.

Lemma C10_writes_stay_in_bank_witness :
  match WriteVector voffset_std [11; 12; 13; 14] V_Quad 0x24
          {| v := repeat 0 128; writeMask := 2 |} with
  | Some st' =>
      (forall p, 0 <= p < 128 -> p / 16 <> bank_of 0x24 ->
         load (v st') p = load (repeat 0 128) p) /\
      (forall L, 0 <= L < 128 -> bank_of L <> bank_of 0x24 ->
         V voffset_std st' L =
         V voffset_std {| v := repeat 0 128; writeMask := 2 |} L)
  | None => V_Quad = V_Invalid
  end /\
  match WriteMatrix (repeat 5 16) M_4x4 0x24
          {| v := repeat 0 128; writeMask := 2 |} with
  | Some st' =>
      (forall p, 0 <= p < 128 -> p / 16 <> bank_of 0x24 ->
         load (v st') p = load (repeat 0 128) p) /\
      (forall L, 0 <= L < 128 -> bank_of L <> bank_of 0x24 ->
         V voffset_std st' L =
         V voffset_std {| v := repeat 0 128; writeMask := 2 |} L)
  | None => M_4x4 = M_Invalid
  end.
Proof.
  apply (C10_writes_stay_in_bank voffset_std [11; 12; 13; 14] (repeat 5 16)
           V_Quad M_4x4 0x24 {| v := repeat 0 128; writeMask := 2 |}
           voffset_std_bank);
    [lia | reflexivity | reflexivity | reflexivity].
Defined.

(** * Overlap *)

(** C6: for every code and valid size, GetVectorOverlap of a vector with
    itself is the number of elements of the size; and for two codes whose
    bank fields (bits 2-4) differ it is 0, whatever the sizes. *)
Theorem C6_GetVectorOverlap_self_and_banks
    (regs1 regs2 : list Z) (code code1 code2 : Z)
    (size size1 size2 : VectorSize)
    (Hsize : size <> V_Invalid)
    (Hregs1 : length regs1 = 4%nat) (Hregs2 : length regs2 = 4%nat)
    (Hbanks : bank_of code1 <> bank_of code2) :
  GetVectorOverlap regs1 regs2 code size code size =
    Some (GetNumVectorElements size) /\
  GetVectorOverlap regs1 regs2 code1 size1 code2 size2 = Some 0.
Proof.
  split.
  - unfold GetVectorOverlap. rewrite Z.eqb_refl. cbn [negb].
    destruct (GetVectorRegs_spec regs1 size code Hsize Hregs1)
      as (r1 & -> & _ & Hw1 & _).
    destruct (GetVectorRegs_spec regs2 size code Hsize Hregs2)
      as (r2 & -> & _ & Hw2 & _).
    cbn [mbind option_bind].
    set (n := GetNumVectorElements size) in *.
    assert (0 <= n <= 4) as Hn by (subst n; destruct size; cbn; lia).
    destruct (for_loop_inv (fun i count => count = i)
                (fun i count =>
                   for_loop (Z.to_nat n) 0
                     (fun j count =>
                        a ← load r1 i; b ← load r2 j;
                        Some (if a =? b then count + 1 else count)) count)
                (Z.to_nat n) 0 0 eq_refl) as (count & E & Hcount).
    + intros i c Hi ->.
      destruct (for_loop_inv
                  (fun j count => count = i + (if i <? j then 1 else 0))
                  (fun j count =>
                     a ← load r1 i; b ← load r2 j;
                     Some (if a =? b then count + 1 else count))
                  (Z.to_nat n) 0 i) as (c' & E' & Hc').
      * destruct (Z.ltb_spec i 0); lia.
      * intros j c Hj ->. rewrite (Hw1 i), (Hw2 j) by lia.
        cbn [mbind option_bind]. eexists. split; [reflexivity|].
        destruct (Z.eqb_spec (spec_vector_lane size code i)
                    (spec_vector_lane size code j)) as [Heq|Hne].
        -- apply spec_vector_lane_inj in Heq; [|lia ..]. subst j.
           destruct (Z.ltb_spec i i), (Z.ltb_spec i (i + 1)); lia.
        -- assert (i <> j) by congruence.
           destruct (Z.ltb_spec i j), (Z.ltb_spec i (j + 1)); lia.
      * exists c'. split; [exact E'|]. subst c'.
        destruct (Z.ltb_spec i (0 + Z.of_nat (Z.to_nat n))); lia.
    + rewrite E. f_equal. lia.
  - unfold GetVectorOverlap. unfold bank_of in Hbanks.
    destruct (Z.eqb_spec (Z.land (Z.shiftr code1 2) 7)
                (Z.land (Z.shiftr code2 2) 7)); [contradiction | reflexivity].
Qed.

Lemma C6_GetVectorOverlap_self_and_banks_witness :
  GetVectorOverlap [1; 2; 3; 4] [5; 6; 7; 8] 0x24 V_Triple 0x24 V_Triple =
    Some (GetNumVectorElements V_Triple) /\
  GetVectorOverlap [1; 2; 3; 4] [5; 6; 7; 8] 0x24 V_Quad 0x28 V_Pair = Some 0.
Proof.
  apply (C6_GetVectorOverlap_self_and_banks
           [1; 2; 3; 4] [5; 6; 7; 8] 0x24 0x24 0x28 V_Triple V_Quad V_Pair);
    [discriminate | reflexivity | reflexivity | vm_compute; discriminate].
Defined.

(** * Arithmetic kernel *)

Module KernelFacts.
Import Kernel.

Lemma get_uexp_div (x : Z) : get_uexp x = (x / 2 ^ 23) mod 2 ^ 8.
Proof.
unfold get_uexp. rewrite Z.shiftr_div_pow2 by lia.
exact (Z.land_ones _ 8 ltac:(lia)).
Qed.

Lemma land_low31 (x : Z) : Z.land x 0x7FFFFFFF = x mod 2 ^ 31.
Proof. exact (Z.land_ones x 31 ltac:(lia)). Qed.

Lemma land_low23 (x : Z) : Z.land x 0x007FFFFF = x mod 2 ^ 23.
Proof. exact (Z.land_ones x 23 ltac:(lia)). Qed.

Lemma land_disjoint_masks (x m1 m2 : Z) :
Z.land m1 m2 = 0 ->
Z.land x (Z.lor m1 m2) = Z.land x m1 + Z.land x m2.
Proof.
intros H. rewrite Z.land_lor_distr_r, <- Z.add_lor_land.
replace (Z.land (Z.land x m1) (Z.land x m2)) with 0; [lia|].
symmetry. apply Z.bits_inj'. intros n Hn.
assert (Z.testbit (Z.land m1 m2) n = false) as Hb
  by (rewrite H; apply Z.bits_0).
rewrite Z.land_spec in Hb. rewrite !Z.land_spec, Z.bits_0.
destruct (Z.testbit x n), (Z.testbit m1 n), (Z.testbit m2 n);
  cbn in *; congruence.
Qed.

Lemma land_exp_field (x : Z) :
Z.land x 0x7F800000 = x mod 2 ^ 31 - x mod 2 ^ 23.
Proof.
pose proof (land_disjoint_masks x 0x7F800000 0x007FFFFF eq_refl) as H.
change (Z.lor 0x7F800000 0x007FFFFF) with 0x7FFFFFFF in H.
rewrite land_low31, land_low23 in H. lia.
Qed.

Lemma land_sign_bit (x : Z) :
Z.land x 0x80000000 = 2 ^ 31 * ((x / 2 ^ 31) mod 2).
Proof. exact (land_pow2 x 31 ltac:(lia)). Qed.

Lemma land_sign_exp (x : Z) :
Z.land x 0xFF800000 = Z.land x 0x80000000 + Z.land x 0x7F800000.
Proof. exact (land_disjoint_masks x 0x80000000 0x7F800000 eq_refl). Qed.

Lemma is_inf_fields (x : Z) :
is_inf x = true -> get_uexp x = 255 /\ Z.land x 0x007FFFFF = 0.
Proof.
unfold is_inf. rewrite land_low31, get_uexp_div, land_low23.
intros H%Z.eqb_eq. Z.div_mod_to_equations. lia.
Qed.

Lemma is_zero_fields (x : Z) : is_zero x = true -> get_uexp x = 0.
Proof.
unfold is_zero. rewrite land_low31, get_uexp_div.
intros H%Z.eqb_eq. Z.div_mod_to_equations. lia.
Qed.

(** ** The dot product *)

Lemma dot_lane_end_Return (src0 src1 i mant e : Z) (s : dot_state) (r : Z) :
dot_lane_end src0 src1 i mant e s = Return r -> r = vfpu_nan.
Proof.
unfold dot_lane_end.
destruct (e >=? 255); [|discriminate].
destruct (negb _ && negb _); [|discriminate]. congruence.
Qed.

(** Whatever the first loop returns early is the canonical NaN. *)
Lemma dot_lane_Return (a b : list Z) (i : Z) (s : dot_state) (r : Z) :
dot_lane a b i s = Return r -> r = vfpu_nan.
Proof.
unfold dot_lane.
repeat match goal with
       | |- context [if ?c then _ else _] => destruct c
       end;
  try congruence; apply dot_lane_end_Return.
Qed.

(** A lane that pairs an infinity with a zero leaves the loop at once. *)
Lemma dot_lane_inf_zero (a b : list Z) (i : Z) (s : dot_state) :
(is_inf (elem a i) = true /\ is_zero (elem b i) = true) \/
(is_zero (elem a i) = true /\ is_inf (elem b i) = true) ->
dot_lane a b i s = Return vfpu_nan.
Proof.
intros [[Ha Hb] | [Ha Hb]]; unfold dot_lane.
- destruct (is_inf_fields _ Ha) as [Ea Ma].
  rewrite Ea, (is_zero_fields _ Hb), Ma. reflexivity.
- destruct (is_inf_fields _ Hb) as [Eb Mb].
  rewrite Eb, (is_zero_fields _ Ha), Mb. reflexivity.
Qed.

Lemma for_flow_Return {St : Type} (body : Z -> St -> flow St) (c : Z)
  (n : nat) (k : Z) (s : St) :
(forall i s r, body i s = Return r -> r = c) ->
(exists i, k <= i < k + Z.of_nat n /\ forall s, body i s = Return c) ->
for_flow n k body s = Return c.
Proof.
intros Hret. revert k s. induction n as [|n IH]; intros k s (i & Hi & Hb).
- lia.
- cbn [for_flow]. destruct (body k s) as [s1|r] eqn:E.
  + apply IH. exists i. split; [|exact Hb].
    destruct (Z.eq_dec i k) as [->|]; [|lia].
    rewrite Hb in E. discriminate E.
  + f_equal. exact (Hret k s r E).
Qed.

(** C7: vfpu_dot of (1,0,0,0) with itself is exactly 1.0; and whenever some
  lane pairs an infinity with a zero, in either order, vfpu_dot returns
  the bit pattern 0x7F800001. *)
Theorem C7_vfpu_dot_unit_and_inf_times_zero
  (a b : list Z) (i : Z)
  (Ha : length a = 4%nat) (Hb : length b = 4%nat) (Hi : 0 <= i < 4)
  (Hpair : (is_inf (elem a i) = true /\ is_zero (elem b i) = true) \/
           (is_zero (elem a i) = true /\ is_inf (elem b i) = true)) :
vfpu_dot [float_one; float_zero; float_zero; float_zero]
         [float_one; float_zero; float_zero; float_zero] = float_one /\
vfpu_dot a b = 0x7F800001.
Proof.
split; [reflexivity|].
unfold vfpu_dot.
rewrite (for_flow_Return (dot_lane a b) vfpu_nan); [reflexivity | |].
- intros j s r. apply dot_lane_Return.
- exists i. split; [lia|]. intros s. now apply dot_lane_inf_zero.
Qed.

Lemma C7_vfpu_dot_unit_and_inf_times_zero_witness :
vfpu_dot [float_one; float_zero; float_zero; float_zero]
         [float_one; float_zero; float_zero; float_zero] = float_one /\
vfpu_dot [float_one; float_two; float_neg_zero; float_four]
         [float_two; float_one; 0xFF800000; float_half] = 0x7F800001.
Proof.
apply (C7_vfpu_dot_unit_and_inf_times_zero
         [float_one; float_two; float_neg_zero; float_four]
         [float_two; float_one; 0xFF800000; float_half] 2);
  [reflexivity | reflexivity | lia | right; split; reflexivity].
Defined.

Example vfpu_dot_1_2_squared :
  vfpu_dot [float_one; float_two; float_zero; float_zero]
           [float_one; float_two; float_zero; float_zero] = 0x40A00000.
Proof. reflexivity. Qed.

Example vfpu_dot_inf_minus_inf :
  vfpu_dot [float_inf; float_inf; float_zero; float_zero]
           [float_one; float_neg_one; float_zero; float_zero] = vfpu_nan.
Proof. reflexivity. Qed.

(** ** Square roots *)

Example vfpu_sqrt_9 : vfpu_sqrt 0x41100000 = 0x40400000.
Proof. reflexivity. Qed.

Example vfpu_sqrt_inf : vfpu_sqrt float_inf = float_inf.
Proof. reflexivity. Qed.

Example vfpu_rsqrt_zero : vfpu_rsqrt float_neg_zero = 0xFF800000.
Proof. reflexivity. Qed.

(** A set sign bit and a non-zero exponent field lead [vfpu_sqrt] to its
  third test. *)
Lemma vfpu_sqrt_negative (a : Z) :
sign_set a = true -> exp_field_zero a = false ->
vfpu_sqrt a = 0x7F800001.
Proof.
unfold sign_set, exp_field_zero, vfpu_sqrt. intros Hs He.
rewrite He, Hs.
destruct (Z.eqb_spec (Z.land a 0xff800000) 0x7f800000) as [E|]; [|reflexivity].
exfalso. revert Hs E. unfold nz.
rewrite land_sign_exp, land_sign_bit, land_exp_field.
destruct (Z.eqb_spec (2 ^ 31 * ((a / 2 ^ 31) mod 2)) 0); [discriminate|].
intros _. Z.div_mod_to_equations. lia.
Qed.

Lemma vfpu_sqrt_exp_field_zero (a : Z) :
exp_field_zero a = true -> vfpu_sqrt a = float_zero.
Proof.
unfold exp_field_zero, vfpu_sqrt. intros He. rewrite He.
destruct (Z.eqb_spec (Z.land a 0xff800000) 0x7f800000) as [E|]; [|reflexivity].
exfalso. apply Z.eqb_eq in He. revert E.
rewrite land_sign_exp, He, land_sign_bit.
Z.div_mod_to_equations. lia.
Qed.

(** C8, as the code has it: vfpu_sqrt(4.0) is exactly 2.0; vfpu_sqrt of any
  input with the sign bit set and a non-zero exponent field (-1.0 among
  them) is the canonical NaN 0x7F800001; vfpu_sqrt of any input with a zero
  exponent field, which covers +0, -0 and the subnormals of either sign,
  is +0; and vfpu_rsqrt(4.0) is exactly 0.5, whose two low mantissa bits
  are clear. *)
Theorem C8_vfpu_sqrt_rsqrt_special_cases (a z : Z)
  (Hsign : sign_set a = true) (Hexp : exp_field_zero a = false)
  (Hz : exp_field_zero z = true) :
vfpu_sqrt float_four = float_two /\
vfpu_sqrt a = 0x7F800001 /\
vfpu_sqrt float_neg_one = 0x7F800001 /\
vfpu_sqrt z = float_zero /\
vfpu_sqrt float_zero = float_zero /\
vfpu_sqrt float_neg_zero = float_zero /\
vfpu_rsqrt float_four = float_half /\
Z.land float_half 3 = 0.
Proof.
repeat split; try reflexivity.
- now apply vfpu_sqrt_negative.
- now apply vfpu_sqrt_exp_field_zero.
Qed.

Lemma C8_vfpu_sqrt_rsqrt_special_cases_witness :
vfpu_sqrt float_four = float_two /\
vfpu_sqrt 0xC1100000 = 0x7F800001 /\
vfpu_sqrt float_neg_one = 0x7F800001 /\
vfpu_sqrt 0x80000001 = float_zero /\
vfpu_sqrt float_zero = float_zero /\
vfpu_sqrt float_neg_zero = float_zero /\
vfpu_rsqrt float_four = float_half /\
Z.land float_half 3 = 0.
Proof.
apply (C8_vfpu_sqrt_rsqrt_special_cases 0xC1100000 0x80000001);
  reflexivity.
Defined.

(** C8, as stated, fails: the smallest negative subnormal 0x80000001 is
  negative and not a zero, and vfpu_sqrt returns +0 for it, not the
  canonical NaN. *)
Lemma C8_vfpu_sqrt_negative_subnormal_counterexample :
sign_set 0x80000001 = true /\
is_zero 0x80000001 = false /\
vfpu_sqrt 0x80000001 = float_zero /\
vfpu_sqrt 0x80000001 <> 0x7F800001.
Proof. repeat split; try reflexivity. vm_compute. discriminate. Qed.

(** ** Sine and cosine *)

(** C9: vfpu_sin(0.0) == 0.0, vfpu_cos(0.0) == 1.0 and vfpu_sin(2.0) == 0.0
  as floats, and this whatever the platform sine and cosine are: each of
  the three values is returned before any library call, so vfpu_sin(2.0)
  is an exact zero and not a library-approximate value near zero.  On bit
  patterns the first two are 0x00000000 and 0x3F800000; vfpu_sin(2.0) is
  the zero with the sign bit set, 0x80000000, which compares equal to
  0.0: subtracting the 2 flips the sign, and the early return for a zero
  mantissa keeps only the sign. *)
Theorem C9_vfpu_sin_cos_exact_values (sin_pi_2 cos_pi_2 : Z -> Z) :
float_eq (vfpu_sin sin_pi_2 float_zero) float_zero = true /\
float_eq (vfpu_cos cos_pi_2 float_zero) float_one = true /\
float_eq (vfpu_sin sin_pi_2 float_two) float_zero = true /\
vfpu_sin sin_pi_2 float_zero = float_zero /\
vfpu_cos cos_pi_2 float_zero = float_one /\
vfpu_sin sin_pi_2 float_two = float_neg_zero.
Proof. repeat split; reflexivity. Qed.

End KernelFacts.

(** * Further properties of the addressing functions *)

(** ** Sizes *)

Lemma size_bits_cases (op : Z) :
  size_bits op = Z.land (Z.shiftr op 7) 1 + 2 * Z.land (Z.shiftr op 15) 1 /\
  (size_bits op = 0 \/ size_bits op = 1 \/ size_bits op = 2 \/
   size_bits op = 3).
Proof.
  unfold size_bits. rewrite Z.shiftl_mul_pow2 by lia. change (2 ^ 1) with 2.
  rewrite !land_1. split; [lia|]. Z.div_mod_to_equations. lia.
Qed.

(** X1: the size decoded from an instruction word is never the invalid one,
    for vectors and for matrices alike, so that GetVecSize and GetMtxSize
    never reach their assertion; the two decodes agree, and the number of
    elements is 1 + bit 7 + 2 * bit 15 of the word. *)
Theorem X1_opcode_size_never_invalid (op : Z) :
  GetVecSize op = Some (GetVecSizeSafe op) /\
  GetMtxSize op = Some (GetMtxSizeSafe op) /\
  GetVecSizeSafe op <> V_Invalid /\
  GetMtxSizeSafe op <> M_Invalid /\
  GetVectorSizeSafe (GetMtxSizeSafe op) = GetVecSizeSafe op /\
  GetNumVectorElements (GetVecSizeSafe op) =
    1 + Z.land (Z.shiftr op 7) 1 + 2 * Z.land (Z.shiftr op 15) 1 /\
  GetMatrixSideSafe (GetMtxSizeSafe op) =
    GetNumVectorElements (GetVecSizeSafe op).
Proof.
  destruct (size_bits_cases op) as [Eb Hb].
  unfold GetVecSize, GetMtxSize, GetVecSizeSafe, GetMtxSizeSafe.
  destruct Hb as [H | [H | [H | H]]]; rewrite H in *; cbn;
    repeat split; try discriminate; try reflexivity; lia.
Qed.

(** X2: halving and doubling a vector size undo each other wherever they
    are defined, and halve and double the number of elements; Single has no
    half, Quad no double, and Triple neither, which is where GetHalfVectorSize
    and GetDoubleVectorSize reach their assertion. *)
Theorem X2_half_double_vector_size (sz : VectorSize) :
  (GetHalfVectorSizeSafe sz <> V_Invalid ->
   GetDoubleVectorSizeSafe (GetHalfVectorSizeSafe sz) = sz /\
   2 * GetNumVectorElements (GetHalfVectorSizeSafe sz) =
     GetNumVectorElements sz) /\
  (GetDoubleVectorSizeSafe sz <> V_Invalid ->
   GetHalfVectorSizeSafe (GetDoubleVectorSizeSafe sz) = sz /\
   GetNumVectorElements (GetDoubleVectorSizeSafe sz) =
     2 * GetNumVectorElements sz) /\
  (GetHalfVectorSize sz = None <->
   sz = V_Single \/ sz = V_Triple \/ sz = V_Invalid) /\
  (GetDoubleVectorSize sz = None <->
   sz = V_Triple \/ sz = V_Quad \/ sz = V_Invalid).
Proof.
  destruct sz; compute; intuition congruence.
Qed.

(** X3: the conversions between vector and matrix sizes are inverse to each
    other, keep the number of elements as the side, and their asserting
    variants fail on the invalid size only. *)
Theorem X3_vector_matrix_size_conversions (vs : VectorSize) (ms : MatrixSize) :
  GetVectorSizeSafe (GetMatrixSizeSafe vs) = vs /\
  GetMatrixSizeSafe (GetVectorSizeSafe ms) = ms /\
  MatrixVectorSizeSafe ms = GetVectorSizeSafe ms /\
  GetMatrixSideSafe (GetMatrixSizeSafe vs) = GetNumVectorElements vs /\
  GetNumVectorElements (GetVectorSizeSafe ms) = GetMatrixSideSafe ms /\
  (GetMatrixSize vs = None <-> vs = V_Invalid) /\
  (GetVectorSize ms = None <-> ms = M_Invalid) /\
  (MatrixVectorSize ms = None <-> ms = M_Invalid) /\
  (GetMatrixSide ms = None <-> ms = M_Invalid).
Proof.
  destruct vs, ms; compute; intuition congruence.
Qed.

(** ** Names of matrices and of their columns and rows *)

Lemma land_28 (x : Z) : Z.land x 0x1C = 4 * ((x / 4) mod 8).
Proof.
  pose proof (KernelFacts.land_disjoint_masks x 0x1C 3 eq_refl) as H.
  change (Z.lor 0x1C 3) with (Z.ones 5) in H.
  rewrite Z.land_ones, land_3 in H by lia. change (2 ^ 5) with 32 in H.
  Z.div_mod_to_equations. lia.
Qed.

Lemma code_has_fields (code : Z) :
  code_fields code ((code / 32) mod 2) ((code / 64) mod 2)
    ((code / 4) mod 8) (code mod 4).
Proof.
  split; rewrite ?land_28; fields; try reflexivity;
    Z.div_mod_to_equations; lia.
Qed.

Lemma name_has_fields (t r m s : Z) :
  0 <= t < 2 -> 0 <= r < 2 -> 0 <= m < 8 -> 0 <= s < 4 ->
  code_fields (32 * t + 64 * r + 4 * m + s) t r m s.
Proof.
  intros Ht Hr Hm Hs.
  pose proof (code_has_fields (32 * t + 64 * r + 4 * m + s)) as F.
  replace ((32 * t + 64 * r + 4 * m + s) / 32 mod 2) with t in F
    by (Z.div_mod_to_equations; lia).
  replace ((32 * t + 64 * r + 4 * m + s) / 64 mod 2) with r in F
    by (Z.div_mod_to_equations; lia).
  replace ((32 * t + 64 * r + 4 * m + s) / 4 mod 8) with m in F
    by (Z.div_mod_to_equations; lia).
  replace ((32 * t + 64 * r + 4 * m + s) mod 4) with s in F
    by (Z.div_mod_to_equations; lia).
  exact F.
Qed.

(** The fields of a name, put together with [|], add up. *)
Lemma lor_name_fields (t r m s : Z) :
  0 <= t < 2 -> 0 <= r < 2 -> 0 <= m < 8 -> 0 <= s < 4 ->
  Z.lor (Z.lor (Z.lor (Z.shiftl t 5) (Z.shiftl (2 * r) 5)) (4 * m)) s =
  32 * t + 64 * r + 4 * m + s.
Proof.
  intros Ht Hr Hm Hs.
  assert (t = 0 \/ t = 1) as [-> | ->] by lia;
    assert (r = 0 \/ r = 1) as [-> | ->] by lia;
    assert (m = 0 \/ m = 1 \/ m = 2 \/ m = 3 \/ m = 4 \/ m = 5 \/ m = 6 \/
            m = 7) as [-> | [-> | [-> | [-> | [-> | [-> | [-> | ->]]]]]]]
      by lia;
    assert (s = 0 \/ s = 1 \/ s = 2 \/ s = 3) as [-> | [-> | [-> | ->]]]
      by lia;
    reflexivity.
Qed.

Lemma GetMatrixSide_valid (msize : MatrixSize) :
  msize <> M_Invalid -> GetMatrixSide msize = Some (GetMatrixSideSafe msize).
Proof. destruct msize; intros H; try reflexivity. congruence. Qed.

Lemma side_range (msize : MatrixSize) :
  msize <> M_Invalid -> 1 <= GetMatrixSideSafe msize <= 4.
Proof. destruct msize; cbn; intros H; try lia. congruence. Qed.

(** A loop that fills the first cells of an array with [f i]. *)
Lemma fill_loop (f : Z -> Z) (n : Z) (a : list Z) :
  0 <= n <= Z.of_nat (length a) ->
  exists a', for_loop (Z.to_nat n) 0 (fun i a => store a i (f i)) a = Some a' /\
    length a' = length a /\
    (forall i, 0 <= i < n -> load a' i = Some (f i)) /\
    (forall i, ~ 0 <= i < n -> load a' i = load a i).
Proof.
  intros Hn.
  destruct (scatter_loop load (fun r => length r = length a)
              (fun i r => store r i (f i))
              (fun _ => true) (fun i => i) (fun i => Some (f i))
              (Z.to_nat n)) with (s := a) as (a' & E & Hl & Hf & Hw).
  - intros t r Ht Hr.
    destruct (store_spec r t (f t)) as (r' & E & Hl & Hget); [rewrite Hr; lia|].
    exists r'. split; [exact E|]. split; [congruence|].
    intros p. rewrite Hget.
    destruct (decide (p = t)), (decide (true = true /\ p = t)); tauto.
  - reflexivity.
  - exists a'. split; [exact E|]. split; [exact Hl|]. split.
    + intros i Hi. apply Hw; [|lia | reflexivity].
      intros t u _ _ _ _ Heq. exact Heq.
    + intros i Hi. apply Hf. intros t Ht _. lia.
Qed.

(** The lane of an element or of a cell, from the fields of the code. *)
Lemma vector_lane_of_fields (N : VectorSize) (code t r m c i : Z) :
  code_fields code t r m c ->
  spec_vector_lane N code i =
  m * 4 +
  match N with
  | V_Single => c + Z.land (t + 2 * r + i) 3 * 32
  | V_Triple =>
      if nz t then Z.land (r + i) 3 + c * 32 else c + Z.land (r + i) 3 * 32
  | _ =>
      if nz t then Z.land (2 * r + i) 3 + c * 32
      else c + Z.land (2 * r + i) 3 * 32
  end.
Proof.
  intros F. unfold spec_vector_lane, spec_vector_row.
  rewrite (cf_bank _ _ _ _ _ F), (cf_col _ _ _ _ _ F).
  destruct N; rewrite ?(cf_transpose _ _ _ _ _ F), ?(cf_row2 _ _ _ _ _ F),
    ?(cf_row1 _ _ _ _ _ F), ?(cf_row3 _ _ _ _ _ F); reflexivity.
Qed.

Lemma matrix_lane_of_fields (N : MatrixSize) (code t r m c i j : Z) :
  code_fields code t r m c ->
  spec_matrix_lane N code i j =
  m * 4 +
  match N with
  | M_1x1 => Z.land (c + j) 3 + Z.land (t + 2 * r + i) 3 * 32
  | M_3x3 =>
      if nz t then Z.land (r + i) 3 + Z.land (c + j) 3 * 32
      else Z.land (c + j) 3 + Z.land (r + i) 3 * 32
  | _ =>
      if nz t then Z.land (2 * r + i) 3 + Z.land (c + j) 3 * 32
      else Z.land (c + j) 3 + Z.land (2 * r + i) 3 * 32
  end.
Proof.
  intros F. unfold spec_matrix_lane, spec_matrix_row.
  rewrite (cf_bank _ _ _ _ _ F), (cf_col _ _ _ _ _ F).
  destruct N; rewrite ?(cf_transpose _ _ _ _ _ F), ?(cf_row2 _ _ _ _ _ F),
    ?(cf_row1 _ _ _ _ _ F), ?(cf_row3 _ _ _ _ _ F); reflexivity.
Qed.

(** Settles an equation between lanes given by small fields. *)
Ltac small_fields :=
  repeat match goal with
         | |- context [nz ?t] =>
             let H := fresh "Hnz" in
             destruct (nz_cases t) as [[-> H] | [-> H]]
         end;
  rewrite ?land_3; Z.div_mod_to_equations; lia.

(** The names [GetMatrixColumns] produces, as sums of their fields. *)
Lemma GetMatrixColumns_spec (code t r m c : Z) (msize : MatrixSize)
    (vecs : list Z) :
  code_fields code t r m c ->
  msize <> M_Invalid -> length vecs = 4%nat ->
  c + GetMatrixSideSafe msize <= 4 ->
  exists vecs', GetMatrixColumns code msize vecs = Some vecs' /\
    length vecs' = 4%nat /\
    forall j, 0 <= j < GetMatrixSideSafe msize ->
      load vecs' j = Some (32 * t + 64 * r + 4 * m + (j + c)).
Proof.
  intros F Hsize Hvecs Hcol. unfold GetMatrixColumns.
  rewrite (GetMatrixSide_valid msize Hsize). cbn [mbind option_bind].
  pose proof (side_range msize Hsize) as Hside.
  destruct F.
  match goal with
  | |- context [for_loop _ 0 (fun i vecs => store vecs i (@?f i))] =>
      destruct (fill_loop f (GetMatrixSideSafe msize) vecs)
        as (vecs' & E & Hl & Hw & _); [rewrite Hvecs; lia|]
  end.
  exists vecs'. split; [exact E|]. split; [congruence|].
  intros j Hj. rewrite (Hw j Hj). f_equal. cbv beta.
  rewrite cf_transpose0, cf_row4, cf_bank_bits0, cf_col0.
  rewrite lor_name_fields by lia. apply u8_small. lia.
Qed.

(** The lanes of the [j]-th column name are the lanes of column [j]. *)
Lemma column_name_lane (code t r m c i j : Z) (msize : MatrixSize) :
  code_fields code t r m c -> msize <> M_Invalid ->
  c + GetMatrixSideSafe msize <= 4 ->
  0 <= i < GetMatrixSideSafe msize -> 0 <= j < GetMatrixSideSafe msize ->
  spec_vector_lane (GetVectorSizeSafe msize)
    (32 * t + 64 * r + 4 * m + (j + c)) i =
  spec_matrix_lane msize code i j.
Proof.
  intros F Hsize Hcol Hi Hj.
  pose proof (cf_t _ _ _ _ _ F). pose proof (cf_r _ _ _ _ _ F).
  pose proof (cf_m _ _ _ _ _ F). pose proof (cf_c _ _ _ _ _ F).
  rewrite (matrix_lane_of_fields msize code t r m c i j F).
  rewrite (vector_lane_of_fields (GetVectorSizeSafe msize) _ t r m (j + c) i)
    by (apply name_has_fields; lia).
  destruct msize; try congruence;
    cbn [GetVectorSizeSafe GetMatrixSideSafe] in *; small_fields.
Qed.

(** X4: for every valid matrix size and every code whose column field leaves
    room for the side (column + side <= 4), GetMatrixColumns names the
    columns of the matrix: decoded by GetVectorRegs at the matching vector
    size, the j-th name gives exactly the lanes that GetMatrixRegs decodes
    for column j, in the same order. *)
Theorem X4_GetMatrixColumns_names_the_columns
    (code : Z) (msize : MatrixSize) (vecs vregs mregs : list Z)
    (Hsize : msize <> M_Invalid)
    (Hvecs : length vecs = 4%nat) (Hvregs : length vregs = 4%nat)
    (Hmregs : length mregs = 16%nat)
    (Hcol : Z.land code 3 + GetMatrixSideSafe msize <= 4) :
  exists vecs' mregs',
    GetMatrixColumns code msize vecs = Some vecs' /\
    GetMatrixRegs mregs msize code = Some mregs' /\
    forall j, 0 <= j < GetMatrixSideSafe msize ->
      exists name vregs',
        load vecs' j = Some name /\
        GetVectorRegs vregs (GetVectorSizeSafe msize) name = Some vregs' /\
        forall i, 0 <= i < GetMatrixSideSafe msize ->
          load vregs' i = load mregs' (j * 4 + i).
Proof.
  pose proof (code_has_fields code) as F.
  set (t := (code / 32) mod 2) in F. set (r := (code / 64) mod 2) in F.
  set (m := (code / 4) mod 8) in F. set (c := code mod 4) in F.
  rewrite (cf_col _ _ _ _ _ F) in Hcol.
  destruct (GetMatrixColumns_spec code t r m c msize vecs F Hsize Hvecs Hcol)
    as (vecs' & EC & _ & Hnames).
  destruct (GetMatrixRegs_spec mregs msize code Hsize Hmregs)
    as (mregs' & EM & _ & Hcells & _).
  exists vecs', mregs'. split; [exact EC|]. split; [exact EM|].
  intros j Hj. rewrite (Hnames j Hj).
  assert (GetVectorSizeSafe msize <> V_Invalid) as Hvs
    by (destruct msize; cbn; congruence).
  destruct (GetVectorRegs_spec vregs (GetVectorSizeSafe msize)
              (32 * t + 64 * r + 4 * m + (j + c)) Hvs Hvregs)
    as (vregs' & EV & _ & Hlanes & _).
  eexists _, vregs'. split; [reflexivity|]. split; [exact EV|].
  intros i Hi.
  assert (GetNumVectorElements (GetVectorSizeSafe msize) =
          GetMatrixSideSafe msize) as En by (destruct msize; reflexivity).
  rewrite Hlanes by (rewrite En; exact Hi).
  rewrite (Hcells i j Hi Hj). f_equal.
  now apply (column_name_lane code t r m c i j msize).
Qed.

Lemma X4_GetMatrixColumns_names_the_columns_witness :
  exists vecs' mregs',
    GetMatrixColumns 0x45 M_3x3 [0; 0; 0; 0] = Some vecs' /\
    GetMatrixRegs (repeat 0 16) M_3x3 0x45 = Some mregs' /\
    forall j, 0 <= j < GetMatrixSideSafe M_3x3 ->
      exists name vregs',
        load vecs' j = Some name /\
        GetVectorRegs [0; 0; 0; 0] (GetVectorSizeSafe M_3x3) name =
          Some vregs' /\
        forall i, 0 <= i < GetMatrixSideSafe M_3x3 ->
          load vregs' i = load mregs' (j * 4 + i).
Proof.
  apply (X4_GetMatrixColumns_names_the_columns 0x45 M_3x3
           [0; 0; 0; 0] [0; 0; 0; 0] (repeat 0 16));
    [discriminate | reflexivity | reflexivity | reflexivity
    | vm_compute; discriminate].
Defined.

(** The names [GetMatrixRows] produces, as sums of their fields. *)
Lemma GetMatrixRows_spec (code t r m c : Z) (msize : MatrixSize)
    (vecs : list Z) :
  code_fields code t r m c ->
  msize <> M_Invalid -> length vecs = 4%nat ->
  (if msize is M_3x3 then r else 2 * r) + GetMatrixSideSafe msize <= 4 ->
  exists vecs', GetMatrixRows code msize vecs = Some vecs' /\
    length vecs' = 4%nat /\
    forall i, 0 <= i < GetMatrixSideSafe msize ->
      load vecs' i =
      Some (32 * (1 - t) + 64 * (if nz c then 1 else 0) + 4 * m +
            (i + if msize is M_3x3 then r else 2 * r)).
Proof.
  intros F Hsize Hvecs Hrow. unfold GetMatrixRows.
  rewrite (GetMatrixSide_valid msize Hsize). cbn [mbind option_bind].
  pose proof (side_range msize Hsize) as Hside.
  destruct F.
  match goal with
  | |- context [for_loop _ 0 (fun i vecs => store vecs i (@?f i))] =>
      destruct (fill_loop f (GetMatrixSideSafe msize) vecs)
        as (vecs' & E & Hl & Hw & _); [rewrite Hvecs; lia|]
  end.
  exists vecs'. split; [exact E|]. split; [congruence|].
  intros i Hi. rewrite (Hw i Hi). f_equal. cbv beta.
  rewrite cf_transpose0, cf_row4, cf_bank_bits0, cf_col0.
  assert (Z.lxor t 1 = 1 - t) as ->
    by (assert (t = 0 \/ t = 1) as [-> | ->] by lia; reflexivity).
  replace (if nz c then 2 else 0) with (2 * (if nz c then 1 else 0))
    by (destruct (nz c); reflexivity).
  assert ((if nz (2 * r) then if msize is M_3x3 then 1 else 2 else 0) =
          if msize is M_3x3 then r else 2 * r) as ->.
  { assert (r = 0 \/ r = 1) as [-> | ->] by lia; destruct msize; reflexivity. }
  rewrite lor_name_fields;
    try (destruct (nz c), msize; cbn [GetMatrixSideSafe] in *; lia).
  apply u8_small. destruct (nz c), msize; cbn [GetMatrixSideSafe] in *; lia.
Qed.

(** The lanes of the [i]-th row name are the lanes of row [i]. *)
Lemma row_name_lane (code t r m c i j : Z) (msize : MatrixSize) :
  code_fields code t r m c -> msize <> M_Invalid -> msize <> M_1x1 ->
  (if msize is M_3x3 then r else 2 * r) + GetMatrixSideSafe msize <= 4 ->
  c = 0 \/ c = (if msize is M_3x3 then 1 else 2) ->
  0 <= i < GetMatrixSideSafe msize -> 0 <= j < GetMatrixSideSafe msize ->
  spec_vector_lane (GetVectorSizeSafe msize)
    (32 * (1 - t) + 64 * (if nz c then 1 else 0) + 4 * m +
     (i + if msize is M_3x3 then r else 2 * r)) j =
  spec_matrix_lane msize code i j.
Proof.
  intros F Hsize Hsize1 Hrow Hcol Hi Hj.
  pose proof (cf_t _ _ _ _ _ F). pose proof (cf_r _ _ _ _ _ F).
  pose proof (cf_m _ _ _ _ _ F). pose proof (cf_c _ _ _ _ _ F).
  rewrite (matrix_lane_of_fields msize code t r m c i j F).
  rewrite (vector_lane_of_fields (GetVectorSizeSafe msize) _
             (1 - t) (if nz c then 1 else 0) m
             (i + if msize is M_3x3 then r else 2 * r) j)
    by (apply name_has_fields;
        destruct (nz c), msize; cbn [GetMatrixSideSafe] in *;
        try congruence; lia).
  destruct msize; try congruence;
    cbn [GetVectorSizeSafe GetMatrixSideSafe] in *;
    destruct Hcol as [-> | ->]; change (nz 0) with false;
    change (nz 1) with true; change (nz 2) with true; cbv iota;
    small_fields.
Qed.

Lemma row_room_fields (code t r m c : Z) (msize : MatrixSize) :
  code_fields code t r m c -> msize <> M_Invalid ->
  spec_matrix_row msize code + GetMatrixSideSafe msize <= 4 ->
  (if msize is M_3x3 then r else 2 * r) + GetMatrixSideSafe msize <= 4.
Proof.
  intros F Hsize. unfold spec_matrix_row.
  destruct msize; try congruence;
    rewrite ?(cf_row1 _ _ _ _ _ F), ?(cf_row2 _ _ _ _ _ F); auto.
  pose proof (cf_r _ _ _ _ _ F). cbn. lia.
Qed.

(** X5: for the sizes 2x2, 3x3 and 4x4 and every code whose row field
    leaves room for the side (row + side <= 4) and whose column field is 0
    or the step of the size (1 for 3x3, 2 otherwise), GetMatrixRows names
    the rows of the matrix: decoded by GetVectorRegs at the matching vector
    size, the i-th name gives exactly the lanes that GetMatrixRegs decodes
    for row i, in the order of the columns. *)
Theorem X5_GetMatrixRows_names_the_rows
    (code : Z) (msize : MatrixSize) (vecs vregs mregs : list Z)
    (Hsize : msize <> M_Invalid) (Hsize1 : msize <> M_1x1)
    (Hvecs : length vecs = 4%nat) (Hvregs : length vregs = 4%nat)
    (Hmregs : length mregs = 16%nat)
    (Hrow : spec_matrix_row msize code + GetMatrixSideSafe msize <= 4)
    (Hcol : Z.land code 3 = 0 \/
            Z.land code 3 = if msize is M_3x3 then 1 else 2) :
  exists vecs' mregs',
    GetMatrixRows code msize vecs = Some vecs' /\
    GetMatrixRegs mregs msize code = Some mregs' /\
    forall i, 0 <= i < GetMatrixSideSafe msize ->
      exists name vregs',
        load vecs' i = Some name /\
        GetVectorRegs vregs (GetVectorSizeSafe msize) name = Some vregs' /\
        forall j, 0 <= j < GetMatrixSideSafe msize ->
          load vregs' j = load mregs' (j * 4 + i).
Proof.
  pose proof (code_has_fields code) as F.
  set (t := (code / 32) mod 2) in F. set (r := (code / 64) mod 2) in F.
  set (m := (code / 4) mod 8) in F. set (c := code mod 4) in F.
  rewrite (cf_col _ _ _ _ _ F) in Hcol.
  pose proof (row_room_fields code t r m c msize F Hsize Hrow) as Hrow'.
  destruct (GetMatrixRows_spec code t r m c msize vecs F Hsize Hvecs Hrow')
    as (vecs' & EC & _ & Hnames).
  destruct (GetMatrixRegs_spec mregs msize code Hsize Hmregs)
    as (mregs' & EM & _ & Hcells & _).
  exists vecs', mregs'. split; [exact EC|]. split; [exact EM|].
  intros i Hi. rewrite (Hnames i Hi).
  assert (GetVectorSizeSafe msize <> V_Invalid) as Hvs
    by (destruct msize; cbn; congruence).
  match goal with |- context [Some ?n = Some _] => set (name := n) end.
  destruct (GetVectorRegs_spec vregs (GetVectorSizeSafe msize) name Hvs Hvregs)
    as (vregs' & EV & _ & Hlanes & _).
  exists name, vregs'. split; [reflexivity|]. split; [exact EV|].
  intros j Hj.
  assert (GetNumVectorElements (GetVectorSizeSafe msize) =
          GetMatrixSideSafe msize) as En by (destruct msize; reflexivity).
  rewrite Hlanes by (rewrite En; exact Hj).
  rewrite (Hcells i j Hi Hj). f_equal.
  now apply (row_name_lane code t r m c i j msize).
Qed.

Lemma X5_GetMatrixRows_names_the_rows_witness :
  exists vecs' mregs',
    GetMatrixRows 0x26 M_2x2 [0; 0; 0; 0] = Some vecs' /\
    GetMatrixRegs (repeat 0 16) M_2x2 0x26 = Some mregs' /\
    forall i, 0 <= i < GetMatrixSideSafe M_2x2 ->
      exists name vregs',
        load vecs' i = Some name /\
        GetVectorRegs [0; 0; 0; 0] (GetVectorSizeSafe M_2x2) name =
          Some vregs' /\
        forall j, 0 <= j < GetMatrixSideSafe M_2x2 ->
          load vregs' j = load mregs' (j * 4 + i).
Proof.
  apply (X5_GetMatrixRows_names_the_rows 0x26 M_2x2
           [0; 0; 0; 0] [0; 0; 0; 0] (repeat 0 16));
    [discriminate | discriminate | reflexivity | reflexivity | reflexivity
    | vm_compute; discriminate | right; reflexivity].
Defined.

(** X6: GetMatrixName packs the bank, the transpose flag, the row and the
    column so that the decode finds them again: for a bank below 8, a column
    below 4, and a row that is 0 or 2 at 2x2, 0 or 1 at 3x3, and 0 with
    column 0 at 4x4, the name is a 7-bit code whose bank, column, row field
    (as GetMatrixRegs reads it at that size) and transpose bit are the
    arguments.  At 1x1 the function reaches its assertion. *)
Theorem X6_GetMatrixName_decodes_back
    (matrix column row : Z) (msize : MatrixSize) (transposed : bool)
    (Hmatrix : 0 <= matrix < 8) (Hcolumn : 0 <= column < 4)
    (Hrow : match msize with
            | M_2x2 => row = 0 \/ row = 2
            | M_3x3 => row = 0 \/ row = 1
            | M_4x4 => row = 0 /\ column = 0
            | M_1x1 | M_Invalid => False
            end) :
  GetMatrixName matrix M_1x1 column row transposed = None /\
  exists name,
    GetMatrixName matrix msize column row transposed = Some name /\
    0 <= name < 128 /\
    bank_of name = matrix /\
    Z.land name 3 = column /\
    spec_matrix_row msize name = row /\
    Z.land (Z.shiftr name 5) 1 = Z.b2z transposed.
Proof.
  split; [reflexivity|].
  assert (matrix = 0 \/ matrix = 1 \/ matrix = 2 \/ matrix = 3 \/
          matrix = 4 \/ matrix = 5 \/ matrix = 6 \/ matrix = 7)
    as [-> | [-> | [-> | [-> | [-> | [-> | [-> | ->]]]]]]] by lia;
    assert (column = 0 \/ column = 1 \/ column = 2 \/ column = 3)
      as [-> | [-> | [-> | ->]]] by lia;
    destruct transposed, msize; try contradiction;
    try destruct Hrow as [-> | ->]; try destruct Hrow as [-> Hc];
    try discriminate Hc;
    (eexists; split; [reflexivity|]; vm_compute; intuition congruence).
Qed.

Lemma X6_GetMatrixName_decodes_back_witness :
  GetMatrixName 5 M_1x1 1 1 true = None /\
  exists name,
    GetMatrixName 5 M_3x3 1 1 true = Some name /\
    0 <= name < 128 /\
    bank_of name = 5 /\
    Z.land name 3 = 1 /\
    spec_matrix_row M_3x3 name = 1 /\
    Z.land (Z.shiftr name 5) 1 = Z.b2z true.
Proof.
  apply (X6_GetMatrixName_decodes_back 5 1 1 M_3x3 true);
    [lia | lia | right; reflexivity].
Defined.

(** X7: at 3x3 the check of GetMatrixName and its packing disagree.  Row 2
    passes the check without a message, yet the name it gives is not a
    7-bit code and decodes to row 0; row 1, which the packing handles (X6),
    is reported as invalid. *)
Theorem X7_GetMatrixName_3x3_row_check
    (matrix column : Z) (transposed : bool)
    (Hmatrix : 0 <= matrix < 8)
    (Hcolumn : column = 0 \/ column = 2) :
  GetMatrixName_complains M_3x3 column 2 = false /\
  GetMatrixName_complains M_3x3 column 1 = true /\
  exists name,
    GetMatrixName matrix M_3x3 column 2 transposed = Some name /\
    128 <= name < 256 /\
    spec_matrix_row M_3x3 name = 0.
Proof.
  assert (matrix = 0 \/ matrix = 1 \/ matrix = 2 \/ matrix = 3 \/
          matrix = 4 \/ matrix = 5 \/ matrix = 6 \/ matrix = 7)
    as [-> | [-> | [-> | [-> | [-> | [-> | [-> | ->]]]]]]] by lia;
    destruct Hcolumn as [-> | ->]; destruct transposed;
    (split; [reflexivity|]; split; [reflexivity|];
     eexists; split; [reflexivity|]; vm_compute; intuition congruence).
Qed.

Lemma X7_GetMatrixName_3x3_row_check_witness :
  GetMatrixName_complains M_3x3 2 2 = false /\
  GetMatrixName_complains M_3x3 2 1 = true /\
  exists name,
    GetMatrixName 3 M_3x3 2 2 false = Some name /\
    128 <= name < 256 /\
    spec_matrix_row M_3x3 name = 0.
Proof.
  apply (X7_GetMatrixName_3x3_row_check 3 2 false);
    [lia | right; reflexivity].
Defined.

(** * Further properties of the transfers *)

(** ** ReadMatrix *)

(** A loop that copies [w i] to [a[pos i]]. *)
Lemma gather_loop (w : Z -> option Z) (pos : Z -> Z)
    (body : Z -> list Z -> option (list Z)) (n : nat) (a : list Z) :
  (forall i r, 0 <= i < Z.of_nat n ->
     body i r = x ← w i; store r (pos i) x) ->
  (forall i, 0 <= i < Z.of_nat n -> is_Some (w i)) ->
  (forall i, 0 <= i < Z.of_nat n -> 0 <= pos i < Z.of_nat (length a)) ->
  (forall i i', 0 <= i < Z.of_nat n -> 0 <= i' < Z.of_nat n ->
     pos i = pos i' -> i = i') ->
  exists a', for_loop n 0 body a = Some a' /\
    length a' = length a /\
    (forall i, 0 <= i < Z.of_nat n -> load a' (pos i) = w i) /\
    (forall p, (forall i, 0 <= i < Z.of_nat n -> p <> pos i) ->
       load a' p = load a p).
Proof.
  intros Hbody Hw Hpos Hinj.
  destruct (scatter_loop load (fun r => length r = length a) body
              (fun _ => true) pos w n) with (s := a)
    as (a' & E & Hl & Hf & Hv).
  - intros t r Ht Hr. rewrite (Hbody t r Ht).
    destruct (Hw t Ht) as [x Ex]. rewrite Ex. cbn [mbind option_bind].
    destruct (store_spec r (pos t) x) as (r' & E & Hl & Hget).
    { rewrite Hr. now apply Hpos. }
    exists r'. split; [exact E|]. split; [congruence|].
    intros p. rewrite Hget.
    destruct (decide (p = pos t)), (decide (true = true /\ p = pos t)); tauto.
  - reflexivity.
  - exists a'. split; [exact E|]. split; [exact Hl|]. split.
    + intros i Hi. apply Hv; [|exact Hi | reflexivity].
      intros t u Ht Hu _ _. now apply Hinj.
    + intros p Hp. apply Hf. intros t Ht _. now apply Hp.
Qed.

(** The same for the two nested loops of [ReadMatrix], the outer one over
    the columns [j], which fill the cells [j * 4 + i]. *)
Lemma gather_cells (w : Z -> Z -> option Z)
    (f : Z -> Z -> list Z -> option (list Z)) (side : Z) (a : list Z) :
  1 <= side <= 4 -> length a = 16%nat ->
  (forall i j r, 0 <= i < side -> 0 <= j < side ->
     f j i r = x ← w i j; store r (j * 4 + i) x) ->
  (forall i j, 0 <= i < side -> 0 <= j < side -> is_Some (w i j)) ->
  exists a',
    for_loop (Z.to_nat side) 0
      (fun j r => for_loop (Z.to_nat side) 0 (f j) r) a = Some a' /\
    length a' = 16%nat /\
    (forall i j, 0 <= i < side -> 0 <= j < side ->
       load a' (j * 4 + i) = w i j) /\
    (forall p, (forall i j, 0 <= i < side -> 0 <= j < side -> p <> j * 4 + i) ->
       load a' p = load a p).
Proof.
  intros Hside Ha Hbody Hw.
  rewrite (for_loop_nested f). rewrite Z2Nat.id by lia.
  assert (forall t, 0 <= t < Z.of_nat (Z.to_nat side * Z.to_nat side) ->
            0 <= t mod side < side /\ 0 <= t / side < side) as Hdec.
  { intros t Ht.
    destruct (side_cases side Hside) as [-> | [-> | [-> | ->]]];
      cbn in Ht; Z.div_mod_to_equations; lia. }
  destruct (gather_loop (fun t => w (t mod side) (t / side))
              (fun t => t / side * 4 + t mod side)
              (fun t r => f (t / side) (t mod side) r)
              (Z.to_nat side * Z.to_nat side) a)
    as (a' & E & Hl & Hv & Hf).
  - intros t r Ht. destruct (Hdec t Ht). now apply Hbody.
  - intros t Ht. destruct (Hdec t Ht). now apply Hw.
  - intros t Ht. destruct (Hdec t Ht). rewrite Ha. lia.
  - intros t u Ht Hu Heq. destruct (Hdec t Ht), (Hdec u Hu).
    rewrite (Z.div_mod t side), (Z.div_mod u side) by lia.
    assert (t / side = u / side /\ t mod side = u mod side) as [-> ->] by lia.
    reflexivity.
  - exists a'. split; [exact E|]. split; [congruence|]. split.
    + intros i j Hi Hj.
      destruct (pair_index side j i ltac:(lia) Hi) as [Ej Ei].
      assert (0 <= j * side + i < Z.of_nat (Z.to_nat side * Z.to_nat side))
        as Ht by (rewrite Nat2Z.inj_mul, Z2Nat.id by lia; nia).
      specialize (Hv _ Ht). cbv beta in Hv. now rewrite Ei, Ej in Hv.
    + intros p Hp. apply Hf. intros t Ht. destruct (Hdec t Ht). now apply Hp.
Qed.

(** What [ReadMatrix] leaves in [rd]: the cell (row [i], column [j]) of the
    matrix in [rd[j * 4 + i]], the rest as it was. *)
Lemma ReadMatrix_spec (rd : list Z) (size : MatrixSize) (reg : Z)
    (st : MIPSState) :
  size <> M_Invalid -> length rd = 16%nat -> length (v st) = 128%nat ->
  let side := GetMatrixSideSafe size in
  exists rd', ReadMatrix rd size reg st = Some rd' /\
    length rd' = 16%nat /\
    (forall i j, 0 <= i < side -> 0 <= j < side ->
       load rd' (j * 4 + i) = load (v st) (matrix_cell size reg i j)) /\
    (forall p, (forall i j, 0 <= i < side -> 0 <= j < side -> p <> j * 4 + i) ->
       load rd' p = load rd p).
Proof.
  intros Hsize Hrd Hv side. unfold ReadMatrix.
  destruct (matrix_fields size reg (Z.land (Z.shiftr reg 5) 1))
    as [[[tr row] side']|] eqn:EF;
    [|destruct size; [discriminate EF ..|congruence]].
  destruct (matrix_fields_spec _ _ _ _ _ _ EF) as (-> & -> & ->).
  fold side. cbn [mbind option_bind].
  pose proof (side_range size Hsize) as Hside. fold side in Hside.
  set (mtx := Z.land (Z.shiftr reg 2) 7).
  set (col := Z.land reg 3).
  set (row := spec_matrix_row size reg).
  set (tr := match size with M_1x1 => 0 | _ => Z.land (Z.shiftr reg 5) 1 end).
  assert (forall i j,
    matrix_cell size reg i j =
    mtx * 16 + (if nz tr
                then Z.land (row + i) 3 * 4 + Z.land (col + j) 3
                else Z.land (col + j) 3 * 4 + Z.land (row + i) 3)) as Hcell
    by reflexivity.
  assert (forall i j, is_Some (load (v st) (matrix_cell size reg i j))) as Hv'.
  { intros i j. apply load_is_Some. rewrite Hv.
    pose proof (matrix_cell_range size reg i j). lia. }
  assert (forall f,
    (forall i j r, 0 <= i < side -> 0 <= j < side ->
       f j i r =
       x ← load (v st) (matrix_cell size reg i j); store r (j * 4 + i) x) ->
    exists rd',
      for_loop (Z.to_nat side) 0
        (fun j r => for_loop (Z.to_nat side) 0 (f j) r) rd = Some rd' /\
      length rd' = 16%nat /\
      (forall i j, 0 <= i < side -> 0 <= j < side ->
         load rd' (j * 4 + i) = load (v st) (matrix_cell size reg i j)) /\
      (forall p,
         (forall i j, 0 <= i < side -> 0 <= j < side -> p <> j * 4 + i) ->
         load rd' p = load rd p)) as Hloops.
  { intros f Hf.
    apply (gather_cells (fun i j => load (v st) (matrix_cell size reg i j)));
      auto. }
  destruct (nz tr) eqn:Etr;
    destruct ((side =? 4) && (col =? 0) && (row =? 0)) eqn:Efast.
  - (* the 4x4 transpose *)
    apply andb_prop in Efast as [Efast Erow].
    apply andb_prop in Efast as [Eside Ecol].
    apply Z.eqb_eq in Ecol, Eside, Erow.
    destruct (Hloops (fun j i rd =>
                x ← load (v st) (mtx * 16 + (i * 4 + j));
                store rd (j * 4 + i) x))
      as (rd' & E & Hrest).
    { intros i j r Hi Hj. rewrite Hcell, Erow, Ecol. do 3 f_equal.
      fields_lia. }
    exists rd'. split; [|exact Hrest]. rewrite Eside in E. exact E.
  - unfold read_cells. apply (Hloops (fun j i rd =>
             x ← load (v st)
                   (mtx * 16 + (Z.land (row + i) 3 * 4 + Z.land (col + j) 3));
             store rd (j * 4 + i) x)).
    intros i j r _ _. now rewrite Hcell.
  - (* the copy of the whole bank *)
    apply andb_prop in Efast as [Efast Erow].
    apply andb_prop in Efast as [Eside Ecol].
    apply Z.eqb_eq in Ecol, Eside, Erow.
    unfold memcpy_rd.
    assert (forall i j, 0 <= i < 4 -> 0 <= j < 4 ->
              matrix_cell size reg i j = mtx * 16 + (j * 4 + i)) as Hk.
    { intros i j Hi Hj. rewrite Hcell, Erow, Ecol. fields_lia. }
    destruct (gather_loop (fun k => load (v st) (mtx * 16 + k)) (fun k => k)
                (fun k rd => x ← load (v st) (mtx * 16 + k); store rd k x)
                16 rd)
      as (rd' & E & Hl & Hw & Hf).
    + reflexivity.
    + intros k Hk'. apply load_is_Some. rewrite Hv.
      assert (0 <= mtx < 8) by (subst mtx; fields_lia). lia.
    + intros k Hk'. rewrite Hrd. lia.
    + auto.
    + exists rd'. split; [exact E|]. split; [congruence|]. split.
      * intros i j Hi Hj. rewrite Hk by lia. apply Hw. lia.
      * intros p Hp. apply Hf. intros k Hk' ->.
        apply (Hp (k mod 4) (k / 4)); rewrite ?Eside;
          Z.div_mod_to_equations; lia.
  - unfold read_cells. apply (Hloops (fun j i rd =>
             x ← load (v st)
                   (mtx * 16 + (Z.land (col + j) 3 * 4 + Z.land (row + i) 3));
             store rd (j * 4 + i) x)).
    intros i j r _ _. now rewrite Hcell.
Qed.

(** X8: ReadMatrix reads the lanes that GetMatrixRegs decodes: cell
    [j * 4 + i] of the output is [V] of cell [j * 4 + i] of the decode, when
    [V] goes through the lane ordering that the formulas of ReadMatrix build
    in; the cells of the output outside the side x side grid are not
    touched. *)
Theorem X8_ReadMatrix_reads_decoded_lanes
    (rd regs : list Z) (size : MatrixSize) (reg : Z) (st : MIPSState)
    (Hsize : size <> M_Invalid)
    (Hrd : length rd = 16%nat) (Hregs : length regs = 16%nat)
    (Hv : length (v st) = 128%nat) :
  exists rd' regs',
    ReadMatrix rd size reg st = Some rd' /\
    GetMatrixRegs regs size reg = Some regs' /\
    (forall i j,
       0 <= i < GetMatrixSideSafe size -> 0 <= j < GetMatrixSideSafe size ->
       exists lane x,
         load regs' (j * 4 + i) = Some lane /\
         V voffset_std st lane = Some x /\
         load rd' (j * 4 + i) = Some x) /\
    (forall p,
       (forall i j, 0 <= i < GetMatrixSideSafe size ->
          0 <= j < GetMatrixSideSafe size -> p <> j * 4 + i) ->
       load rd' p = load rd p).
Proof.
  destruct (ReadMatrix_spec rd size reg st Hsize Hrd Hv)
    as (rd' & ER & _ & Hcells & Hrest).
  destruct (GetMatrixRegs_spec regs size reg Hsize Hregs)
    as (regs' & EG & _ & Hlanes & _).
  exists rd', regs'. split; [exact ER|]. split; [exact EG|].
  split; [|exact Hrest].
  intros i j Hi Hj.
  destruct (load_is_Some (v st) (matrix_cell size reg i j)) as [x Ex].
  { rewrite Hv. pose proof (matrix_cell_range size reg i j). lia. }
  exists (spec_matrix_lane size reg i j), x.
  split; [now apply Hlanes|]. unfold V.
  rewrite <- matrix_cell_voffset_std. split; [exact Ex|].
  now rewrite (Hcells i j Hi Hj).
Qed.

Lemma X8_ReadMatrix_reads_decoded_lanes_witness :
  exists rd' regs',
    ReadMatrix (repeat 0 16) M_3x3 0x65
      {| v := map Z.of_nat (seq 0 128); writeMask := 0 |} = Some rd' /\
    GetMatrixRegs (repeat 0 16) M_3x3 0x65 = Some regs' /\
    (forall i j,
       0 <= i < GetMatrixSideSafe M_3x3 -> 0 <= j < GetMatrixSideSafe M_3x3 ->
       exists lane x,
         load regs' (j * 4 + i) = Some lane /\
         V voffset_std {| v := map Z.of_nat (seq 0 128); writeMask := 0 |}
           lane = Some x /\
         load rd' (j * 4 + i) = Some x) /\
    (forall p,
       (forall i j, 0 <= i < GetMatrixSideSafe M_3x3 ->
          0 <= j < GetMatrixSideSafe M_3x3 -> p <> j * 4 + i) ->
       load rd' p = load (repeat 0 16) p).
Proof.
  apply (X8_ReadMatrix_reads_decoded_lanes (repeat 0 16) (repeat 0 16)
           M_3x3 0x65 {| v := map Z.of_nat (seq 0 128); writeMask := 0 |});
    [discriminate | reflexivity | reflexivity | reflexivity].
Defined.

(** X9: WriteMatrix followed by ReadMatrix with the same size and code gives
    back, for every cell of the grid, the element written, except for the
    cells of the last column whose row has its mask bit set, which give the
    value the register file had before; with a clear mask, the whole grid
    comes back. *)
Theorem X9_WriteMatrix_ReadMatrix_round_trip
    (rd out : list Z) (size : MatrixSize) (reg : Z) (st : MIPSState)
    (Hsize : size <> M_Invalid)
    (Hrd : length rd = 16%nat) (Hout : length out = 16%nat)
    (Hv : length (v st) = 128%nat) :
  exists st' out',
    WriteMatrix rd size reg st = Some st' /\
    ReadMatrix out size reg st' = Some out' /\
    (forall i j,
       0 <= i < GetMatrixSideSafe size -> 0 <= j < GetMatrixSideSafe size ->
       load out' (j * 4 + i) =
       if (j =? GetMatrixSideSafe size - 1) && VfpuWriteMaskBit st i
       then load (v st) (matrix_cell size reg i j)
       else load rd (j * 4 + i)) /\
    (VfpuWriteMask st = 0 ->
     forall i j,
       0 <= i < GetMatrixSideSafe size -> 0 <= j < GetMatrixSideSafe size ->
       load out' (j * 4 + i) = load rd (j * 4 + i)).
Proof.
  destruct (WriteMatrix_spec rd size reg st Hsize Hrd Hv)
    as (st' & EW & _ & Hl & Hf & Hw).
  destruct (ReadMatrix_spec out size reg st' Hsize Hout Hl)
    as (out' & ER & _ & Hcells & _).
  pose proof (side_range size Hsize) as Hside.
  assert (forall i j,
    0 <= i < GetMatrixSideSafe size -> 0 <= j < GetMatrixSideSafe size ->
    load out' (j * 4 + i) =
    if (j =? GetMatrixSideSafe size - 1) && VfpuWriteMaskBit st i
    then load (v st) (matrix_cell size reg i j)
    else load rd (j * 4 + i)) as Hall.
  { intros i j Hi Hj. rewrite (Hcells i j Hi Hj).
    change ((j =? GetMatrixSideSafe size - 1) && VfpuWriteMaskBit st i)
      with (cell_skipped (GetMatrixSideSafe size) (writeMask st) i j).
    destruct (cell_skipped (GetMatrixSideSafe size) (writeMask st) i j) eqn:Es.
    - apply Hf. intros i' j' Hi' Hj' Es' Heq.
      apply matrix_cell_inj in Heq as [-> ->]; [congruence | lia ..].
    - now apply Hw. }
  exists st', out'. split; [exact EW|]. split; [exact ER|].
  split; [exact Hall|].
  intros Hmask i j Hi Hj. rewrite (Hall i j Hi Hj).
  unfold VfpuWriteMaskBit. unfold VfpuWriteMask in Hmask.
  rewrite Hmask, testbit_zero. now rewrite andb_false_r.
Qed.

Lemma X9_WriteMatrix_ReadMatrix_round_trip_witness :
  exists st' out',
    WriteMatrix (map Z.of_nat (seq 1 16)) M_3x3 0x65
      {| v := repeat 0 128; writeMask := 5 |} = Some st' /\
    ReadMatrix (repeat 0 16) M_3x3 0x65 st' = Some out' /\
    (forall i j,
       0 <= i < GetMatrixSideSafe M_3x3 -> 0 <= j < GetMatrixSideSafe M_3x3 ->
       load out' (j * 4 + i) =
       if (j =? GetMatrixSideSafe M_3x3 - 1) &&
          VfpuWriteMaskBit {| v := repeat 0 128; writeMask := 5 |} i
       then load (repeat 0 128) (matrix_cell M_3x3 0x65 i j)
       else load (map Z.of_nat (seq 1 16)) (j * 4 + i)) /\
    (VfpuWriteMask {| v := repeat 0 128; writeMask := 5 |} = 0 ->
     forall i j,
       0 <= i < GetMatrixSideSafe M_3x3 -> 0 <= j < GetMatrixSideSafe M_3x3 ->
       load out' (j * 4 + i) = load (map Z.of_nat (seq 1 16)) (j * 4 + i)).
Proof.
  apply (X9_WriteMatrix_ReadMatrix_round_trip (map Z.of_nat (seq 1 16))
           (repeat 0 16) M_3x3 0x65 {| v := repeat 0 128; writeMask := 5 |});
    [discriminate | reflexivity | reflexivity | reflexivity].
Defined.

(** X10: reading a matrix is reading its columns: for a code whose column
    field leaves room for the side, ReadVector of the j-th name of
    GetMatrixColumns, through the lane ordering that ReadMatrix builds in,
    returns column j of what ReadMatrix returns. *)
Theorem X10_ReadMatrix_by_columns
    (code : Z) (msize : MatrixSize) (vecs out rd : list Z) (st : MIPSState)
    (Hsize : msize <> M_Invalid)
    (Hvecs : length vecs = 4%nat) (Hout : length out = 4%nat)
    (Hrd : length rd = 16%nat) (Hv : length (v st) = 128%nat)
    (Hcol : Z.land code 3 + GetMatrixSideSafe msize <= 4) :
  exists vecs' rd',
    GetMatrixColumns code msize vecs = Some vecs' /\
    ReadMatrix rd msize code st = Some rd' /\
    forall j, 0 <= j < GetMatrixSideSafe msize ->
      exists name out',
        load vecs' j = Some name /\
        ReadVector voffset_std out (GetVectorSizeSafe msize) name st =
          Some out' /\
        forall i, 0 <= i < GetMatrixSideSafe msize ->
          load out' i = load rd' (j * 4 + i).
Proof.
  pose proof (code_has_fields code) as F.
  set (t := (code / 32) mod 2) in F. set (r := (code / 64) mod 2) in F.
  set (m := (code / 4) mod 8) in F. set (c := code mod 4) in F.
  rewrite (cf_col _ _ _ _ _ F) in Hcol.
  pose proof (cf_t _ _ _ _ _ F). pose proof (cf_r _ _ _ _ _ F).
  pose proof (cf_m _ _ _ _ _ F). pose proof (cf_c _ _ _ _ _ F).
  destruct (GetMatrixColumns_spec code t r m c msize vecs F Hsize Hvecs Hcol)
    as (vecs' & EC & _ & Hnames).
  destruct (ReadMatrix_spec rd msize code st Hsize Hrd Hv)
    as (rd' & ER & _ & Hcells & _).
  exists vecs', rd'. split; [exact EC|]. split; [exact ER|].
  intros j Hj. rewrite (Hnames j Hj).
  assert (GetVectorSizeSafe msize <> V_Invalid) as Hvs
    by (destruct msize; cbn; congruence).
  destruct (ReadVector_spec voffset_std voffset_std_range out
              (GetVectorSizeSafe msize) (32 * t + 64 * r + 4 * m + (j + c)) st
              Hvs ltac:(lia) Hout Hv) as (out' & EV & _ & Hlanes & _).
  eexists _, out'. split; [reflexivity|]. split; [exact EV|].
  intros i Hi.
  assert (GetNumVectorElements (GetVectorSizeSafe msize) =
          GetMatrixSideSafe msize) as En by (destruct msize; reflexivity).
  rewrite Hlanes by (rewrite En; exact Hi).
  rewrite (Hcells i j Hi Hj), matrix_cell_voffset_std. unfold V.
  now rewrite (column_name_lane code t r m c i j msize).
Qed.

Lemma X10_ReadMatrix_by_columns_witness :
  exists vecs' rd',
    GetMatrixColumns 0x22 M_2x2 [0; 0; 0; 0] = Some vecs' /\
    ReadMatrix (repeat 0 16) M_2x2 0x22
      {| v := map Z.of_nat (seq 0 128); writeMask := 0 |} = Some rd' /\
    forall j, 0 <= j < GetMatrixSideSafe M_2x2 ->
      exists name out',
        load vecs' j = Some name /\
        ReadVector voffset_std [0; 0; 0; 0] (GetVectorSizeSafe M_2x2) name
          {| v := map Z.of_nat (seq 0 128); writeMask := 0 |} = Some out' /\
        forall i, 0 <= i < GetMatrixSideSafe M_2x2 ->
          load out' i = load rd' (j * 4 + i).
Proof.
  apply (X10_ReadMatrix_by_columns 0x22 M_2x2 [0; 0; 0; 0] [0; 0; 0; 0]
           (repeat 0 16) {| v := map Z.of_nat (seq 0 128); writeMask := 0 |});
    [discriminate | reflexivity | reflexivity | reflexivity | reflexivity
    | vm_compute; discriminate].
Defined.

(** ** ReadVector and WriteVector *)

(** X11: ReadVector reads the lanes that GetVectorRegs lists, in order:
    element i of the output is [V] of cell i of the decode, and the cells of
    the output after the last element are not touched. *)
Theorem X11_ReadVector_reads_decoded_lanes
    (voffset : Z -> Z) (rd regs : list Z) (size : VectorSize) (reg : Z)
    (st : MIPSState)
    (Hrange : forall L, 0 <= L < 128 -> 0 <= voffset L < 128)
    (Hsize : size <> V_Invalid) (Hreg : 0 <= reg < 128)
    (Hrd : length rd = 4%nat) (Hregs : length regs = 4%nat)
    (Hv : length (v st) = 128%nat) :
  exists rd' regs',
    ReadVector voffset rd size reg st = Some rd' /\
    GetVectorRegs regs size reg = Some regs' /\
    (forall i, 0 <= i < GetNumVectorElements size ->
       exists lane x,
         load regs' i = Some lane /\
         V voffset st lane = Some x /\
         load rd' i = Some x) /\
    (forall i, ~ 0 <= i < GetNumVectorElements size ->
       load rd' i = load rd i).
Proof.
  destruct (ReadVector_spec voffset Hrange rd size reg st Hsize Hreg Hrd Hv)
    as (rd' & ER & _ & Hread & Hrest).
  destruct (GetVectorRegs_spec regs size reg Hsize Hregs)
    as (regs' & EG & _ & Hlanes & _).
  exists rd', regs'. split; [exact ER|]. split; [exact EG|].
  split; [|exact Hrest].
  intros i Hi.
  destruct (load_is_Some (v st) (voffset (spec_vector_lane size reg i)))
    as [x Ex].
  { rewrite Hv.
    pose proof (Hrange _ (spec_vector_lane_range size reg i)). lia. }
  exists (spec_vector_lane size reg i), x.
  split; [now apply Hlanes|]. split; [exact Ex|].
  now rewrite (Hread i Hi).
Qed.

Lemma X11_ReadVector_reads_decoded_lanes_witness :
  exists rd' regs',
    ReadVector voffset_std [0; 0; 0; 0] V_Triple 0x65
      {| v := map Z.of_nat (seq 0 128); writeMask := 0 |} = Some rd' /\
    GetVectorRegs [0; 0; 0; 0] V_Triple 0x65 = Some regs' /\
    (forall i, 0 <= i < GetNumVectorElements V_Triple ->
       exists lane x,
         load regs' i = Some lane /\
         V voffset_std {| v := map Z.of_nat (seq 0 128); writeMask := 0 |}
           lane = Some x /\
         load rd' i = Some x) /\
    (forall i, ~ 0 <= i < GetNumVectorElements V_Triple ->
       load rd' i = load [0; 0; 0; 0] i).
Proof.
  apply (X11_ReadVector_reads_decoded_lanes voffset_std
           [0; 0; 0; 0] [0; 0; 0; 0] V_Triple 0x65
           {| v := map Z.of_nat (seq 0 128); writeMask := 0 |}
           voffset_std_range);
    [discriminate | lia | reflexivity | reflexivity | reflexivity].
Defined.

(** X12: under any write mask, WriteVector stores element i in its lane
    exactly when bit i of the mask is clear: afterwards the lane of element
    i holds the element if the bit is clear and its previous value if the
    bit is set, and the mask itself is unchanged.  The table voffset is any
    one-to-one placement of the 128 lanes. *)
Theorem X12_WriteVector_honours_mask
    (voffset : Z -> Z) (rd regs : list Z) (size : VectorSize) (reg : Z)
    (st : MIPSState)
    (Hrange : forall L, 0 <= L < 128 -> 0 <= voffset L < 128)
    (Hinj : forall L L', 0 <= L < 128 -> 0 <= L' < 128 ->
              voffset L = voffset L' -> L = L')
    (Hsize : size <> V_Invalid) (Hreg : 0 <= reg < 128)
    (Hrd : length rd = 4%nat) (Hregs : length regs = 4%nat)
    (Hv : length (v st) = 128%nat) :
  exists st' regs',
    WriteVector voffset rd size reg st = Some st' /\
    GetVectorRegs regs size reg = Some regs' /\
    VfpuWriteMask st' = VfpuWriteMask st /\
    forall i, 0 <= i < GetNumVectorElements size ->
      exists lane,
        load regs' i = Some lane /\
        V voffset st' lane =
        if VfpuWriteMaskBit st i then V voffset st lane else load rd i.
Proof.
  destruct (WriteVector_spec voffset Hrange rd size reg st Hsize Hreg Hrd Hv)
    as (st' & EW & Hm & _ & Hf & Hw).
  destruct (GetVectorRegs_spec regs size reg Hsize Hregs)
    as (regs' & EG & _ & Hlanes & _).
  assert (GetNumVectorElements size <= 4) by (destruct size; cbn; lia).
  exists st', regs'. split; [exact EW|]. split; [exact EG|].
  split; [exact Hm|].
  intros i Hi. exists (spec_vector_lane size reg i).
  split; [now apply Hlanes|]. unfold V, VfpuWriteMaskBit.
  destruct (Z.testbit (writeMask st) i) eqn:Eb.
  - apply Hf. intros k Hk Hbit Heq.
    apply Hinj in Heq; try apply spec_vector_lane_range.
    apply spec_vector_lane_inj in Heq; [congruence | lia | lia].
  - now apply Hw.
Qed.

Lemma X12_WriteVector_honours_mask_witness :
  exists st' regs',
    WriteVector voffset_std [11; 12; 13; 14] V_Quad 0x24
      {| v := repeat 0 128; writeMask := 6 |} = Some st' /\
    GetVectorRegs [0; 0; 0; 0] V_Quad 0x24 = Some regs' /\
    VfpuWriteMask st' =
      VfpuWriteMask {| v := repeat 0 128; writeMask := 6 |} /\
    forall i, 0 <= i < GetNumVectorElements V_Quad ->
      exists lane,
        load regs' i = Some lane /\
        V voffset_std st' lane =
        if VfpuWriteMaskBit {| v := repeat 0 128; writeMask := 6 |} i
        then V voffset_std {| v := repeat 0 128; writeMask := 6 |} lane
        else load [11; 12; 13; 14] i.
Proof.
  apply (X12_WriteVector_honours_mask voffset_std
           [11; 12; 13; 14] [0; 0; 0; 0] V_Quad 0x24
           {| v := repeat 0 128; writeMask := 6 |}
           voffset_std_range voffset_std_inj);
    [discriminate | lia | reflexivity | reflexivity | reflexivity].
Defined.

Lemma load_ext (a b : list Z) :
  length a = length b -> (forall p, load a p = load b p) -> a = b.
Proof.
  intros Hlen H. apply list_eq. intros i.
  specialize (H (Z.of_nat i)). unfold load in H.
  rewrite !decide_True, Nat2Z.id in H by lia. exact H.
Qed.

Lemma bounded_search (P : Z -> Prop) `{forall i, Decision (P i)} (n : Z) :
  0 <= n ->
  (exists i, 0 <= i < n /\ P i) \/ (forall i, 0 <= i < n -> ~ P i).
Proof.
  intros Hn. pattern n. apply natlike_ind; [| |exact Hn].
  - right. intros i Hi. lia.
  - intros k Hk [(i & Hi & HP) | Hnone].
    + left. exists i. split; [lia | exact HP].
    + destruct (decide (P k)) as [HP | HP].
      * left. exists k. split; [lia | exact HP].
      * right. intros i Hi. destruct (Z.eq_dec i k) as [-> | Hne]; [exact HP|].
        apply Hnone. lia.
Qed.

(** X13: writing back what was just read changes nothing: for any write
    mask, WriteVector of the output of ReadVector, with the same size and
    code, returns the state it started from. *)
Theorem X13_write_back_is_identity
    (voffset : Z -> Z) (rd : list Z) (size : VectorSize) (reg : Z)
    (st : MIPSState)
    (Hrange : forall L, 0 <= L < 128 -> 0 <= voffset L < 128)
    (Hinj : forall L L', 0 <= L < 128 -> 0 <= L' < 128 ->
              voffset L = voffset L' -> L = L')
    (Hsize : size <> V_Invalid) (Hreg : 0 <= reg < 128)
    (Hrd : length rd = 4%nat) (Hv : length (v st) = 128%nat) :
  exists rd',
    ReadVector voffset rd size reg st = Some rd' /\
    WriteVector voffset rd' size reg st = Some st.
Proof.
  destruct (ReadVector_spec voffset Hrange rd size reg st Hsize Hreg Hrd Hv)
    as (rd' & ER & Hl & Hread & _).
  destruct (WriteVector_spec voffset Hrange rd' size reg st Hsize Hreg Hl Hv)
    as (st' & EW & Hm & Hl' & Hf & Hw).
  exists rd'. split; [exact ER|]. rewrite EW. f_equal.
  assert (v st' = v st) as Ev.
  { apply load_ext; [congruence|]. intros p.
    destruct (bounded_search
                (fun i => Z.testbit (writeMask st) i = false /\
                          p = voffset (spec_vector_lane size reg i))
                (GetNumVectorElements size))
      as [(i & Hi & Hbit & ->) | Hnone].
    - destruct size; cbn; lia.
    - rewrite (Hw Hinj i Hi Hbit), (Hread i Hi). reflexivity.
    - apply Hf. intros i Hi Hbit Heq. apply (Hnone i Hi). auto. }
  destruct st', st. cbn in *. congruence.
Qed.

Lemma X13_write_back_is_identity_witness :
  exists rd',
    ReadVector voffset_std [0; 0; 0; 0] V_Triple 0x65
      {| v := map Z.of_nat (seq 0 128); writeMask := 2 |} = Some rd' /\
    WriteVector voffset_std rd' V_Triple 0x65
      {| v := map Z.of_nat (seq 0 128); writeMask := 2 |} =
    Some {| v := map Z.of_nat (seq 0 128); writeMask := 2 |}.
Proof.
  apply (X13_write_back_is_identity voffset_std [0; 0; 0; 0] V_Triple 0x65
           {| v := map Z.of_nat (seq 0 128); writeMask := 2 |}
           voffset_std_range voffset_std_inj);
    [discriminate | lia | reflexivity | reflexivity].
Defined.

(** * Further properties of the overlap tests *)

(** ** GetMatrixOverlap *)

(** A search in which every turn is defined finds what it looks for exactly
    when some turn does. *)
Lemma for_search_spec (body : Z -> option bool) (found : Z -> Prop)
    (n : nat) (k : Z) :
  (forall i, k <= i < k + Z.of_nat n ->
     exists b, body i = Some b /\ (b = true <-> found i)) ->
  exists r, for_search n k body = Some r /\
    (r = true <-> exists i, k <= i < k + Z.of_nat n /\ found i).
Proof.
  revert k. induction n as [|n IH]; intros k Hbody.
  - exists false. split; [reflexivity|]. split; [discriminate|].
    intros (i & Hi & _). lia.
  - cbn [for_search].
    destruct (Hbody k ltac:(lia)) as (b & -> & Hb).
    destruct b.
    + exists true. split; [reflexivity|]. split; [|reflexivity].
      intros _. exists k. split; [lia | now apply Hb].
    + destruct (IH (k + 1)) as (r & -> & Hr).
      { intros i Hi. apply Hbody. lia. }
      exists r. split; [reflexivity|]. rewrite Hr. split.
      * intros (i & Hi & Hf). exists i. split; [lia | exact Hf].
      * intros (i & Hi & Hf). destruct (Z.eq_dec i k) as [-> | Hne].
        -- apply Hb in Hf. discriminate Hf.
        -- exists i. split; [lia | exact Hf].
Qed.

(** What [GetMatrixOverlap] returns, in terms of the lanes of the two
    grids. *)
Lemma GetMatrixOverlap_spec (m1 m2 : list Z) (mtx1 mtx2 : Z)
    (msize : MatrixSize) :
  msize <> M_Invalid -> length m1 = 16%nat -> length m2 = 16%nat ->
  exists res, GetMatrixOverlap m1 m2 mtx1 mtx2 msize = Some res /\
    (res = OVERLAP_EQUAL <-> mtx1 = mtx2) /\
    (res = OVERLAP_PARTIAL <->
     mtx1 <> mtx2 /\
     exists i j i' j',
       0 <= i < GetMatrixSideSafe msize /\ 0 <= j < GetMatrixSideSafe msize /\
       0 <= i' < GetMatrixSideSafe msize /\
       0 <= j' < GetMatrixSideSafe msize /\
       spec_matrix_lane msize mtx1 i j = spec_matrix_lane msize mtx2 i' j').
Proof.
  intros Hsize Hm1 Hm2. unfold GetMatrixOverlap.
  rewrite (GetMatrixSide_valid msize Hsize). cbn [mbind option_bind].
  destruct (Z.eqb_spec mtx1 mtx2) as [Heq | Hne].
  { exists OVERLAP_EQUAL. split; [reflexivity|]. split; [tauto|].
    split; [discriminate | tauto]. }
  destruct (GetMatrixRegs_spec m1 msize mtx1 Hsize Hm1)
    as (r1 & -> & _ & H1 & _).
  destruct (GetMatrixRegs_spec m2 msize mtx2 Hsize Hm2)
    as (r2 & -> & _ & H2 & _).
  cbn [mbind option_bind].
  pose proof (side_range msize Hsize) as Hside.
  set (n := GetMatrixSideSafe msize) in *.
  set (lane1 := spec_matrix_lane msize mtx1) in *.
  set (lane2 := spec_matrix_lane msize mtx2) in *.
  match goal with
  | |- context [for_search _ 0 ?body] =>
      destruct (for_search_spec body
                  (fun x => exists y a b, 0 <= y < n /\ 0 <= a < n /\
                     0 <= b < n /\ lane2 b a = lane1 x y)
                  (Z.to_nat n) 0) as (found & -> & Hfound)
  end.
  { intros x Hx.
    match goal with
    | |- context [for_search _ 0 ?body] =>
        destruct (for_search_spec body
                    (fun y => exists a b, 0 <= a < n /\ 0 <= b < n /\
                       lane2 b a = lane1 x y)
                    (Z.to_nat n) 0) as (fy & -> & Hfy)
    end.
    - intros y Hy. rewrite (H1 x y) by lia. cbn [mbind option_bind].
      match goal with
      | |- context [for_search _ 0 ?body] =>
          destruct (for_search_spec body
                      (fun a => exists b, 0 <= b < n /\ lane2 b a = lane1 x y)
                      (Z.to_nat n) 0) as (fa & -> & Hfa)
      end.
      + intros a Ha.
        match goal with
        | |- context [for_search _ 0 ?body] =>
            destruct (for_search_spec body
                        (fun b => lane2 b a = lane1 x y)
                        (Z.to_nat n) 0) as (fb & -> & Hfb)
        end.
        * intros b Hb. rewrite (H2 b a) by lia. cbn [mbind option_bind].
          eexists. split; [reflexivity|]. apply Z.eqb_eq.
        * exists fb. split; [reflexivity|]. rewrite Hfb. split.
          -- intros (b & Hb & Hl). exists b. split; [lia | exact Hl].
          -- intros (b & Hb & Hl). exists b. split; [lia | exact Hl].
      + exists fa. split; [reflexivity|]. rewrite Hfa. split.
        * intros (a & Ha & b & Hb & Hl). exists a, b. repeat split; auto; lia.
        * intros (a & b & Ha & Hb & Hl). exists a. split; [lia|]. eauto.
    - exists fy. split; [reflexivity|]. rewrite Hfy. split.
      + intros (y & Hy & a & b & Ha & Hb & Hl).
        exists y, a, b. repeat split; auto; lia.
      + intros (y & a & b & Hy & Ha & Hb & Hl).
        exists y. split; [lia|]. eauto. }
  exists (search_result found). split; [reflexivity|].
  split; [destruct found; (split; [discriminate | intros; contradiction])|].
  split.
  - intros Hres. split; [exact Hne|].
    assert (found = true) as Hf by (destruct found; [reflexivity | discriminate]).
    apply Hfound in Hf as (x & Hx & y & a & b & Hy & Ha & Hb & Hl).
    exists x, y, b, a. repeat split; auto; lia.
  - intros (_ & i & j & i' & j' & Hi & Hj & Hi' & Hj' & Hl).
    assert (found = true) as ->; [|reflexivity].
    apply Hfound. exists i. split; [lia|]. exists j, j', i'. auto.
Qed.

(** X14: GetMatrixOverlap returns EQUAL exactly when the two codes are the
    same number, PARTIAL exactly when they differ and some cell of the one
    grid decodes to the lane of some cell of the other, and NONE otherwise;
    it never fails for a valid size. *)
Theorem X14_GetMatrixOverlap_characterised
    (m1 m2 : list Z) (mtx1 mtx2 : Z) (msize : MatrixSize)
    (Hsize : msize <> M_Invalid)
    (Hm1 : length m1 = 16%nat) (Hm2 : length m2 = 16%nat) :
  exists r1 r2 res,
    GetMatrixRegs m1 msize mtx1 = Some r1 /\
    GetMatrixRegs m2 msize mtx2 = Some r2 /\
    GetMatrixOverlap m1 m2 mtx1 mtx2 msize = Some res /\
    (res = OVERLAP_EQUAL <-> mtx1 = mtx2) /\
    (res = OVERLAP_PARTIAL <->
     mtx1 <> mtx2 /\
     exists i j i' j',
       0 <= i < GetMatrixSideSafe msize /\ 0 <= j < GetMatrixSideSafe msize /\
       0 <= i' < GetMatrixSideSafe msize /\
       0 <= j' < GetMatrixSideSafe msize /\
       load r1 (j * 4 + i) = load r2 (j' * 4 + i')).
Proof.
  destruct (GetMatrixRegs_spec m1 msize mtx1 Hsize Hm1)
    as (r1 & E1 & _ & H1 & _).
  destruct (GetMatrixRegs_spec m2 msize mtx2 Hsize Hm2)
    as (r2 & E2 & _ & H2 & _).
  destruct (GetMatrixOverlap_spec m1 m2 mtx1 mtx2 msize Hsize Hm1 Hm2)
    as (res & E & Heq & Hpart).
  exists r1, r2, res. split; [exact E1|]. split; [exact E2|].
  split; [exact E|]. split; [exact Heq|]. rewrite Hpart. split.
  - intros (Hne & i & j & i' & j' & Hi & Hj & Hi' & Hj' & Hl).
    split; [exact Hne|]. exists i, j, i', j'.
    do 4 (split; [assumption|]).
    rewrite (H1 i j), (H2 i' j') by assumption. now rewrite Hl.
  - intros (Hne & i & j & i' & j' & Hi & Hj & Hi' & Hj' & Hl).
    split; [exact Hne|]. exists i, j, i', j'.
    do 4 (split; [assumption|]).
    rewrite (H1 i j), (H2 i' j') in Hl by assumption. congruence.
Qed.

Lemma X14_GetMatrixOverlap_characterised_witness :
  exists r1 r2 res,
    GetMatrixRegs (repeat 0 16) M_2x2 0x00 = Some r1 /\
    GetMatrixRegs (repeat 1 16) M_2x2 0x21 = Some r2 /\
    GetMatrixOverlap (repeat 0 16) (repeat 1 16) 0x00 0x21 M_2x2 = Some res /\
    (res = OVERLAP_EQUAL <-> 0x00 = 0x21) /\
    (res = OVERLAP_PARTIAL <->
     0x00 <> 0x21 /\
     exists i j i' j',
       0 <= i < GetMatrixSideSafe M_2x2 /\ 0 <= j < GetMatrixSideSafe M_2x2 /\
       0 <= i' < GetMatrixSideSafe M_2x2 /\
       0 <= j' < GetMatrixSideSafe M_2x2 /\
       load r1 (j * 4 + i) = load r2 (j' * 4 + i')).
Proof.
  apply (X14_GetMatrixOverlap_characterised (repeat 0 16) (repeat 1 16)
           0x00 0x21 M_2x2);
    [discriminate | reflexivity | reflexivity].
Defined.

(** X15: the result of GetMatrixOverlap does not depend on the order of the
    two codes, nor on what the two local arrays held. *)
Theorem X15_GetMatrixOverlap_symmetric
    (m1 m2 m1' m2' : list Z) (mtx1 mtx2 : Z) (msize : MatrixSize)
    (Hsize : msize <> M_Invalid)
    (Hm1 : length m1 = 16%nat) (Hm2 : length m2 = 16%nat)
    (Hm1' : length m1' = 16%nat) (Hm2' : length m2' = 16%nat) :
  GetMatrixOverlap m1 m2 mtx1 mtx2 msize =
  GetMatrixOverlap m1' m2' mtx2 mtx1 msize.
Proof.
  destruct (GetMatrixOverlap_spec m1 m2 mtx1 mtx2 msize Hsize Hm1 Hm2)
    as (res & -> & Heq & Hpart).
  destruct (GetMatrixOverlap_spec m1' m2' mtx2 mtx1 msize Hsize Hm1' Hm2')
    as (res' & -> & Heq' & Hpart').
  f_equal.
  assert (res = OVERLAP_EQUAL <-> res' = OVERLAP_EQUAL) as HE
    by (rewrite Heq, Heq'; split; congruence).
  assert (res = OVERLAP_PARTIAL <-> res' = OVERLAP_PARTIAL) as HP.
  { rewrite Hpart, Hpart'. split;
      intros (Hne & i & j & i' & j' & Hi & Hj & Hi' & Hj' & Hl);
      (split; [congruence|]); exists i', j', i, j; auto. }
  destruct res, res'; try reflexivity;
    try (destruct HE as [HE1 HE2]; (discriminate (HE1 eq_refl)
                                    || discriminate (HE2 eq_refl)));
    destruct HP as [HP1 HP2]; (discriminate (HP1 eq_refl)
                               || discriminate (HP2 eq_refl)).
Qed.

Lemma X15_GetMatrixOverlap_symmetric_witness :
  GetMatrixOverlap (repeat 0 16) (repeat 1 16) 0x00 0x21 M_3x3 =
  GetMatrixOverlap (repeat 2 16) (repeat 3 16) 0x21 0x00 M_3x3.
Proof.
  apply (X15_GetMatrixOverlap_symmetric (repeat 0 16) (repeat 1 16)
           (repeat 2 16) (repeat 3 16) 0x00 0x21 M_3x3);
    [discriminate | reflexivity ..].
Defined.

Lemma spec_matrix_lane_bank (N : MatrixSize) (code i j : Z) :
  bank_of (spec_matrix_lane N code i j) = bank_of code.
Proof.
  unfold spec_matrix_lane, bank_of.
  match goal with |- context [nz ?t] => destruct (nz t) end; fields_lia.
Qed.

(** X16: matrices of different banks never overlap: for two codes whose
    bank fields differ GetMatrixOverlap returns NONE at every valid size. *)
Theorem X16_GetMatrixOverlap_other_bank
    (m1 m2 : list Z) (mtx1 mtx2 : Z) (msize : MatrixSize)
    (Hsize : msize <> M_Invalid)
    (Hm1 : length m1 = 16%nat) (Hm2 : length m2 = 16%nat)
    (Hbank : bank_of mtx1 <> bank_of mtx2) :
  GetMatrixOverlap m1 m2 mtx1 mtx2 msize = Some OVERLAP_NONE.
Proof.
  destruct (GetMatrixOverlap_spec m1 m2 mtx1 mtx2 msize Hsize Hm1 Hm2)
    as (res & -> & Heq & Hpart).
  f_equal. destruct res; [| | reflexivity].
  - exfalso. apply Hbank. f_equal. now apply Heq.
  - destruct Hpart as [Hpart _].
    destruct (Hpart eq_refl) as (_ & i & j & i' & j' & _ & _ & _ & _ & Hl).
    exfalso. apply Hbank.
    rewrite <- (spec_matrix_lane_bank msize mtx1 i j), Hl.
    apply spec_matrix_lane_bank.
Qed.

Lemma X16_GetMatrixOverlap_other_bank_witness :
  GetMatrixOverlap (repeat 0 16) (repeat 0 16) 0x04 0x28 M_3x3 =
    Some OVERLAP_NONE.
Proof.
  apply (X16_GetMatrixOverlap_other_bank (repeat 0 16) (repeat 0 16)
           0x04 0x28 M_3x3);
    [discriminate | reflexivity | reflexivity | discriminate].
Defined.

(** X17: two 4x4 matrices of one bank always overlap: for two different
    codes with the same bank field GetMatrixOverlap at 4x4 returns PARTIAL,
    since each 4x4 grid covers the whole bank. *)
Theorem X17_GetMatrixOverlap_4x4_same_bank
    (m1 m2 : list Z) (mtx1 mtx2 : Z)
    (Hm1 : length m1 = 16%nat) (Hm2 : length m2 = 16%nat)
    (Hne : mtx1 <> mtx2) (Hbank : bank_of mtx1 = bank_of mtx2) :
  GetMatrixOverlap m1 m2 mtx1 mtx2 M_4x4 = Some OVERLAP_PARTIAL.
Proof.
  destruct (GetMatrixOverlap_spec m1 m2 mtx1 mtx2 M_4x4
              ltac:(discriminate) Hm1 Hm2) as (res & -> & Heq & Hpart).
  f_equal. apply Hpart. split; [exact Hne|].
  pose proof (code_has_fields mtx1) as F1.
  pose proof (code_has_fields mtx2) as F2.
  set (t1 := (mtx1 / 32) mod 2) in F1. set (r1 := (mtx1 / 64) mod 2) in F1.
  set (b1 := (mtx1 / 4) mod 8) in F1. set (c1 := mtx1 mod 4) in F1.
  set (t2 := (mtx2 / 32) mod 2) in F2. set (r2 := (mtx2 / 64) mod 2) in F2.
  set (b2 := (mtx2 / 4) mod 8) in F2. set (c2 := mtx2 mod 4) in F2.
  unfold bank_of in Hbank.
  rewrite (cf_bank _ _ _ _ _ F1), (cf_bank _ _ _ _ _ F2) in Hbank.
  pose proof (cf_t _ _ _ _ _ F1). pose proof (cf_r _ _ _ _ _ F1).
  pose proof (cf_c _ _ _ _ _ F1). pose proof (cf_t _ _ _ _ _ F2).
  pose proof (cf_r _ _ _ _ _ F2). pose proof (cf_c _ _ _ _ _ F2).
  (* the cell of the second grid that holds the lane of cell (0,0) of the
     first *)
  set (lo := if nz t1 then 2 * r1 else c1).
  set (hi := if nz t1 then c1 else 2 * r1).
  exists 0, 0.
  exists (Z.modulo ((if nz t2 then lo else hi) - 2 * r2) 4).
  exists (Z.modulo ((if nz t2 then hi else lo) - c2) 4).
  cbn [GetMatrixSideSafe].
  split; [lia|]. split; [lia|].
  split; [apply Z.mod_pos_bound; lia|].
  split; [apply Z.mod_pos_bound; lia|].
  rewrite (matrix_lane_of_fields M_4x4 mtx1 t1 r1 b1 c1 _ _ F1).
  rewrite (matrix_lane_of_fields M_4x4 mtx2 t2 r2 b2 c2 _ _ F2).
  subst lo hi. clearbody t1 r1 b1 c1 t2 r2 b2 c2. subst b2.
  destruct (nz_cases t1) as [[-> _] | [-> _]];
    destruct (nz_cases t2) as [[-> _] | [-> _]];
    rewrite ?land_3; Z.div_mod_to_equations; lia.
Qed.

Lemma X17_GetMatrixOverlap_4x4_same_bank_witness :
  GetMatrixOverlap (repeat 0 16) (repeat 0 16) 0x04 0x24 M_4x4 =
    Some OVERLAP_PARTIAL.
Proof.
  apply (X17_GetMatrixOverlap_4x4_same_bank (repeat 0 16) (repeat 0 16)
           0x04 0x24);
    [reflexivity | reflexivity | discriminate | reflexivity].
Defined.

(** ** GetVectorOverlap *)

Lemma filter_pair_length {A B : Type} (Q : A * B -> Prop)
    `{forall p, Decision (Q p)} (a : A) (l : list B) :
  length (filter Q (map (pair a) l)) =
  length (filter (fun b => Q (a, b)) l).
Proof.
  induction l as [|b l IH]; [reflexivity|].
  cbn [map]. rewrite !filter_cons.
  destruct (decide (Q (a, b))); cbn [length]; now rewrite IH.
Qed.

Lemma list_prod_cons {A B : Type} (a : A) (l1 : list A) (l2 : list B) :
  list_prod (a :: l1) l2 = map (pair a) l2 ++ list_prod l1 l2.
Proof. reflexivity. Qed.

(** The inner loop adds the number of matching [j]. *)
Lemma count_loop (P : Z -> Prop) `{forall j, Decision (P j)}
    (body : Z -> Z -> option Z) (n : nat) (k c0 : Z) :
  (forall j c, k <= j < k + Z.of_nat n ->
     body j c = Some (if decide (P j) then c + 1 else c)) ->
  for_loop n k body c0 =
  Some (c0 + Z.of_nat (length (filter P (seqZ k (Z.of_nat n))))).
Proof.
  revert k c0. induction n as [|n IH]; intros k c0 Hbody.
  - cbn [for_loop]. f_equal.
    replace (seqZ k (Z.of_nat 0)) with (@nil Z) by reflexivity.
    rewrite filter_nil. cbn [length]. lia.
  - cbn [for_loop]. rewrite Hbody by lia.
    rewrite IH by (intros; apply Hbody; lia).
    rewrite (seqZ_cons k (Z.of_nat (S n))) by lia.
    replace (Z.pred (Z.of_nat (S n))) with (Z.of_nat n) by lia.
    replace (Z.succ k) with (k + 1) by lia.
    rewrite filter_cons. destruct (decide (P k)); cbn [length]; f_equal; lia.
Qed.

(** The two nested loops count the matching pairs. *)
Lemma pair_count_loop (Q : Z * Z -> Prop) `{forall p, Decision (Q p)}
    (body : Z -> Z -> Z -> option Z) (n1 n2 : nat) (k c0 : Z) :
  (forall i j c, k <= i < k + Z.of_nat n1 -> 0 <= j < Z.of_nat n2 ->
     body i j c = Some (if decide (Q (i, j)) then c + 1 else c)) ->
  for_loop n1 k (fun i c => for_loop n2 0 (body i) c) c0 =
  Some (c0 + Z.of_nat (length (filter Q
          (list_prod (seqZ k (Z.of_nat n1)) (seqZ 0 (Z.of_nat n2)))))).
Proof.
  revert k c0. induction n1 as [|n1 IH]; intros k c0 Hbody.
  - cbn [for_loop]. f_equal.
    replace (seqZ k (Z.of_nat 0)) with (@nil Z) by reflexivity.
    cbn [list_prod]. rewrite filter_nil. cbn [length]. lia.
  - cbn [for_loop].
    rewrite (count_loop (fun j => Q (k, j)) (body k) n2 0 c0)
      by (intros; apply Hbody; lia).
    rewrite IH by (intros; apply Hbody; lia).
    rewrite (seqZ_cons k (Z.of_nat (S n1))) by lia.
    replace (Z.pred (Z.of_nat (S n1))) with (Z.of_nat n1) by lia.
    replace (Z.succ k) with (k + 1) by lia.
    rewrite list_prod_cons, filter_app, length_app, filter_pair_length.
    f_equal. lia.
Qed.

(** Swapping the two lists swaps the pairs. *)
Lemma pair_count_cons_r {A B : Type} (Q : A * B -> Prop)
    `{forall p, Decision (Q p)} (b : B) (l1 : list A) (l2 : list B) :
  length (filter Q (list_prod l1 (b :: l2))) =
  (length (filter (fun a => Q (a, b)) l1) +
   length (filter Q (list_prod l1 l2)))%nat.
Proof.
  induction l1 as [|a l1 IH]; [reflexivity|].
  rewrite !list_prod_cons, !filter_app, !length_app, IH.
  cbn [map]. rewrite !filter_cons.
  destruct (decide (Q (a, b))); cbn [length]; lia.
Qed.

Lemma pair_count_swap {A B : Type} (Q : A * B -> Prop)
    `{forall p, Decision (Q p)} (l1 : list A) (l2 : list B) :
  length (filter Q (list_prod l1 l2)) =
  length (filter (fun p => Q (p.2, p.1)) (list_prod l2 l1)).
Proof.
  induction l1 as [|a l1 IH].
  - cbn. induction l2 as [|b l2 IH2]; [reflexivity|].
    rewrite list_prod_cons. exact IH2.
  - rewrite list_prod_cons, filter_app, length_app, filter_pair_length, IH.
    now rewrite (pair_count_cons_r (fun p => Q (p.2, p.1)) a l2 l1).
Qed.

Lemma filter_length_ext {A : Type} (P Q : A -> Prop)
    `{forall a, Decision (P a)} `{forall a, Decision (Q a)} (l : list A) :
  (forall a, a ∈ l -> P a <-> Q a) ->
  length (filter P l) = length (filter Q l).
Proof.
  induction l as [|a l IH]; intros HPQ; [reflexivity|].
  rewrite !filter_cons.
  pose proof (HPQ a ltac:(left)) as Ha.
  destruct (decide (P a)), (decide (Q a)); cbn [length];
    try tauto; rewrite IH; auto; intros; apply HPQ; now right.
Qed.

(** The number of pairs (i, j), i below [n1] and j below [n2], whose lanes
    coincide when both codes are decoded at [size]. *)
Lemma GetVectorOverlap_count (regs1 regs2 : list Z) (vec1 vec2 : Z)
    (size1 size2 : VectorSize) :
  size1 <> V_Invalid ->
  length regs1 = 4%nat -> length regs2 = 4%nat ->
  GetNumVectorElements size2 <= GetNumVectorElements size1 ->
  GetVectorOverlap regs1 regs2 vec1 size1 vec2 size2 =
  Some (Z.of_nat (length (filter
          (fun p => spec_vector_lane size1 vec1 p.1 =
                    spec_vector_lane size1 vec2 p.2)
          (list_prod (seqZ 0 (GetNumVectorElements size1))
                     (seqZ 0 (GetNumVectorElements size2)))))).
Proof.
  intros Hsize H1 H2 Hle. unfold GetVectorOverlap.
  assert (0 <= GetNumVectorElements size2) as Hn2 by (destruct size2; cbn; lia).
  assert (0 <= GetNumVectorElements size1) as Hn1 by (destruct size1; cbn; lia).
  destruct (Z.eqb_spec (Z.land (Z.shiftr vec1 2) 7)
              (Z.land (Z.shiftr vec2 2) 7)) as [Hbank | Hbank]; cbn [negb].
  - destruct (GetVectorRegs_spec regs1 size1 vec1 Hsize H1)
      as (r1 & -> & _ & Hw1 & _).
    destruct (GetVectorRegs_spec regs2 size1 vec2 Hsize H2)
      as (r2 & -> & _ & Hw2 & _).
    cbn [mbind option_bind].
    rewrite (pair_count_loop
               (fun p => spec_vector_lane size1 vec1 p.1 =
                         spec_vector_lane size1 vec2 p.2)).
    + rewrite !Z2Nat.id by lia. reflexivity.
    + intros i j c Hi Hj. rewrite Z2Nat.id in Hi, Hj by lia.
      rewrite (Hw1 i), (Hw2 j) by lia. cbn [mbind option_bind fst snd].
      f_equal.
      destruct (Z.eqb_spec (spec_vector_lane size1 vec1 i)
                  (spec_vector_lane size1 vec2 j));
        destruct (decide (spec_vector_lane size1 vec1 i =
                          spec_vector_lane size1 vec2 j));
        congruence.
  - f_equal. symmetry.
    rewrite (filter_length_ext _ (fun _ => False)).
    + induction (list_prod _ _) as [|p l IH]; [reflexivity|].
      rewrite filter_cons. destruct (decide False); [contradiction | exact IH].
    + intros p _. split; [|contradiction]. intros Hl. apply Hbank.
      change (bank_of vec1 = bank_of vec2).
      rewrite <- (spec_vector_lane_bank size1 vec1 p.1), Hl.
      apply spec_vector_lane_bank.
Qed.

(** X18: when size2 has no more elements than size1, GetVectorOverlap
    returns the number of pairs (i, j), i below the element count of size1
    and j below that of size2, for which lane i of vec1 equals lane j of
    vec2 with BOTH codes decoded at size1; what the two local arrays held
    plays no part. *)
Theorem X18_GetVectorOverlap_counts_shared_lanes
    (regs1 regs2 : list Z) (vec1 vec2 : Z) (size1 size2 : VectorSize)
    (Hsize : size1 <> V_Invalid)
    (Hregs1 : length regs1 = 4%nat) (Hregs2 : length regs2 = 4%nat)
    (Hle : GetNumVectorElements size2 <= GetNumVectorElements size1) :
  GetVectorOverlap regs1 regs2 vec1 size1 vec2 size2 =
  Some (Z.of_nat (length (filter
          (fun p => spec_vector_lane size1 vec1 p.1 =
                    spec_vector_lane size1 vec2 p.2)
          (list_prod (seqZ 0 (GetNumVectorElements size1))
                     (seqZ 0 (GetNumVectorElements size2)))))).
Proof. now apply GetVectorOverlap_count. Qed.

Lemma X18_GetVectorOverlap_counts_shared_lanes_witness :
  GetVectorOverlap [9; 9; 9; 9] [7; 7; 7; 7] 0x00 V_Quad 0x20 V_Pair =
  Some (Z.of_nat (length (filter
          (fun p => spec_vector_lane V_Quad 0x00 p.1 =
                    spec_vector_lane V_Quad 0x20 p.2)
          (list_prod (seqZ 0 (GetNumVectorElements V_Quad))
                     (seqZ 0 (GetNumVectorElements V_Pair)))))).
Proof.
  apply (X18_GetVectorOverlap_counts_shared_lanes
           [9; 9; 9; 9] [7; 7; 7; 7] 0x00 0x20 V_Quad V_Pair);
    [discriminate | reflexivity | reflexivity | cbn; lia].
Defined.

(** X19: for two vectors of the same valid size the overlap count does not
    depend on the order of the two operands. *)
Theorem X19_GetVectorOverlap_symmetric
    (regs1 regs2 regs1' regs2' : list Z) (vec1 vec2 : Z) (size : VectorSize)
    (Hsize : size <> V_Invalid)
    (Hregs1 : length regs1 = 4%nat) (Hregs2 : length regs2 = 4%nat)
    (Hregs1' : length regs1' = 4%nat) (Hregs2' : length regs2' = 4%nat) :
  GetVectorOverlap regs1 regs2 vec1 size vec2 size =
  GetVectorOverlap regs1' regs2' vec2 size vec1 size.
Proof.
  rewrite !GetVectorOverlap_count by (assumption || lia).
  do 2 f_equal. rewrite pair_count_swap.
  apply filter_length_ext. intros p _. cbn [fst snd]. split; congruence.
Qed.

Lemma X19_GetVectorOverlap_symmetric_witness :
  GetVectorOverlap [9; 9; 9; 9] [7; 7; 7; 7] 0x00 V_Triple 0x21 V_Triple =
  GetVectorOverlap [1; 2; 3; 4] [5; 6; 7; 8] 0x21 V_Triple 0x00 V_Triple.
Proof.
  apply (X19_GetVectorOverlap_symmetric [9; 9; 9; 9] [7; 7; 7; 7]
           [1; 2; 3; 4] [5; 6; 7; 8] 0x00 0x21 V_Triple);
    [discriminate | reflexivity ..].
Defined.

Lemma seqZ_range (k n x : Z) : x ∈ seqZ k n -> k <= x < k + n.
Proof. rewrite elem_of_seqZ. lia. Qed.

Lemma filter_none {A : Type} (P : A -> Prop)
    `{forall a, Decision (P a)} (l : list A) :
  (forall a, a ∈ l -> ~ P a) -> filter P l = [].
Proof.
  induction l as [|a l IH]; intros Hnone; [reflexivity|].
  rewrite filter_cons. destruct (decide (P a)) as [Ha | _].
  - destruct (Hnone a ltac:(left) Ha).
  - apply IH. intros b Hb. apply Hnone. now right.
Qed.

Lemma filter_at_most_one {A : Type} (P : A -> Prop)
    `{forall a, Decision (P a)} (l : list A) :
  NoDup l -> (forall a b, a ∈ l -> b ∈ l -> P a -> P b -> a = b) ->
  (length (filter P l) <= 1)%nat.
Proof.
  induction 1 as [|a l Hnotin Hnd IH]; intros Huniq; [cbn; lia|].
  rewrite filter_cons. destruct (decide (P a)) as [Ha | Ha].
  - cbn [length].
    assert (filter P l = []) as ->; [|cbn; lia].
    apply filter_none. intros b Hb Pb.
    apply Hnotin.
    rewrite (Huniq a b ltac:(left) ltac:(now right) Ha Pb). exact Hb.
  - apply IH. intros x y Hx Hy. apply Huniq; now right.
Qed.

Lemma pair_count_bound {A B : Type} (Q : A * B -> Prop)
    `{forall p, Decision (Q p)} (l1 : list A) (l2 : list B) :
  (forall b, (length (filter (fun a => Q (a, b)) l1) <= 1)%nat) ->
  (length (filter Q (list_prod l1 l2)) <= length l2)%nat.
Proof.
  intros Hone. induction l2 as [|b l2 IH].
  - rewrite pair_count_swap. cbn. lia.
  - rewrite pair_count_cons_r. cbn [length]. specialize (Hone b). lia.
Qed.

(** X20: when size2 has no more elements than size1, the overlap count lies
    between 0 and the element count of size2, and it is 0 exactly when no
    lane of vec1 is a lane of vec2 (both decoded at size1). *)
Theorem X20_GetVectorOverlap_bounds
    (regs1 regs2 : list Z) (vec1 vec2 : Z) (size1 size2 : VectorSize)
    (Hsize : size1 <> V_Invalid)
    (Hregs1 : length regs1 = 4%nat) (Hregs2 : length regs2 = 4%nat)
    (Hle : GetNumVectorElements size2 <= GetNumVectorElements size1) :
  exists count,
    GetVectorOverlap regs1 regs2 vec1 size1 vec2 size2 = Some count /\
    0 <= count <= GetNumVectorElements size2 /\
    (count = 0 <->
     forall i j, 0 <= i < GetNumVectorElements size1 ->
                 0 <= j < GetNumVectorElements size2 ->
                 spec_vector_lane size1 vec1 i <> spec_vector_lane size1 vec2 j).
Proof.
  rewrite GetVectorOverlap_count by assumption.
  eexists. split; [reflexivity|].
  assert (0 <= GetNumVectorElements size2) as Hn2 by (destruct size2; cbn; lia).
  assert (GetNumVectorElements size1 <= 4) as Hn1 by (destruct size1; cbn; lia).
  set (Q := fun p : Z * Z => spec_vector_lane size1 vec1 p.1 =
                             spec_vector_lane size1 vec2 p.2).
  split.
  - split; [lia|].
    pose proof (pair_count_bound Q (seqZ 0 (GetNumVectorElements size1))
                  (seqZ 0 (GetNumVectorElements size2))) as Hb.
    rewrite length_seqZ in Hb.
    enough (length (filter Q (list_prod (seqZ 0 (GetNumVectorElements size1))
                      (seqZ 0 (GetNumVectorElements size2)))) <=
            Z.to_nat (GetNumVectorElements size2))%nat by lia.
    apply Hb. intros b. apply filter_at_most_one; [apply NoDup_seqZ|].
    intros x y Hx%seqZ_range Hy%seqZ_range Qx Qy. unfold Q in Qx, Qy.
    cbn [fst snd] in Qx, Qy.
    apply (spec_vector_lane_inj size1 vec1); [lia | lia | congruence].
  - split.
    + intros Hzero i j Hi Hj Hl.
      assert (length (filter Q (list_prod (seqZ 0 (GetNumVectorElements size1))
                (seqZ 0 (GetNumVectorElements size2)))) = 0%nat) as Hnil by lia.
      apply length_zero_iff_nil in Hnil.
      assert ((i, j) ∈ filter Q (list_prod (seqZ 0 (GetNumVectorElements size1))
                (seqZ 0 (GetNumVectorElements size2)))) as Hin.
      { apply list_elem_of_filter. split; [exact Hl|].
        apply list_elem_of_In, in_prod; apply list_elem_of_In, elem_of_seqZ; lia. }
      rewrite Hnil in Hin. inversion Hin.
    + intros Hnone.
      assert (filter Q (list_prod (seqZ 0 (GetNumVectorElements size1))
                (seqZ 0 (GetNumVectorElements size2))) = []) as ->;
        [|reflexivity].
      apply filter_none. intros [i j] Hin HQ.
      apply list_elem_of_In, in_prod_iff in Hin as [Hi Hj].
      apply list_elem_of_In, seqZ_range in Hi.
      apply list_elem_of_In, seqZ_range in Hj.
      apply (Hnone i j); [lia | lia | exact HQ].
Qed.

Lemma X20_GetVectorOverlap_bounds_witness :
  exists count,
    GetVectorOverlap [9; 9; 9; 9] [7; 7; 7; 7] 0x00 V_Quad 0x20 V_Pair =
      Some count /\
    0 <= count <= GetNumVectorElements V_Pair /\
    (count = 0 <->
     forall i j, 0 <= i < GetNumVectorElements V_Quad ->
                 0 <= j < GetNumVectorElements V_Pair ->
                 spec_vector_lane V_Quad 0x00 i <> spec_vector_lane V_Quad 0x20 j).
Proof.
  apply (X20_GetVectorOverlap_bounds
           [9; 9; 9; 9] [7; 7; 7; 7] 0x00 0x20 V_Quad V_Pair);
    [discriminate | reflexivity | reflexivity | cbn; lia].
Defined.

(** X21: when size2 has MORE elements than size1 the count takes in a cell
    of the second local array that the decoder never wrote.  For a single
    against a pair of the same bank, the result is 1 or 0 for the one lane
    of each code, plus 1 when the value [b] that the second array happened
    to hold at index 1 equals the lane of vec1. *)
Theorem X21_GetVectorOverlap_larger_second_size
    (regs1 : list Z) (a b c d vec1 vec2 : Z)
    (Hregs1 : length regs1 = 4%nat)
    (Hbank : bank_of vec1 = bank_of vec2) :
  GetVectorOverlap regs1 [a; b; c; d] vec1 V_Single vec2 V_Pair =
  Some ((if spec_vector_lane V_Single vec1 0 =? spec_vector_lane V_Single vec2 0
         then 1 else 0) +
        (if spec_vector_lane V_Single vec1 0 =? b then 1 else 0)).
Proof.
  unfold GetVectorOverlap. unfold bank_of in Hbank.
  rewrite Hbank, Z.eqb_refl. cbn [negb].
  destruct (GetVectorRegs_spec regs1 V_Single vec1 ltac:(discriminate) Hregs1)
    as (r1 & -> & _ & Hw1 & _).
  destruct (GetVectorRegs_spec [a; b; c; d] V_Single vec2
              ltac:(discriminate) eq_refl) as (r2 & -> & _ & Hw2 & Hk2).
  cbn [mbind option_bind GetNumVectorElements].
  change (Z.to_nat 1) with 1%nat. change (Z.to_nat 2) with 2%nat.
  cbn [for_loop]. change (0 + 1) with 1.
  cbn [GetNumVectorElements] in Hw1, Hw2, Hk2.
  rewrite (Hw1 0), (Hw2 0), (Hk2 1) by lia.
  change (load [a; b; c; d] 1) with (Some b).
  cbn [mbind option_bind]. f_equal.
  destruct (_ =? spec_vector_lane V_Single vec2 0), (_ =? b); reflexivity.
Qed.

Lemma X21_GetVectorOverlap_larger_second_size_witness :
  GetVectorOverlap [0; 0; 0; 0] [0; 3; 0; 0] 0x03 V_Single 0x02 V_Pair =
  Some ((if spec_vector_lane V_Single 0x03 0 =? spec_vector_lane V_Single 0x02 0
         then 1 else 0) +
        (if spec_vector_lane V_Single 0x03 0 =? 3 then 1 else 0)).
Proof.
  apply (X21_GetVectorOverlap_larger_second_size [0; 0; 0; 0] 0 3 0 0 0x03 0x02);
    reflexivity.
Defined.

(** * Further properties of the arithmetic kernel *)

Module KernelMore.
Import Kernel.
Import SinCos.

Lemma s8_small (x : Z) : -128 <= x < 128 -> s8 x = x.
Proof.
intros H. unfold s8, signed. change (2 ^ 8) with 256.
change (2 ^ (8 - 1)) with 128.
destruct (Z.ltb_spec (x mod 256) 128); Z.div_mod_to_equations; lia.
Qed.

Lemma s32_small (x : Z) : - 2 ^ 31 <= x < 2 ^ 31 -> s32 x = x.
Proof.
intros H. unfold s32, signed. change (2 ^ (32 - 1)) with (2 ^ 31).
destruct (Z.ltb_spec (x mod 2 ^ 32) (2 ^ 31)); Z.div_mod_to_equations; lia.
Qed.

Lemma u32_small (x : Z) : 0 <= x < 2 ^ 32 -> u32 x = x.
Proof. intros H. unfold u32. now apply Z.mod_small. Qed.

Lemma get_mant_range (x : Z) : 2 ^ 23 <= get_mant x < 2 ^ 24.
Proof.
unfold get_mant.
assert (Z.lor (Z.land x 0x007FFFFF) 0x00800000 =
        x mod 2 ^ 23 + 2 ^ 23) as ->.
{ rewrite <- KernelFacts.land_low23.
  pose proof (Z.add_lor_land (Z.land x 0x007FFFFF) 0x00800000) as H.
  replace (Z.land (Z.land x 0x007FFFFF) 0x00800000) with 0 in H; [lia|].
  rewrite <- Z.land_assoc. change (Z.land 0x007FFFFF 0x00800000) with 0.
  now rewrite Z.land_0_r. }
pose proof (Z.mod_pos_bound x (2 ^ 23) ltac:(lia)).
rewrite s32_small; lia.
Qed.

Lemma get_uexp_range (x : Z) : 0 <= get_uexp x <= 255.
Proof.
rewrite KernelFacts.get_uexp_div.
pose proof (Z.mod_pos_bound (x / 2 ^ 23) (2 ^ 8) ltac:(lia)). lia.
Qed.

(** Shifting a non-zero mantissa below 2^24 by 23 minus the position of its
    highest bit brings that bit to position 23. *)
Lemma normalize_mantissa (m : Z) :
  0 < m < 2 ^ 24 ->
  0 <= 23 - Z.log2 m <= 23 /\
  2 ^ 23 <= m * 2 ^ (23 - Z.log2 m) < 2 ^ 24 /\
  (m < 2 ^ 23 -> 1 <= 23 - Z.log2 m) /\
  (2 ^ 23 <= m -> 23 - Z.log2 m = 0).
Proof.
intros Hm.
pose proof (Z.log2_spec m ltac:(lia)) as Hspec.
pose proof (Z.log2_nonneg m) as Hl0.
assert (Z.log2 m < 24) as Hl by (apply Z.log2_lt_pow2; lia).
set (l := Z.log2 m) in *.
assert (l = 0 \/ l = 1 \/ l = 2 \/ l = 3 \/ l = 4 \/ l = 5 \/ l = 6 \/
        l = 7 \/ l = 8 \/ l = 9 \/ l = 10 \/ l = 11 \/ l = 12 \/ l = 13 \/
        l = 14 \/ l = 15 \/ l = 16 \/ l = 17 \/ l = 18 \/ l = 19 \/
        l = 20 \/ l = 21 \/ l = 22 \/ l = 23) as Hcases by lia.
clearbody l.
repeat (destruct Hcases as [-> | Hcases]; [cbn in *; lia|]).
subst l. cbn in *. lia.
Qed.

(** The argument reduction leaves a mantissa that is zero or normalized,
    and then an exponent between the threshold and 0x7F. *)
Lemma reduce_turns_range (val k : Z) :
  PRECISION_EXP_THRESHOLD <= k <= 255 ->
  forall negate mantissa k',
    reduce_turns val k = (negate, mantissa, k') ->
    mantissa = 0 \/
    (2 ^ 23 <= mantissa < 2 ^ 24 /\ PRECISION_EXP_THRESHOLD <= k' <= 0x7F).
Proof.
unfold PRECISION_EXP_THRESHOLD. intros Hk negate mantissa k'.
unfold reduce_turns.
pose proof (get_mant_range val) as Hm0.
set (m0 := get_mant val) in *. clearbody m0.
set (p1 := if k >? 0x80 then _ else _).
assert (exists m1 k1, p1 = (m1, k1) /\ 0 <= m1 < 2 ^ 24 /\
          (k1 = 0x80 \/ (k1 = k /\ k < 0x80 /\ m1 = m0))) as (m1 & k1 & -> & Hm1 & Hk1).
{ subst p1. destruct (Z.gtb_spec k 0x80).
  - eexists _, _. split; [reflexivity|]. split; [|now left].
    change 0x00FFFFFF with (Z.ones 24). rewrite Z.land_ones by lia.
    apply Z.mod_pos_bound. lia.
  - eexists _, _. split; [reflexivity|]. split; [lia|].
    destruct (Z.eq_dec k 0x80); [left | right]; lia. }
change (Z.shiftl 1 23) with (2 ^ 23).
set (p2 := if (k1 =? 0x80) && (m1 >=? 2 ^ 23) then _ else _).
assert (exists neg m2, p2 = (neg, m2) /\ 0 <= m2 < 2 ^ 24 /\
          ((k1 = 0x80 /\ m2 < 2 ^ 23) \/ (k1 = k /\ k < 0x80 /\ m2 = m0)))
  as (neg & m2 & -> & Hm2 & Hk2).
{ subst p2. destruct (Z.eqb_spec k1 0x80) as [E | E];
    destruct (Z.geb_spec m1 (2 ^ 23)); cbn [andb];
    eexists _, _; (split; [reflexivity|]); split; try lia. }
intros [= <- <- <-].
destruct (Z.eqb_spec m2 0) as [-> | Hnz].
{ left. reflexivity. }
right.
destruct (normalize_mantissa m2 ltac:(lia)) as (Hsh & Hrange & Hlow & Hhigh).
unfold clz32_nonzero. rewrite (u32_small m2) by lia.
replace (s8 (31 - Z.log2 m2) - 8) with (23 - Z.log2 m2)
  by (rewrite s8_small; lia).
rewrite !s8_small by lia.
rewrite Z.shiftl_mul_pow2 by lia.
rewrite s32_small by lia.
split; [exact Hrange|]. lia.
Qed.

Lemma lor_disjoint_add (a b n : Z) :
  0 <= n -> 0 <= b < 2 ^ n -> Z.lor (a * 2 ^ n) b = a * 2 ^ n + b.
Proof.
intros Hn Hb.
pose proof (Z.add_lor_land (a * 2 ^ n) b) as H.
replace (Z.land (a * 2 ^ n) b) with 0 in H; [lia|].
symmetry. apply Z.bits_inj'. intros i Hi.
rewrite Z.land_spec, Z.bits_0.
destruct (Z.lt_ge_cases i n).
- rewrite Z.mul_pow2_bits_low by lia. reflexivity.
- replace b with (b mod 2 ^ n) by (apply Z.mod_small; lia).
  rewrite Z.mod_pow2_bits_high by lia. apply andb_false_r.
Qed.

Lemma lxor_sign (x : Z) :
  0 <= x < 2 ^ 32 ->
  Z.lxor x 0x80000000 = if x <? 2 ^ 31 then x + 2 ^ 31 else x - 2 ^ 31.
Proof.
intros Hx.
assert (forall y, 0 <= y < 2 ^ 31 -> Z.lxor y 0x80000000 = y + 2 ^ 31) as Hlow.
{ intros y Hy. symmetry. apply Z.add_nocarry_lxor.
  rewrite KernelFacts.land_sign_bit. rewrite Z.div_small by lia. reflexivity. }
destruct (Z.ltb_spec x (2 ^ 31)); [apply Hlow; lia|].
replace x with (Z.lxor (x - 2 ^ 31) 0x80000000) at 1
  by (rewrite Hlow; lia).
rewrite Z.lxor_assoc, Z.lxor_nilpotent, Z.lxor_0_r. reflexivity.
Qed.

Lemma float_neg_range (x : Z) :
  0 <= x < 2 ^ 32 -> 0 <= float_neg x < 2 ^ 32.
Proof.
intros Hx. unfold float_neg. rewrite lxor_sign by exact Hx.
destruct (Z.ltb_spec x (2 ^ 31)); lia.
Qed.

Lemma land_sign_cases (x : Z) :
  0 <= x < 2 ^ 32 ->
  Z.land x 0x80000000 = if x <? 2 ^ 31 then 0 else 2 ^ 31.
Proof.
intros Hx. rewrite KernelFacts.land_sign_bit.
destruct (Z.ltb_spec x (2 ^ 31)); Z.div_mod_to_equations; lia.
Qed.

Lemma land_clear_hidden (m : Z) :
  2 ^ 23 <= m < 2 ^ 24 ->
  Z.land m (Z.lnot (Z.shiftl 1 23)) = m - 2 ^ 23.
Proof.
intros Hm. change (Z.shiftl 1 23) with (2 ^ 23).
change (Z.land m (Z.lnot (2 ^ 23))) with (Z.ldiff m (2 ^ 23)).
symmetry. apply Z.sub_nocarry_ldiff.
apply Z.bits_inj'. intros i Hi. rewrite Z.ldiff_spec, Z.bits_0.
destruct (Z.eq_dec i 23) as [-> | Hne].
- assert (Z.testbit m 23 = true) as ->; [|reflexivity].
  apply Z.testbit_true; [lia|]. Z.div_mod_to_equations. lia.
- rewrite Z.pow2_bits_false by lia. reflexivity.
Qed.

(** The bits of the reduced value as a sum of its three fields. *)
Lemma reduced_bits_value (val k m : Z) :
  0 <= val < 2 ^ 32 -> 0 <= k < 256 -> 2 ^ 23 <= m < 2 ^ 24 ->
  reduced_bits val k m =
  Z.land val 0x80000000 + k * 2 ^ 23 + (m - 2 ^ 23).
Proof.
intros Hval Hk Hm. unfold reduced_bits.
rewrite land_clear_hidden by exact Hm.
rewrite Z.shiftl_mul_pow2 by lia.
rewrite s32_small by lia.
rewrite land_sign_cases by exact Hval.
destruct (val <? 2 ^ 31).
- rewrite Z.lor_0_l.
  rewrite (lor_disjoint_add k (m - 2 ^ 23) 23) by lia.
  rewrite u32_small; lia.
- replace (Z.lor (2 ^ 31) (k * 2 ^ 23)) with (2 ^ 31 + k * 2 ^ 23).
  2:{ pose proof (lor_disjoint_add 1 (k * 2 ^ 23) 31 ltac:(lia) ltac:(lia))
        as H.
      rewrite Z.mul_1_l in H. now rewrite H. }
  replace (2 ^ 31 + k * 2 ^ 23) with ((256 + k) * 2 ^ 23) by lia.
  rewrite (lor_disjoint_add (256 + k) (m - 2 ^ 23) 23) by lia.
  rewrite u32_small; lia.
Qed.

Lemma reduced_bits_range (val k m : Z) :
  0 <= val < 2 ^ 32 -> 0 <= k < 256 -> 2 ^ 23 <= m < 2 ^ 24 ->
  0 <= reduced_bits val k m < 2 ^ 32.
Proof.
intros Hval Hk Hm. rewrite reduced_bits_value by assumption.
rewrite land_sign_cases by exact Hval. destruct (val <? 2 ^ 31); lia.
Qed.

Lemma reduced_bits_uexp (val k m : Z) :
  0 <= val < 2 ^ 32 -> 0 <= k < 256 -> 2 ^ 23 <= m < 2 ^ 24 ->
  get_uexp (reduced_bits val k m) = k.
Proof.
intros Hval Hk Hm. rewrite reduced_bits_value by assumption.
rewrite KernelFacts.get_uexp_div.
rewrite land_sign_cases by exact Hval.
destruct (val <? 2 ^ 31); Z.div_mod_to_equations; lia.
Qed.

Lemma u32_lxor_sign_range (x : Z) :
  0 <= x < 2 ^ 32 -> u32 (Z.lxor x 0x80000000) = float_neg x.
Proof.
intros Hx. apply u32_small. now apply float_neg_range.
Qed.

(** Flipping the sign of the argument flips the sign of the reduced
    value. *)
Lemma reduced_bits_neg (val k m : Z) :
  0 <= val < 2 ^ 32 -> 0 <= k < 256 -> 2 ^ 23 <= m < 2 ^ 24 ->
  reduced_bits (u32 (Z.lxor val 0x80000000)) k m =
  float_neg (reduced_bits val k m).
Proof.
intros Hval Hk Hm.
rewrite u32_lxor_sign_range by exact Hval.
pose proof (float_neg_range val Hval) as Hneg.
pose proof (reduced_bits_range val k m Hval Hk Hm) as Hr.
rewrite !reduced_bits_value in * by assumption.
unfold float_neg in *.
rewrite (lxor_sign (Z.land val 0x80000000 + k * 2 ^ 23 + (m - 2 ^ 23)))
  by exact Hr.
rewrite (land_sign_cases (Z.lxor val 0x80000000)) by exact Hneg.
pose proof (land_sign_cases val Hval) as Hs.
pose proof (lxor_sign val Hval) as Hx.
rewrite Hs in *. rewrite Hx in *. clear Hs Hx.
destruct (Z.ltb_spec val (2 ^ 31));
  repeat match goal with
         | |- context [?a <? ?b] => destruct (Z.ltb_spec a b)
         end; lia.
Qed.

Lemma float_eq_nonzero (x y : Z) :
  Z.land y 0x7FFFFFFF <> 0 -> float_eq x y = true -> x = y.
Proof.
unfold float_eq. intros Hy H.
apply andb_prop in H as [_ H]. apply orb_prop in H as [H | H].
- now apply Z.eqb_eq.
- apply andb_prop in H as [_ H]. apply Z.eqb_eq in H. contradiction.
Qed.

Lemma land_lxor_sign_low (x : Z) :
  Z.land (Z.lxor x 0x80000000) 0xFFFFFFFC =
  Z.lxor (Z.land x 0xFFFFFFFC) 0x80000000.
Proof.
apply Z.bits_inj'. intros i Hi.
rewrite !Z.land_spec, !Z.lxor_spec, !Z.land_spec.
destruct (Z.testbit x i), (Z.testbit 0x80000000 i) eqn:Es,
  (Z.testbit 0xFFFFFFFC i) eqn:Em; try reflexivity.
all: exfalso; change 0x80000000 with (2 ^ 31) in Es;
  rewrite Z.pow2_bits_eqb in Es by lia; apply Z.eqb_eq in Es; subst i;
  discriminate Em.
Qed.

(** X24: vfpu_sincos returns exactly the pair of vfpu_sin and vfpu_cos on
    every 32-bit pattern, provided the platform's combined call gives the
    results of the two separate calls and the platform sine of the reduced
    arguments +1.0 and -1.0 (a quarter turn) is +1.0 and -1.0 once the two
    low bits are cleared: vfpu_sincos returns these values without a call,
    vfpu_sin through the call. *)
Theorem X24_vfpu_sincos_is_sin_and_cos
    (sin_pi_2 cos_pi_2 : Z -> Z) (sincos_pi_2 : Z -> Z * Z) (a : Z)
    (Ha : 0 <= a < 2 ^ 32)
    (Hsincos : forall x, sincos_pi_2 x = (sin_pi_2 x, cos_pi_2 x))
    (Hone : Z.land (sin_pi_2 float_one) 0xFFFFFFFC = float_one)
    (Hneg_one : Z.land (sin_pi_2 float_neg_one) 0xFFFFFFFC = float_neg_one) :
  vfpu_sincos sin_pi_2 cos_pi_2 sincos_pi_2 a =
  (vfpu_sin sin_pi_2 a, vfpu_cos cos_pi_2 a).
Proof.
unfold vfpu_sincos, vfpu_sin, vfpu_cos.
pose proof (get_uexp_range a) as Hk.
rewrite (s32_small (get_uexp a)) by lia.
destruct (Z.eqb_spec (get_uexp a) 255) as [E255 | N255].
{ f_equal. rewrite Z.land_lor_distr_l, <- Z.land_assoc. reflexivity. }
destruct (Z.ltb_spec (get_uexp a) PRECISION_EXP_THRESHOLD) as [Hlow | Hhigh];
  [reflexivity|].
destruct (reduce_turns a (get_uexp a)) as [[negate mantissa] k] eqn:ER.
destruct (reduce_turns_range a (get_uexp a) ltac:(lia) _ _ _ ER)
  as [-> | (Hm & Hk')].
{ rewrite Z.eqb_refl, orb_true_r. destruct negate; [|reflexivity].
  f_equal. rewrite (u32_lxor_sign_range a) by exact Ha.
  pose proof (float_neg_range a Ha) as Hneg.
  rewrite (land_sign_cases (float_neg a)) by exact Hneg.
  rewrite (land_sign_cases a) by exact Ha.
  pose proof (lxor_sign a Ha) as Hx.
  unfold float_neg in *. rewrite Hx in *. clear Hx.
  destruct (Z.ltb_spec a (2 ^ 31));
    repeat match goal with
           | |- context [?x <? ?y] => destruct (Z.ltb_spec x y)
           end; try lia; reflexivity. }
unfold PRECISION_EXP_THRESHOLD in Hk'.
destruct (Z.leb_spec k 0); [lia|].
destruct (Z.eqb_spec mantissa 0); [lia|]. cbn [orb].
assert (reduced_bits (if negate then u32 (Z.lxor a 0x80000000) else a)
          k mantissa =
        if negate then float_neg (reduced_bits a k mantissa)
        else reduced_bits a k mantissa) as ->.
{ destruct negate; [|reflexivity]. apply reduced_bits_neg; lia. }
set (r := reduced_bits a k mantissa).
destruct (float_eq r float_one) eqn:E1.
{ apply float_eq_nonzero in E1; [|discriminate]. rewrite E1. cbn [orb].
  destruct negate.
  - change (float_neg float_one) with float_neg_one. now rewrite Hneg_one.
  - now rewrite Hone. }
destruct (float_eq r float_neg_one) eqn:E2.
{ apply float_eq_nonzero in E2; [|discriminate]. rewrite E2. cbn [orb].
  destruct negate.
  - change (float_neg float_neg_one) with float_one. now rewrite Hone.
  - now rewrite Hneg_one. }
cbn [orb]. destruct negate.
- f_equal. unfold float_neg. apply land_lxor_sign_low.
- now rewrite Hsincos.
Qed.

Lemma X24_vfpu_sincos_is_sin_and_cos_witness :
  vfpu_sincos (fun x => x) (fun x => x) (fun x => (x, x)) 0x40200000 =
  (vfpu_sin (fun x => x) 0x40200000, vfpu_cos (fun x => x) 0x40200000).
Proof.
apply (X24_vfpu_sincos_is_sin_and_cos
         (fun x => x) (fun x => x) (fun x => (x, x)) 0x40200000);
  [lia | reflexivity | reflexivity | reflexivity].
Defined.

(** X25: the platform sine and cosine are only ever evaluated at reduced
    arguments whose exponent field lies between 0x65 and 0x7F, that is at
    magnitudes from 2^-26 up to, but not including, 2 quarter turns: two
    platform functions that agree on these patterns give the same vfpu_sin
    and the same vfpu_cos on every 32-bit input. *)
Theorem X25_platform_called_on_reduced_arguments
    (f g : Z -> Z) (a : Z)
    (Ha : 0 <= a < 2 ^ 32)
    (Hagree : forall x, 0 <= x < 2 ^ 32 ->
                PRECISION_EXP_THRESHOLD <= get_uexp x <= 0x7F -> f x = g x) :
  vfpu_sin f a = vfpu_sin g a /\ vfpu_cos f a = vfpu_cos g a.
Proof.
unfold vfpu_sin, vfpu_cos.
pose proof (get_uexp_range a) as Hk.
rewrite (s32_small (get_uexp a)) by lia.
destruct (Z.eqb_spec (get_uexp a) 255) as [E255 | N255]; [now split|].
destruct (Z.ltb_spec (get_uexp a) PRECISION_EXP_THRESHOLD) as [Hlow | Hhigh];
  [now split|].
destruct (reduce_turns a (get_uexp a)) as [[negate mantissa] k] eqn:ER.
destruct (reduce_turns_range a (get_uexp a) ltac:(lia) _ _ _ ER)
  as [-> | (Hm & Hk')].
{ rewrite Z.eqb_refl, orb_true_r. now split. }
pose proof Hk' as Hk''. unfold PRECISION_EXP_THRESHOLD in Hk''.
destruct (Z.leb_spec k 0); [lia|].
destruct (Z.eqb_spec mantissa 0); [lia|]. cbn [orb].
assert (forall v, 0 <= v < 2 ^ 32 ->
          f (reduced_bits v k mantissa) = g (reduced_bits v k mantissa))
  as Hfg.
{ intros v Hv. apply Hagree.
  - apply reduced_bits_range; lia.
  - rewrite reduced_bits_uexp by lia. exact Hk'. }
split.
- rewrite Hfg; [reflexivity|].
  destruct negate; [|exact Ha].
  rewrite u32_lxor_sign_range by exact Ha. now apply float_neg_range.
- now rewrite (Hfg a Ha).
Qed.

Lemma X25_platform_called_on_reduced_arguments_witness :
  vfpu_sin (fun x => if get_uexp x <? 0x65 then 0 else x) 0x40200000 =
  vfpu_sin (fun x => x) 0x40200000 /\
  vfpu_cos (fun x => if get_uexp x <? 0x65 then 0 else x) 0x40200000 =
  vfpu_cos (fun x => x) 0x40200000.
Proof.
apply (X25_platform_called_on_reduced_arguments
         (fun x => if get_uexp x <? 0x65 then 0 else x) (fun x => x)
         0x40200000); [lia|].
intros x _ [Hx _]. unfold PRECISION_EXP_THRESHOLD in Hx.
destruct (Z.ltb_spec (get_uexp x) 0x65); [lia | reflexivity].
Defined.

Lemma float_neg_mod23 (a : Z) :
  0 <= a < 2 ^ 32 -> float_neg a mod 2 ^ 23 = a mod 2 ^ 23.
Proof.
intros Ha. unfold float_neg. rewrite lxor_sign by exact Ha.
destruct (a <? 2 ^ 31); Z.div_mod_to_equations; lia.
Qed.

Lemma get_uexp_neg (a : Z) :
  0 <= a < 2 ^ 32 -> get_uexp (float_neg a) = get_uexp a.
Proof.
intros Ha. rewrite !KernelFacts.get_uexp_div.
unfold float_neg. rewrite lxor_sign by exact Ha.
destruct (a <? 2 ^ 31); Z.div_mod_to_equations; lia.
Qed.

Lemma get_mant_neg (a : Z) :
  0 <= a < 2 ^ 32 -> get_mant (float_neg a) = get_mant a.
Proof.
intros Ha. unfold get_mant.
now rewrite !KernelFacts.land_low23, float_neg_mod23.
Qed.

Lemma reduce_turns_neg (a k : Z) :
  0 <= a < 2 ^ 32 -> reduce_turns (float_neg a) k = reduce_turns a k.
Proof.
intros Ha. unfold reduce_turns. now rewrite get_mant_neg.
Qed.

Lemma float_neg_involutive (a : Z) : float_neg (float_neg a) = a.
Proof.
unfold float_neg.
now rewrite Z.lxor_assoc, Z.lxor_nilpotent, Z.lxor_0_r.
Qed.

Lemma land_sign_neg (a : Z) :
  0 <= a < 2 ^ 32 ->
  Z.land (float_neg a) 0x80000000 = float_neg (Z.land a 0x80000000).
Proof.
intros Ha. pose proof (float_neg_range a Ha) as Hneg.
rewrite (land_sign_cases (float_neg a)) by exact Hneg.
rewrite (land_sign_cases a) by exact Ha.
pose proof (lxor_sign a Ha) as Hx. unfold float_neg in *.
rewrite Hx in *. clear Hx.
destruct (Z.ltb_spec a (2 ^ 31));
  repeat match goal with
         | |- context [?x <? ?y] => destruct (Z.ltb_spec x y)
         end; try lia; reflexivity.
Qed.

Lemma land_mask_neg (a mask : Z) :
  Z.testbit mask 31 = true ->
  Z.land (float_neg a) mask = float_neg (Z.land a mask).
Proof.
intros Hmask. unfold float_neg. apply Z.bits_inj'. intros i Hi.
rewrite !Z.land_spec, !Z.lxor_spec, !Z.land_spec.
change 0x80000000 with (2 ^ 31). rewrite Z.pow2_bits_eqb by lia.
destruct (Z.eqb_spec 31 i) as [<- | Hne].
- rewrite Hmask. now destruct (Z.testbit a 31).
- now destruct (Z.testbit a i), (Z.testbit mask i).
Qed.

Lemma land_mask_neg_clear (a mask : Z) :
  Z.testbit mask 31 = false ->
  Z.land (float_neg a) mask = Z.land a mask.
Proof.
intros Hmask. unfold float_neg. apply Z.bits_inj'. intros i Hi.
rewrite !Z.land_spec, !Z.lxor_spec.
change 0x80000000 with (2 ^ 31). rewrite Z.pow2_bits_eqb by lia.
destruct (Z.eqb_spec 31 i) as [<- | Hne].
- rewrite Hmask. now rewrite !andb_false_r.
- now rewrite xorb_false_r.
Qed.

Lemma lor_one_neg (x : Z) :
  Z.lor (float_neg x) 1 = float_neg (Z.lor x 1).
Proof.
unfold float_neg. apply Z.bits_inj'. intros i Hi.
rewrite !Z.lor_spec, !Z.lxor_spec, !Z.lor_spec.
change 0x80000000 with (2 ^ 31). rewrite Z.pow2_bits_eqb by lia.
destruct (Z.eqb_spec 31 i) as [<- | Hne].
- change (Z.testbit 1 31) with false. now rewrite !orb_false_r.
- now rewrite !xorb_false_r.
Qed.

Lemma float_eq_neg (x y : Z) :
  0 <= x < 2 ^ 32 -> 0 <= y < 2 ^ 32 ->
  float_eq (float_neg x) (float_neg y) = float_eq x y.
Proof.
intros Hx Hy. unfold float_eq, is_nan.
rewrite !(land_mask_neg_clear _ 0x7F800000) by reflexivity.
rewrite !(land_mask_neg_clear _ 0x007FFFFF) by reflexivity.
rewrite !(land_mask_neg_clear _ 0x7FFFFFFF) by reflexivity.
f_equal. f_equal.
unfold float_neg. rewrite !lxor_sign by assumption.
destruct (Z.ltb_spec x (2 ^ 31)), (Z.ltb_spec y (2 ^ 31));
  destruct (Z.eqb_spec x y);
  match goal with |- (?p =? ?q) = _ => destruct (Z.eqb_spec p q) end;
  try reflexivity; lia.
Qed.

(** X26: vfpu_sin is odd and vfpu_cos is even in the sign bit of the
    argument whenever the platform functions are: flipping the sign bit of
    any 32-bit input flips the sign bit of vfpu_sin and leaves vfpu_cos
    unchanged, infinities and NaNs included. *)
Theorem X26_vfpu_sin_odd_cos_even
    (sin_pi_2 cos_pi_2 : Z -> Z) (a : Z)
    (Ha : 0 <= a < 2 ^ 32)
    (Hodd : forall x, 0 <= x < 2 ^ 32 ->
              sin_pi_2 (float_neg x) = float_neg (sin_pi_2 x))
    (Heven : forall x, 0 <= x < 2 ^ 32 ->
               cos_pi_2 (float_neg x) = cos_pi_2 x) :
  vfpu_sin sin_pi_2 (float_neg a) = float_neg (vfpu_sin sin_pi_2 a) /\
  vfpu_cos cos_pi_2 (float_neg a) = vfpu_cos cos_pi_2 a.
Proof.
unfold vfpu_sin, vfpu_cos.
pose proof (float_neg_range a Ha) as Hna.
rewrite get_uexp_neg by exact Ha.
pose proof (get_uexp_range a) as Hk.
rewrite (s32_small (get_uexp a)) by lia.
destruct (Z.eqb_spec (get_uexp a) 255) as [E255 | N255].
{ split.
  - rewrite (land_mask_neg a 0xFF800001) by reflexivity. apply lor_one_neg.
  - now rewrite (land_mask_neg_clear a 0x7F800001) by reflexivity. }
destruct (Z.ltb_spec (get_uexp a) PRECISION_EXP_THRESHOLD) as [Hlow | Hhigh].
{ split; [now apply land_sign_neg | reflexivity]. }
rewrite reduce_turns_neg by exact Ha.
destruct (reduce_turns a (get_uexp a)) as [[negate mantissa] k] eqn:ER.
assert (forall v, 0 <= v < 2 ^ 32 -> 0 <= u32 (Z.lxor v 0x80000000) < 2 ^ 32)
  as Hflip.
{ intros v Hv. rewrite u32_lxor_sign_range by exact Hv.
  now apply float_neg_range. }
assert ((if negate then u32 (Z.lxor (float_neg a) 0x80000000)
         else float_neg a) =
        float_neg (if negate then u32 (Z.lxor a 0x80000000) else a)) as Eflip.
{ destruct negate; [|reflexivity].
  now rewrite !u32_lxor_sign_range by assumption. }
assert (0 <= (if negate then u32 (Z.lxor a 0x80000000) else a) < 2 ^ 32)
  as Hv by (destruct negate; [now apply Hflip | exact Ha]).
rewrite Eflip.
set (v := if negate then u32 (Z.lxor a 0x80000000) else a) in *.
destruct (reduce_turns_range a (get_uexp a) ltac:(lia) _ _ _ ER)
  as [-> | (Hm & Hk')].
{ rewrite Z.eqb_refl, orb_true_r. split; [now apply land_sign_neg|].
  reflexivity. }
unfold PRECISION_EXP_THRESHOLD in Hk'.
destruct (Z.leb_spec k 0); [lia|].
destruct (Z.eqb_spec mantissa 0); [lia|]. cbn [orb].
assert (forall w, 0 <= w < 2 ^ 32 ->
          reduced_bits (float_neg w) k mantissa =
          float_neg (reduced_bits w k mantissa)) as Hred.
{ intros w Hw. rewrite <- (u32_lxor_sign_range w) by exact Hw.
  apply reduced_bits_neg; lia. }
split.
- rewrite Hred by exact Hv.
  rewrite Hodd by (apply reduced_bits_range; lia).
  unfold float_neg. apply land_lxor_sign_low.
- rewrite Hred by exact Ha.
  pose proof (reduced_bits_range a k mantissa Ha ltac:(lia) Hm) as Hr.
  set (r := reduced_bits a k mantissa) in *.
  change float_one with (float_neg float_neg_one) at 1.
  change float_neg_one with (float_neg float_one) at 2.
  rewrite !float_eq_neg by (assumption || (vm_compute; split; congruence)).
  rewrite Heven by exact Hr.
  now rewrite orb_comm.
Qed.

Lemma X26_vfpu_sin_odd_cos_even_witness :
  vfpu_sin float_neg (float_neg 0x40200000) =
    float_neg (vfpu_sin float_neg 0x40200000) /\
  vfpu_cos (fun x => Z.land x 0x7FFFFFFF) (float_neg 0x40200000) =
    vfpu_cos (fun x => Z.land x 0x7FFFFFFF) 0x40200000.
Proof.
apply (X26_vfpu_sin_odd_cos_even float_neg (fun x => Z.land x 0x7FFFFFFF)
         0x40200000); [lia | reflexivity | ].
intros x _. now apply land_mask_neg_clear.
Defined.

(** ** The dot product *)

Lemma is_nan_fields (x : Z) :
  is_nan x = true -> get_uexp x = 255 /\ nz (Z.land x 0x007FFFFF) = true.
Proof.
unfold is_nan. intros H. apply andb_prop in H as [He Hf].
split; [|exact Hf].
apply Z.eqb_eq in He. revert He.
rewrite KernelFacts.land_exp_field, KernelFacts.get_uexp_div.
Z.div_mod_to_equations. lia.
Qed.

Lemma uexp_255_classes (x : Z) :
  get_uexp x = 255 ->
  (is_inf x = true /\ is_nan x = false /\ nz (Z.land x 0x007FFFFF) = false) \/
  (is_inf x = false /\ is_nan x = true /\ nz (Z.land x 0x007FFFFF) = true).
Proof.
unfold is_inf, is_nan, nz.
rewrite KernelFacts.land_exp_field, KernelFacts.get_uexp_div,
  KernelFacts.land_low31, KernelFacts.land_low23.
intros He.
destruct (Z.eqb_spec (x mod 2 ^ 23) 0) as [Ef | Ef];
  destruct (Z.eqb_spec (x mod 2 ^ 31) 0x7F800000);
  destruct (Z.eqb_spec (x mod 2 ^ 31 - x mod 2 ^ 23) 0x7F800000);
  cbn; try (left; repeat split; reflexivity);
  try (right; repeat split; reflexivity);
  exfalso; Z.div_mod_to_equations; lia.
Qed.

Lemma dot_lane_end_comm (src0 src1 i mant e : Z) (s : dot_state) :
  dot_lane_end src0 src1 i mant e s = dot_lane_end src1 src0 i mant e s.
Proof. unfold dot_lane_end. now rewrite (Z.lxor_comm (get_sign src0)). Qed.

(** One turn of the first loop does not depend on the order of the two
    operands, unless it pairs an infinity of the first with a NaN of the
    second or the reverse. *)
Lemma dot_lane_comm (a b : list Z) (i : Z) (s : dot_state) :
  is_inf (elem a i) && is_nan (elem b i) = false ->
  is_nan (elem a i) && is_inf (elem b i) = false ->
  dot_lane a b i s = dot_lane b a i s.
Proof.
intros H1 H2. unfold dot_lane.
pose proof (get_uexp_range (elem a i)) as Ra.
pose proof (get_uexp_range (elem b i)) as Rb.
rewrite !(s32_small (get_uexp _)) by lia.
destruct (Z.eqb_spec (get_uexp (elem a i)) 255) as [Ea | Ea];
  destruct (Z.eqb_spec (get_uexp (elem b i)) 255) as [Eb | Eb].
- rewrite Ea, Eb. change (255 =? 0) with false. rewrite !orb_false_r.
  destruct (uexp_255_classes _ Ea) as [(Ia & Na & ->) | (Ia & Na & ->)];
    destruct (uexp_255_classes _ Eb) as [(Ib & Nb & ->) | (Ib & Nb & ->)];
    try (rewrite Ia, Nb in H1; discriminate H1);
    try (rewrite Na, Ib in H2; discriminate H2);
    try reflexivity.
  apply dot_lane_end_comm.
- destruct (_ || _); [reflexivity | apply dot_lane_end_comm].
- destruct (_ || _); [reflexivity | apply dot_lane_end_comm].
- rewrite (Z.mul_comm (u64 (s32 (Z.shiftl (get_mant (elem b i)) EXTRA_BITS)))).
  rewrite (Z.add_comm (get_uexp (elem b i))).
  apply dot_lane_end_comm.
Qed.

Lemma for_flow_ext {St : Type} (f g : Z -> St -> flow St) (n : nat) (k : Z)
    (s : St) :
  (forall i s, k <= i < k + Z.of_nat n -> f i s = g i s) ->
  for_flow n k f s = for_flow n k g s.
Proof.
revert k s. induction n as [|n IH]; intros k s H; [reflexivity|].
cbn [for_flow]. rewrite (H k s) by lia.
destruct (g k s); [|reflexivity]. apply IH. intros. apply H. lia.
Qed.

(** X27: vfpu_dot does not depend on the order of its two operands, as long
    as no lane pairs an infinity of one operand with a NaN of the other. *)
Theorem X27_vfpu_dot_commutes (a b : list Z)
    (Hlanes : forall i, 0 <= i < 4 ->
       is_inf (elem a i) && is_nan (elem b i) = false /\
       is_nan (elem a i) && is_inf (elem b i) = false) :
  vfpu_dot a b = vfpu_dot b a.
Proof.
unfold vfpu_dot.
rewrite (for_flow_ext (dot_lane a b) (dot_lane b a)); [reflexivity|].
intros i s Hi. destruct (Hlanes i ltac:(lia)) as [H1 H2].
now apply dot_lane_comm.
Qed.

Lemma X27_vfpu_dot_commutes_witness :
  vfpu_dot [float_one; float_inf; 0x7FC00000; float_two]
           [float_half; float_neg_one; float_four; float_zero] =
  vfpu_dot [float_half; float_neg_one; float_four; float_zero]
           [float_one; float_inf; 0x7FC00000; float_two].
Proof.
apply (X27_vfpu_dot_commutes
         [float_one; float_inf; 0x7FC00000; float_two]
         [float_half; float_neg_one; float_four; float_zero]).
intros i Hi.
assert (i = 0 \/ i = 1 \/ i = 2 \/ i = 3) as [-> | [-> | [-> | ->]]] by lia;
  split; reflexivity.
Defined.

(** A NaN lane of the first operand, or a NaN lane of the second against
    a first-operand lane whose exponent field is not 255, leaves the first
    loop at once. *)
Lemma dot_lane_nan (a b : list Z) (i : Z) (s : dot_state) :
  is_nan (elem a i) = true \/
  (is_nan (elem b i) = true /\ get_uexp (elem a i) <> 255) ->
  dot_lane a b i s = Return vfpu_nan.
Proof.
pose proof (get_uexp_range (elem a i)) as Ra.
pose proof (get_uexp_range (elem b i)) as Rb.
unfold dot_lane. rewrite !(s32_small (get_uexp _)) by lia.
intros [Ha | [Hb Hne]].
- destruct (is_nan_fields _ Ha) as [-> ->]. reflexivity.
- destruct (is_nan_fields _ Hb) as [-> ->].
  destruct (Z.eqb_spec (get_uexp (elem a i)) 255); [contradiction|].
  reflexivity.
Qed.

(** X28: a NaN in any lane of the first operand makes vfpu_dot return the
    canonical NaN 0x7F800001, and so does a NaN in a lane of the second
    operand when the same lane of the first is neither an infinity nor a
    NaN (its exponent field is not 255). *)
Theorem X28_vfpu_dot_nan_operand (a b : list Z) (i : Z)
    (Hi : 0 <= i < 4)
    (Hnan : is_nan (elem a i) = true \/
            (is_nan (elem b i) = true /\ get_uexp (elem a i) <> 255)) :
  vfpu_dot a b = vfpu_nan.
Proof.
unfold vfpu_dot.
rewrite (KernelFacts.for_flow_Return (dot_lane a b) vfpu_nan);
  [reflexivity | |].
- intros j s r. apply KernelFacts.dot_lane_Return.
- exists i. split; [lia|]. intros s. now apply dot_lane_nan.
Qed.

Lemma X28_vfpu_dot_nan_operand_witness :
  vfpu_dot [float_one; float_two; float_zero; float_four]
           [float_one; 0xFFC00001; float_zero; float_half] = vfpu_nan.
Proof.
apply (X28_vfpu_dot_nan_operand
         [float_one; float_two; float_zero; float_four]
         [float_one; 0xFFC00001; float_zero; float_half] 1); [lia|].
right. split; [reflexivity | vm_compute; discriminate].
Defined.

Lemma get_sign_cases (x : Z) :
  0 <= x < 2 ^ 32 ->
  get_sign x = if x <? 2 ^ 31 then 0 else - 2 ^ 31.
Proof.
intros Hx. unfold get_sign. rewrite land_sign_cases by exact Hx.
now destruct (x <? 2 ^ 31).
Qed.

(** X29: but an infinity in the FIRST operand against a NaN in the same
    lane of the second is taken as an infinite product: with zeros in the
    other lanes vfpu_dot returns the infinity whose sign is the product of
    the two signs, while the same operands in the other order give the
    canonical NaN. *)
Theorem X29_vfpu_dot_inf_times_nan (x y : Z)
    (Hx : 0 <= x < 2 ^ 32) (Hy : 0 <= y < 2 ^ 32)
    (Hnan : is_nan x = true) (Hinf : is_inf y = true) :
  vfpu_dot [y; float_zero; float_zero; float_zero]
           [x; float_zero; float_zero; float_zero] =
    (if xorb (sign_set x) (sign_set y) then 0xFF800000 else float_inf) /\
  vfpu_dot [x; float_zero; float_zero; float_zero]
           [y; float_zero; float_zero; float_zero] = vfpu_nan.
Proof.
split.
- destruct (is_nan_fields _ Hnan) as [Ex Fx].
  destruct (KernelFacts.is_inf_fields _ Hinf) as [Ey Fy].
  unfold vfpu_dot. cbn [for_flow].
  assert (dot_lane [y; float_zero; float_zero; float_zero]
            [x; float_zero; float_zero; float_zero] 0 dot_init =
          dot_lane_end y x 0 (s32 (Z.shiftl (get_mant 0) EXTRA_BITS)) 255
            dot_init) as ->.
  { unfold dot_lane. change (elem [y; _; _; _] 0) with y.
    change (elem [x; _; _; _] 0) with x.
    rewrite Ex, Ey, Fy. reflexivity. }
  unfold dot_lane_end, sign_set.
  rewrite (get_sign_cases x Hx), (get_sign_cases y Hy).
  rewrite (land_sign_cases x Hx), (land_sign_cases y Hy).
  destruct (x <? 2 ^ 31), (y <? 2 ^ 31); vm_compute; reflexivity.
- unfold vfpu_dot.
  rewrite (KernelFacts.for_flow_Return (dot_lane _ _) vfpu_nan);
    [reflexivity | |].
  + intros j s r. apply KernelFacts.dot_lane_Return.
  + exists 0. split; [lia|]. intros s. apply dot_lane_nan. now left.
Qed.

Lemma X29_vfpu_dot_inf_times_nan_witness :
  vfpu_dot [0xFF800000; float_zero; float_zero; float_zero]
           [0x7FC00000; float_zero; float_zero; float_zero] =
    (if xorb (sign_set 0x7FC00000) (sign_set 0xFF800000)
     then 0xFF800000 else float_inf) /\
  vfpu_dot [0x7FC00000; float_zero; float_zero; float_zero]
           [0xFF800000; float_zero; float_zero; float_zero] = vfpu_nan.
Proof.
apply (X29_vfpu_dot_inf_times_nan 0x7FC00000 0xFF800000);
  [lia | lia | reflexivity | reflexivity].
Defined.

(** ** The square root *)

Lemma land_clear_low2 (x : Z) :
  0 <= x < 2 ^ 32 -> Z.land x 0xFFFFFFFC = x - x mod 4.
Proof.
intros Hx.
pose proof (KernelFacts.land_disjoint_masks x 0xFFFFFFFC 3 eq_refl) as H.
change (Z.lor 0xFFFFFFFC 3) with (Z.ones 32) in H.
rewrite Z.land_ones in H by lia. rewrite Z.mod_small in H by lia.
rewrite land_3 in H. lia.
Qed.

(** X30: on a positive normal input (sign bit clear, exponent field E from
    1 to 254) vfpu_sqrt returns a positive normal value whose exponent
    field is 127 + floor((E - 127) / 2), the unbiased exponent halved, and
    whose two low mantissa bits are clear, whatever the six refinement steps
    produce. *)
Theorem X30_vfpu_sqrt_halves_exponent (a : Z)
    (Ha : 0 <= a < 2 ^ 31)
    (Hexp : 1 <= get_uexp a <= 254) :
  get_uexp (vfpu_sqrt a) = 127 + (get_uexp a - 127) / 2 /\
  0 <= vfpu_sqrt a < 2 ^ 31 /\
  vfpu_sqrt a mod 4 = 0.
Proof.
unfold vfpu_sqrt.
assert (Z.land a 0x80000000 = 0) as Hs.
{ rewrite KernelFacts.land_sign_bit. rewrite Z.div_small by lia. reflexivity. }
assert (Z.land a 0x7f800000 = get_uexp a * 2 ^ 23) as He.
{ rewrite KernelFacts.land_exp_field, KernelFacts.get_uexp_div.
  Z.div_mod_to_equations. lia. }
rewrite KernelFacts.land_sign_exp, Hs, He, Z.add_0_l.
destruct (Z.eqb_spec (get_uexp a * 2 ^ 23) 0x7f800000); [lia|].
destruct (Z.eqb_spec (get_uexp a * 2 ^ 23) 0); [lia|].
change (nz 0) with false. cbv iota.
assert (get_exp a = get_uexp a - 127) as Hk.
{ unfold get_exp.
  destruct (Z.le_gt_cases 127 (get_uexp a)).
  - rewrite u32_small by lia. apply s32_small. lia.
  - unfold u32, s32, signed. change (2 ^ (32 - 1)) with (2 ^ 31).
    rewrite Z.mod_mod by lia.
    destruct (Z.ltb_spec ((get_uexp a - 127) mod 2 ^ 32) (2 ^ 31));
      Z.div_mod_to_equations; lia. }
rewrite Hk. rewrite Z.shiftr_div_pow2 by lia. change (2 ^ 1) with 2.
set (k := (get_uexp a - 127) / 2).
assert (-63 <= k <= 63) as Rk by (subst k; Z.div_mod_to_equations; lia).
match goal with
| |- context [Z.land (u32 ?zz) 0x007FFFFF] => set (frac := Z.land (u32 zz) 0x007FFFFF)
end.
assert (0 <= frac < 2 ^ 23) as Rf.
{ subst frac. rewrite KernelFacts.land_low23. apply Z.mod_pos_bound. lia. }
clearbody frac k.
rewrite Z.shiftl_mul_pow2 by lia.
rewrite s32_small by lia.
rewrite lor_disjoint_add by lia.
rewrite u32_small by lia.
rewrite land_clear_low2 by lia.
rewrite KernelFacts.get_uexp_div.
Z.div_mod_to_equations. lia.
Qed.

Lemma X30_vfpu_sqrt_halves_exponent_witness :
  get_uexp (vfpu_sqrt 0x41100000) = 127 + (get_uexp 0x41100000 - 127) / 2 /\
  0 <= vfpu_sqrt 0x41100000 < 2 ^ 31 /\
  vfpu_sqrt 0x41100000 mod 4 = 0.
Proof.
apply (X30_vfpu_sqrt_halves_exponent 0x41100000);
  [lia | vm_compute; split; discriminate].
Defined.

End KernelMore.

(** * Half-precision conversion *)

Lemma half_fields (l : Z) :
  0 <= l < 65536 ->
  Z.land (Z.shiftr l VFPU_SH_FLOAT16_SIGN) VFPU_MASK_FLOAT16_SIGN =
    half_sign l /\
  Z.land (Z.shiftr l VFPU_SH_FLOAT16_EXP) VFPU_MASK_FLOAT16_EXP =
    half_exp l /\
  Z.land l VFPU_MASK_FLOAT16_FRAC = half_frac l /\
  0 <= half_sign l <= 1 /\ 0 <= half_exp l < 32 /\ 0 <= half_frac l < 1024.
Proof.
  intros Hl.
  unfold VFPU_SH_FLOAT16_SIGN, VFPU_MASK_FLOAT16_SIGN, VFPU_SH_FLOAT16_EXP,
    VFPU_MASK_FLOAT16_EXP, VFPU_MASK_FLOAT16_FRAC, half_sign, half_exp,
    half_frac.
  rewrite !Z.shiftr_div_pow2 by lia.
  rewrite (Z.land_ones (l / 2 ^ 15) 1 ltac:(lia) : Z.land _ 0x1 = _).
  rewrite (Z.land_ones (l / 2 ^ 10) 5 ltac:(lia) : Z.land _ 0x1f = _).
  rewrite (Z.land_ones l 10 ltac:(lia) : Z.land _ 0x3ff = _).
  repeat split; Z.div_mod_to_equations; lia.
Qed.

(** The three fields of a single, put together with [|], add up. *)
Lemma pack_single (s E M : Z) :
  0 <= s <= 1 -> 0 <= E < 256 -> 0 <= M < 2 ^ 23 ->
  u32 (Z.lor (Z.lor (u32 (Z.shiftl s 31)) (Z.shiftl E 23)) M) =
  s * 2 ^ 31 + E * 2 ^ 23 + M.
Proof.
  intros Hs HE HM.
  rewrite !Z.shiftl_mul_pow2 by lia.
  rewrite (KernelMore.u32_small (s * 2 ^ 31)) by lia.
  rewrite (KernelMore.lor_disjoint_add s (E * 2 ^ 23) 31) by lia.
  replace (s * 2 ^ 31 + E * 2 ^ 23) with ((s * 256 + E) * 2 ^ 23) by lia.
  rewrite (KernelMore.lor_disjoint_add (s * 256 + E) M 23) by lia.
  apply KernelMore.u32_small. lia.
Qed.

(** The loop doubles the fraction until bit 10 is set: [n] turns when the
    fraction times 2^n has its highest bit there. *)
Lemma normalize_half_spec (n : nat) :
  forall (fuel : nat) (fraction exponent : Z),
    (1 <= n <= fuel)%nat -> 0 < fraction ->
    2 ^ 10 <= fraction * 2 ^ Z.of_nat n < 2 ^ 11 ->
    normalize_half fuel fraction exponent =
    Some (fraction * 2 ^ Z.of_nat n, exponent - Z.of_nat n).
Proof.
  induction n as [|n IH]; intros fuel fraction exponent Hn Hpos Hr; [lia|].
  destruct fuel as [|fuel]; [lia|]. cbn [normalize_half].
  unfold VFPU_MASK_FLOAT16_FRAC. change (0x3ff + 1) with (2 ^ 10).
  rewrite Z.shiftl_mul_pow2 by lia. change (2 ^ 1) with 2.
  assert (2 ^ Z.of_nat (S n) = 2 * 2 ^ Z.of_nat n) as HX
    by (rewrite Nat2Z.inj_succ, Z.pow_succ_r; lia).
  pose proof (Z.pow_pos_nonneg 2 (Z.of_nat n) ltac:(lia) ltac:(lia)) as Hp.
  set (X := 2 ^ Z.of_nat (S n)) in *. set (Y := 2 ^ Z.of_nat n) in *.
  assert (0 < fraction * 2 < 2 ^ 11) as Hf2 by nia.
  rewrite KernelMore.u32_small by lia.
  rewrite land_pow2 by lia.
  destruct n as [|n].
  - change Y with 1 in *.
    replace ((fraction * 2 / 2 ^ 10) mod 2) with 1
      by (Z.div_mod_to_equations; lia).
    cbn. do 2 f_equal; lia.
  - assert (2 <= Y) as HY.
    { subst Y. rewrite Nat2Z.inj_succ, Z.pow_succ_r by lia.
      pose proof (Z.pow_pos_nonneg 2 (Z.of_nat n) ltac:(lia) ltac:(lia)).
      lia. }
    assert (fraction * 2 < 2 ^ 10) as Hlow by nia.
    replace ((fraction * 2 / 2 ^ 10) mod 2) with 0
      by (Z.div_mod_to_equations; lia).
    cbn [Z.mul nz Z.eqb negb].
    rewrite (IH fuel (fraction * 2) (exponent - 1)); fold Y.
    + do 2 f_equal; lia.
    + lia.
    + lia.
    + lia.
Qed.

(** A non-zero fraction times 2^(10 - p), p the position of its highest
    bit, has its highest bit at position 10. *)
Lemma half_fraction_shift (f : Z) :
  0 < f < 2 ^ 10 ->
  0 <= Z.log2 f <= 9 /\
  2 ^ 10 <= f * 2 ^ (10 - Z.log2 f) < 2 ^ 11.
Proof.
  intros Hf.
  pose proof (Z.log2_spec f ltac:(lia)) as Hspec.
  pose proof (Z.log2_nonneg f) as Hl0.
  assert (Z.log2 f < 10) as Hl by (apply Z.log2_lt_pow2; lia).
  set (p := Z.log2 f) in *.
  assert (p = 0 \/ p = 1 \/ p = 2 \/ p = 3 \/ p = 4 \/ p = 5 \/ p = 6 \/
          p = 7 \/ p = 8 \/ p = 9) as Hcases by lia.
  clearbody p.
  repeat (destruct Hcases as [-> | Hcases]; [cbn in *; lia|]).
  subst p. cbn in *. lia.
Qed.

Lemma Float16ToFloat32_closed_form (fuel : nat) (l : Z) :
  0 <= l < 65536 -> (10 <= fuel)%nat ->
  Float16ToFloat32 fuel l = Some (half_converted l).
Proof.
  intros Hl Hfuel.
  destruct (half_fields l Hl) as (Es & Ee & Ef & Hs & He & Hf).
  unfold Float16ToFloat32, half_converted. rewrite Es, Ee, Ef.
  set (s := half_sign l) in *. set (e := half_exp l) in *.
  set (f := half_frac l) in *. clearbody s e f.
  unfold VFPU_FLOAT16_EXP_MAX. change 0x1f with 31.
  destruct (Z.eqb_spec e 31) as [-> | Hne31].
  { f_equal. apply pack_single; lia. }
  destruct (Z.eqb_spec e 0) as [-> | Hne0]; cbn [andb].
  - destruct (Z.eqb_spec f 0) as [-> | Hf0].
    + f_equal. assert (s = 0 \/ s = 1) as [-> | ->] by lia; reflexivity.
    + destruct (half_fraction_shift f ltac:(lia)) as (Hp & Hshift).
      set (p := Z.log2 f) in *. clearbody p.
      rewrite (normalize_half_spec (Z.to_nat (10 - p)) fuel f 0)
        by (rewrite ?Z2Nat.id by lia; lia).
      rewrite Z2Nat.id by lia.
      cbn [mbind option_bind].
      unfold VFPU_MASK_FLOAT16_FRAC. change 0x3ff with (Z.ones 10).
      rewrite Z.land_ones by lia.
      replace ((f * 2 ^ (10 - p)) mod 2 ^ 10)
        with (f * 2 ^ (10 - p) - 2 ^ 10)
        by (Z.div_mod_to_equations; lia).
      set (F := f * 2 ^ (10 - p) - 2 ^ 10) in *.
      assert (0 <= F < 2 ^ 10) as HF by (subst F; lia).
      clearbody F.
      f_equal.
      rewrite (Z.shiftl_mul_pow2 F 13) by lia.
      rewrite (KernelMore.u32_small (F * 2 ^ 13)) by lia.
      rewrite pack_single by lia. lia.
  - cbn [mbind option_bind]. f_equal.
    rewrite (Z.shiftl_mul_pow2 f 13) by lia.
    rewrite (KernelMore.u32_small (f * 2 ^ 13)) by lia.
    rewrite pack_single by lia. reflexivity.
Qed.

(** X22: for every 16-bit pattern the renormalization loop of
    Float16ToFloat32 stops within ten turns (ten or more units of fuel give
    a result), and the result has the sign of the input in bit 31 and, for
    a subnormal input, the exponent field 102 + p and the fraction bits
    below the highest set one moved to the top of the mantissa, where p is
    the position of the highest set fraction bit; for a normal input the
    exponent field is the input's plus 112, for exponent 31 it is 255 with
    the fraction kept in the low ten bits. *)
Theorem X22_Float16ToFloat32_closed_form (fuel : nat) (l : Z)
    (Hl : 0 <= l < 65536) (Hfuel : (10 <= fuel)%nat) :
  Float16ToFloat32 fuel l = Some (half_converted l).
Proof. now apply Float16ToFloat32_closed_form. Qed.

Lemma X22_Float16ToFloat32_closed_form_witness :
  Float16ToFloat32 12 0x0200 = Some (half_converted 0x0200).
Proof.
  apply (X22_Float16ToFloat32_closed_form 12 0x0200); lia.
Defined.

Lemma single_fields (s E M : Z) :
  0 <= s <= 1 -> 0 <= E < 256 -> 0 <= M < 2 ^ 23 ->
  (s * 2 ^ 31 + E * 2 ^ 23 + M) / 2 ^ 31 = s /\
  ((s * 2 ^ 31 + E * 2 ^ 23 + M) / 2 ^ 23) mod 2 ^ 8 = E /\
  (s * 2 ^ 31 + E * 2 ^ 23 + M) mod 2 ^ 23 = M.
Proof. intros Hs HE HM. repeat split; Z.div_mod_to_equations; lia. Qed.

(** X23: a normal half-precision pattern is converted to the single of the
    same sign and the same magnitude, but a subnormal one to the single of
    HALF its magnitude: the renormalization loop starts from the exponent
    field 0 where the format's subnormals have the exponent of field 1.
    Magnitudes are counted in units of 2^-149. *)
Theorem X23_Float16ToFloat32_magnitude (fuel : nat) (l : Z)
    (Hl : 0 <= l < 65536) (Hfuel : (10 <= fuel)%nat)
    (Hfinite : half_exp l <> 31) :
  exists r, Float16ToFloat32 fuel l = Some r /\
    r / 2 ^ 31 = half_sign l /\
    (half_exp l <> 0 -> single_magnitude r = half_magnitude l) /\
    (half_exp l = 0 -> 2 * single_magnitude r = half_magnitude l).
Proof.
  exists (half_converted l).
  split; [now apply Float16ToFloat32_closed_form|].
  destruct (half_fields l Hl) as (_ & _ & _ & Hs & He & Hf).
  unfold half_converted, single_magnitude, half_magnitude.
  set (s := half_sign l) in *. set (e := half_exp l) in *.
  set (f := half_frac l) in *. clearbody s e f.
  destruct (Z.eqb_spec e 31) as [|_]; [contradiction|].
  destruct (Z.eqb_spec e 0) as [-> | Hne0]; cbn [andb].
  - destruct (Z.eqb_spec f 0) as [-> | Hf0].
    + assert (s = 0 \/ s = 1) as [-> | ->] by lia;
        (split; [reflexivity|]); split; intros; try contradiction;
        reflexivity.
    + destruct (half_fraction_shift f ltac:(lia)) as (Hp & Hshift).
      set (p := Z.log2 f) in *. clearbody p.
      assert (2 ^ (10 - p) * 2 ^ (102 + p - 1) = 2 ^ 111) as Hpow
        by (rewrite <- Z.pow_add_r by lia; f_equal; lia).
      set (P := 2 ^ (10 - p)) in *. set (Q := 2 ^ (102 + p - 1)) in *.
      destruct (single_fields s (102 + p) ((f * P - 2 ^ 10) * 2 ^ 13)
                  ltac:(lia) ltac:(lia) ltac:(lia)) as (-> & -> & ->).
      split; [reflexivity|]. split; [intros; contradiction|]. intros _.
      destruct (Z.eqb_spec (102 + p) 0); [lia|]. fold Q.
      transitivity (2 ^ 14 * f * (P * Q)); [ring | rewrite Hpow; ring].
  - destruct (single_fields s (e + 112) (f * 2 ^ 13)
                ltac:(lia) ltac:(lia) ltac:(lia)) as (-> & -> & ->).
    split; [reflexivity|]. split; [|intros; contradiction]. intros _.
    destruct (Z.eqb_spec (e + 112) 0); [lia|].
    replace (e + 124) with (e + 112 - 1 + 13) by lia.
    rewrite (Z.pow_add_r 2 (e + 112 - 1) 13) by lia. ring.
Qed.

Lemma X23_Float16ToFloat32_magnitude_witness :
  exists r, Float16ToFloat32 10 0x8001 = Some r /\
    r / 2 ^ 31 = half_sign 0x8001 /\
    (half_exp 0x8001 <> 0 -> single_magnitude r = half_magnitude 0x8001) /\
    (half_exp 0x8001 = 0 -> 2 * single_magnitude r = half_magnitude 0x8001).
Proof.
  apply (X23_Float16ToFloat32_magnitude 10 0x8001);
    [lia | lia | vm_compute; discriminate].
Defined.
